(** * TinyFabulist: a shallow embedding of [temp.py] and its properties

    The development follows the Python module function by function:
    - Python values and effects (strings, exceptions, logging);
    - [generate_fable] and [evaluate_fable] (the two chat-completion clients);
    - [generate_prompts] (the prompt combinator);
    - the [json] codec, [write_fables], [write_output] and [read_prompts];
    - the branches of [main] and the worker threads;
    - [FableGenerator.generate_fable_combinations].

    Conventions.  A Python [str] is a [str]: a sequence of code points.  A
    call that may raise returns an [exc]; code that also logs lives in the
    [Py] monad.  The third-party services (the chat-completion endpoints,
    the pybars compiler, the random generator, the file system) are
    parameters of the functions that call them. *)

From Stdlib Require Import ZArith NArith QArith Strings.Byte.
From stdpp Require Import base list gmap sets.

Local Open Scope stdpp_scope.

(** ** Python strings *)

(** A [str] is a sequence of code points; a code point is a number below
    [0x110000], the surrogates [0xD800..0xDFFF] included. *)
Inductive str := EmptyString | String (c : N) (s : str).

Fixpoint str_of_bytes (l : list Byte.byte) : str :=
  match l with
  | [] => EmptyString
  | b :: l' => String (Byte.to_N b) (str_of_bytes l')
  end.

Fixpoint bytes_of_str (s : str) : option (list Byte.byte) :=
  match s with
  | EmptyString => Some []
  | String c s' =>
      match Byte.of_N c, bytes_of_str s' with
      | Some b, Some l => Some (b :: l)
      | _, _ => None
      end
  end.

Declare Scope str_scope.
Delimit Scope str_scope with str.
Bind Scope str_scope with str.
String Notation str str_of_bytes bytes_of_str : str_scope.
Open Scope str_scope.

(** [s + t] *)
Fixpoint append (s t : str) : str :=
  match s with
  | EmptyString => t
  | String c s' => String c (append s' t)
  end.
Infix "+:+" := append (at level 60, right associativity) : str_scope.
Global Arguments append : simpl nomatch.

(** [len(s)] *)
Fixpoint len (s : str) : nat :=
  match s with
  | EmptyString => 0
  | String _ s' => S (len s')
  end.

(** [ord(s)] for a string of one code point. *)
Definition ord (s : str) : N :=
  match s with
  | String c _ => c
  | EmptyString => 0
  end.

Fixpoint codes (s : str) : list N :=
  match s with
  | EmptyString => []
  | String c s' => c :: codes s'
  end.

Fixpoint of_codes (l : list N) : str :=
  match l with
  | [] => EmptyString
  | c :: l' => String c (of_codes l')
  end.

Global Instance str_eq_dec : EqDecision str.
Proof. solve_decision. Defined.

Global Instance str_countable : Countable str.
Proof.
  refine (inj_countable' codes of_codes _).
  intros s. induction s as [|c s IH]; simpl; congruence.
Defined.

(** Every element is a code point. *)
Fixpoint is_str (s : str) : bool :=
  match s with
  | EmptyString => true
  | String c s' => (c <? 1114112)%N && is_str s'
  end.

(** ** Exceptions and logging *)

Inductive exn_class :=
  | ZeroDivisionError | ValueError | KeyError | IndexError
  | AttributeError | TypeError | JSONDecodeError | RecursionError
  | FileNotFoundError
  | OSError              (* any other failure of [open] or of a read *)
  | UnicodeDecodeError
  | ConfigError          (* class ConfigError(TinyFabulistError) *)
  | PybarsError          (* raised by the template engine *)
  | UndefinedValueError  (* raised by decouple.config *)
  | APIError.            (* any transport or API failure of the openai client *)

(** An exception instance: its class and [str(e)]. *)
Record exn := Exn { exn_cls : exn_class; exn_str : str }.

Inductive exc (A : Type) :=
  | Ok (a : A)
  | Raise (e : exn).
Arguments Ok {A} a.
Arguments Raise {A} e.

Global Instance exc_ret : MRet exc := fun A a => Ok a.
Global Instance exc_bind : MBind exc := fun A B k m =>
  match m with Ok a => k a | Raise e => Raise e end.

Inductive level := INFO | WARNING | ERROR.
Definition LogRecord : Type := level * str.

(** [Py A]: the records sent to [logger] so far, and how the call ended. *)
Definition Py (A : Type) : Type := list LogRecord * exc A.

Global Instance Py_ret : MRet Py := fun A a => ([], Ok a).
Global Instance Py_bind : MBind Py := fun A B k m =>
  match m with
  | (l, Ok a) => let '(l', r) := k a in (l ++ l', r)
  | (l, Raise e) => (l, Raise e)
  end.

Definition lift {A} (m : exc A) : Py A := ([], m).
Definition logger_error (msg : str) : Py unit := ([(ERROR, msg)], Ok tt).
Definition logger_info (msg : str) : Py unit := ([(INFO, msg)], Ok tt).
Definition logger_warning (msg : str) : Py unit := ([(WARNING, msg)], Ok tt).

(** [try: body  except Exception as e: handler e]. *)
Definition try_except {A} (body : Py A) (handler : exn → Py A) : Py A :=
  match body with
  | (l, Raise e) => let '(l', r) := handler e in (l ++ l', r)
  | (l, Ok a) => (l, Ok a)
  end.

(** [l[0]] *)
Definition first_item {A} (l : list A) : exc A :=
  match l with
  | x :: _ => Ok x
  | [] => Raise (Exn IndexError "list index out of range")
  end.

(** [str.isspace] on one code point, and [str.strip()]. *)
Definition py_isspace (c : N) : bool :=
  ((9 <=? c) && (c <=? 13) || (28 <=? c) && (c <=? 32)
   || (c =? 133) || (c =? 160) || (c =? 5760)
   || (8192 <=? c) && (c <=? 8202) || (c =? 8232) || (c =? 8233)
   || (c =? 8239) || (c =? 8287) || (c =? 12288))%N.

Fixpoint lstrip (s : str) : str :=
  match s with
  | String c s' => if py_isspace c then lstrip s' else s
  | EmptyString => EmptyString
  end.

Fixpoint rstrip (s : str) : str :=
  match s with
  | String c s' =>
      match rstrip s' with
      | EmptyString => if py_isspace c then EmptyString else String c EmptyString
      | kept => String c kept
      end
  | EmptyString => EmptyString
  end.

Definition strip (s : str) : str := rstrip (lstrip s).

Fixpoint all_space (s : str) : bool :=
  match s with
  | String c s' => py_isspace c && all_space s'
  | EmptyString => true
  end.

(** [''.join(pieces)] *)
Definition join (pieces : list str) : str :=
  foldr append EmptyString pieces.
(** ** The chat-completion endpoints *)

Record Message := { role : str; content : str }.

Record Request := {
  req_base_url : option str;   (* None: the client's default base URL *)
  req_api_key : str;
  req_model : str;
  req_messages : list Message;
  req_max_tokens : Z;
  req_temperature : Q;
  req_stream : bool
}.

(** A streamed chunk: [message.choices[0].delta.content] may be [None]. *)
Record ChoiceDelta := { delta_content : option str }.
Record ChunkChoice := { delta : ChoiceDelta }.
Record ChatCompletionChunk := { chunk_choices : list ChunkChoice }.

(** The iterator returned by [create(stream=True)]: the chunks it yields and,
    when the transport breaks, the exception that ends the iteration. *)
Record Stream := { stream_chunks : list ChatCompletionChunk;
                   stream_failure : option exn }.

(** A complete (non-streamed) completion. *)
Record ChatCompletionMessage := { message_content : option str }.
Record Choice := { message : ChatCompletionMessage }.
Record ChatCompletion := { choices : list Choice }.

(** What the process environment and the network answer. *)
Record World := {
  decouple_config : str → exc str;
  create_stream : Request → exc Stream;
  create : Request → exc ChatCompletion
}.

(** ** [generate_fable] *)

(** [for message in chat_completion: if ... is not None: fable_text += ...] *)
Fixpoint consume_stream (chunks : list ChatCompletionChunk)
    (failure : option exn) (fable_text : str) : exc str :=
  match chunks with
  | [] => match failure with
          | None => Ok fable_text
          | Some e => Raise e
          end
  | message :: rest =>
      c ← first_item (chunk_choices message);
      match delta_content (delta c) with
      | Some piece => consume_stream rest failure (fable_text +:+ piece)
      | None => consume_stream rest failure fable_text
      end
  end.

Definition generation_request (api_key system_prompt fable_prompt base_url : str)
    : Request :=
  {| req_base_url := Some base_url;
     req_api_key := api_key;
     req_model := "tgi";
     req_messages := [ {| role := "system"; content := system_prompt |};
                       {| role := "user"; content := fable_prompt |} ];
     req_max_tokens := 1000%Z;
     req_temperature := (7 # 10)%Q;
     req_stream := true |}.

(** The body of the [try] block. *)
Definition generate_fable_body (w : World)
    (system_prompt fable_prompt base_url : str) : exc str :=
  api_key ← decouple_config w "HF_ACCESS_TOKEN";
  chat_completion ← create_stream w
    (generation_request api_key system_prompt fable_prompt base_url);
  consume_stream (stream_chunks chat_completion)
                 (stream_failure chat_completion) EmptyString.

Definition generate_fable (w : World)
    (system_prompt fable_prompt base_url : str) : Py str :=
  try_except
    (lift (generate_fable_body w system_prompt fable_prompt base_url))
    (fun e =>
       _ ← logger_error ("OpenAI API error: " +:+ exn_str e);
       mret ("Error generating fable: " +:+ exn_str e)).

(** The chunk's [choices[0].delta.content] is [d]. *)
Definition carries (m : ChatCompletionChunk) (d : option str) : Prop :=
  ∃ c rest, chunk_choices m = c :: rest ∧ delta_content (delta c) = d.

(** The endpoint answers the generation request with a stream. *)
Definition streams (w : World) (system_prompt fable_prompt base_url : str)
    (chat_completion : Stream) : Prop :=
  ∃ api_key,
    decouple_config w "HF_ACCESS_TOKEN" = Ok api_key ∧
    create_stream w (generation_request api_key system_prompt fable_prompt base_url)
      = Ok chat_completion.

(** A failure raised inside the generation call: by the credential lookup,
    by [create], by the transport while the stream is read, or by a chunk
    that has no choice to index. *)
Inductive generation_failure (w : World)
    (system_prompt fable_prompt base_url : str) : exn → Prop :=
  | credential_failure e :
      decouple_config w "HF_ACCESS_TOKEN" = Raise e →
      generation_failure w system_prompt fable_prompt base_url e
  | create_failure api_key e :
      decouple_config w "HF_ACCESS_TOKEN" = Ok api_key →
      create_stream w (generation_request api_key system_prompt fable_prompt base_url)
        = Raise e →
      generation_failure w system_prompt fable_prompt base_url e
  | transport_failure chunks deltas e :
      streams w system_prompt fable_prompt base_url
        {| stream_chunks := chunks; stream_failure := Some e |} →
      Forall2 carries chunks deltas →
      generation_failure w system_prompt fable_prompt base_url e
  | chunk_failure read deltas m rest failure :
      streams w system_prompt fable_prompt base_url
        {| stream_chunks := read ++ m :: rest; stream_failure := failure |} →
      Forall2 carries read deltas →
      chunk_choices m = [] →
      generation_failure w system_prompt fable_prompt base_url
        (Exn IndexError "list index out of range").

(** ** [evaluate_fable] *)

Definition nl : str := String 10 EmptyString.

Definition evaluation_prompt (fable : str) : str :=
  nl +:+ "        Please evaluate the following fable based on its creativity, coherence, "
  +:+ nl +:+ "        and moral lesson. Provide a grade from 1 to 10 (inclusive), where 1 is very poor and 10 is excellent."
  +:+ nl +:+ "        Respond with the grade only."
  +:+ nl
  +:+ nl +:+ "        Fable:"
  +:+ nl +:+ "        " +:+ fable
  +:+ nl +:+ "        ".

Definition evaluation_request (api_key fable : str) : Request :=
  {| req_base_url := None;
     req_api_key := api_key;
     req_model := "gpt-3.5-turbo";
     req_messages := [ {| role := "system";
                          content := "You are a fable critic providing grades." |};
                       {| role := "user"; content := evaluation_prompt fable |} ];
     req_max_tokens := 10%Z;
     req_temperature := 0%Q;
     req_stream := false |}.

(** [chat_completion.choices[0].message.content.strip()] *)
Definition evaluation_text (chat_completion : ChatCompletion) : exc str :=
  c ← first_item (choices chat_completion);
  match message_content (message c) with
  | Some text => Ok (strip text)
  | None => Raise (Exn AttributeError "'NoneType' object has no attribute 'strip'")
  end.

Definition evaluate_fable_body (w : World) (fable : str) : exc str :=
  api_key ← decouple_config w "OPENAI_TOKEN";
  chat_completion ← create w (evaluation_request api_key fable);
  evaluation_text chat_completion.

Definition evaluate_fable (w : World) (fable : str) : Py str :=
  try_except
    (lift (evaluate_fable_body w fable))
    (fun e =>
       _ ← logger_error ("OpenAI API error during evaluation: " +:+ exn_str e);
       mret ("Error evaluating fable: " +:+ exn_str e)).

(** The judge answers the evaluation request with [text] as the content of
    its first choice. *)
Definition judge_returns (w : World) (fable text : str) : Prop :=
  ∃ api_key c rest,
    decouple_config w "OPENAI_TOKEN" = Ok api_key ∧
    create w (evaluation_request api_key fable) = Ok {| choices := c :: rest |} ∧
    message_content (message c) = Some text.

(** ** [generate_prompts] *)

Record FeatureSet := {
  characters : list str;
  traits : list str;
  settings : list str;
  conflicts : list str;
  resolutions : list str;
  morals : list str
}.

Record PromptTemplates := { system : str; fable : str }.
Record GeneratorConfig := { features : FeatureSet; prompt : PromptTemplates }.
Record Config := { generator : GeneratorConfig }.

(** The tuple [(char, trait, setting, conflict, resolution, moral)]. *)
Definition Combination : Type :=
  str * str * str * str * str * str.

(** pybars: [Compiler().compile(source)] gives a callable from a context
    dictionary to the rendered text; both steps may raise. *)
Abbreviation Context := (gmap str str).
Definition Template : Type := Context → exc str.
Definition Compiler : Type := str → exc Template.

Definition context_of (combination : Combination) : Context :=
  let '(char, trait, setting, conflict, resolution, moral) := combination in
  <["character" := char]> (<["trait" := trait]> (<["setting" := setting]>
  (<["conflict" := conflict]> (<["resolution" := resolution]>
  (<["moral" := moral]> ∅))))).

(** How a call ends when the model bounds the number of loop iterations. *)
Inductive run (A : Type) :=
  | Returned (a : A)
  | Raised (e : exn)
  | OutOfFuel.
Arguments Returned {A} a.
Arguments Raised {A} e.
Arguments OutOfFuel {A}.

(** [random.sample(population, 1)[0]]: the [pos]-th value of the random
    source picks the index, as [randbelow(len(population))] does. *)
Definition sample1 (random : nat → nat) (population : list str) (pos : nat)
    : exc str :=
  match population with
  | [] => Raise (Exn ValueError "Sample larger than population or is negative")
  | x :: _ => Ok (nth (random pos mod length population) population x)
  end.

(** [a % n] and [l[i]].  (The text of the [ZeroDivisionError] differs
    between versions of CPython.) *)
Definition py_mod (a n : nat) : exc nat :=
  match n with
  | O => Raise (Exn ZeroDivisionError "integer modulo by zero")
  | S _ => Ok (a mod n)
  end.

Definition py_item {A} (l : list A) (i : nat) : exc A :=
  match l !! i with
  | Some x => Ok x
  | None => Raise (Exn IndexError "list index out of range")
  end.

(** [feature[idx % len(feature)]] *)
Definition round_robin (feature : list str) (idx : nat) : exc str :=
  i ← py_mod idx (length feature);
  py_item feature i.

(** The local variables of the [while] loop; [draws] counts the values
    taken from the random source. *)
Record LoopState := {
  prompts : list str;
  used_combinations : gset Combination;
  draws : nat
}.

Definition random_combination (random : nat → nat) (fs : FeatureSet) (pos : nat)
    : exc Combination :=
  char ← sample1 random (characters fs) pos;
  trait ← sample1 random (traits fs) (pos + 1);
  setting ← sample1 random (settings fs) (pos + 2);
  conflict ← sample1 random (conflicts fs) (pos + 3);
  resolution ← sample1 random (resolutions fs) (pos + 4);
  moral ← sample1 random (morals fs) (pos + 5);
  Ok (char, trait, setting, conflict, resolution, moral).

Definition sequential_combination (fs : FeatureSet) (idx : nat) : exc Combination :=
  char ← round_robin (characters fs) idx;
  trait ← round_robin (traits fs) idx;
  setting ← round_robin (settings fs) idx;
  conflict ← round_robin (conflicts fs) idx;
  resolution ← round_robin (resolutions fs) idx;
  moral ← round_robin (morals fs) idx;
  Ok (char, trait, setting, conflict, resolution, moral).

(** One pass through the body of [while len(prompts) < count]. *)
Definition loop_body (random : nat → nat) (fs : FeatureSet)
    (generator_template : Template) (randomize : bool) (st : LoopState)
    : exc LoopState :=
  if randomize then
    combination ← random_combination random fs (draws st);
    if decide (combination ∉ used_combinations st) then
      p ← generator_template (context_of combination);
      Ok {| prompts := prompts st ++ [p];
            used_combinations := used_combinations st ∪ {[ combination ]};
            draws := draws st + 6 |}
    else
      Ok {| prompts := prompts st;
            used_combinations := used_combinations st;
            draws := draws st + 6 |}
  else
    combination ← sequential_combination fs (length (prompts st));
    p ← generator_template (context_of combination);
    Ok {| prompts := prompts st ++ [p];
          used_combinations := used_combinations st;
          draws := draws st |}.

Fixpoint while_loop (fuel : nat) (random : nat → nat) (fs : FeatureSet)
    (generator_template : Template) (count : Z) (randomize : bool)
    (st : LoopState) : run LoopState :=
  match fuel with
  | O => OutOfFuel
  | S fuel' =>
      if (Z.of_nat (length (prompts st)) <? count)%Z then
        match loop_body random fs generator_template randomize st with
        | Ok st' => while_loop fuel' random fs generator_template count randomize st'
        | Raise e => Raised e
        end
      else Returned st
  end.

Definition of_exc {A} (m : exc A) (k : A → run (str * list str))
    : run (str * list str) :=
  match m with Ok a => k a | Raise e => Raised e end.

Definition generate_prompts (compile : Compiler) (random : nat → nat)
    (fuel : nat) (config : Config) (count : Z) (randomize : bool)
    : run (str * list str) :=
  let features := features (generator config) in
  let st0 := {| prompts := []; used_combinations := ∅; draws := 0 |} in
  of_exc (compile (system (prompt (generator config)))) (fun system_template =>
  of_exc (compile (fable (prompt (generator config)))) (fun generator_template =>
  of_exc (system_template ∅) (fun system_prompt =>
  match while_loop fuel random features generator_template count randomize st0 with
  | Returned st => Returned (system_prompt, prompts st)
  | Raised e => Raised e
  | OutOfFuel => OutOfFuel
  end))).

(** The Cartesian feature space, as the set of its distinct tuples. *)
Definition all_combinations (fs : FeatureSet) : list Combination :=
  char ← characters fs; trait ← traits fs; setting ← settings fs;
  conflict ← conflicts fs; resolution ← resolutions fs; moral ← morals fs;
  [(char, trait, setting, conflict, resolution, moral)].

Definition feature_space (fs : FeatureSet) : gset Combination :=
  list_to_set (all_combinations fs).

Definition nonempty_features (fs : FeatureSet) : Prop :=
  characters fs ≠ [] ∧ traits fs ≠ [] ∧ settings fs ≠ [] ∧
  conflicts fs ≠ [] ∧ resolutions fs ≠ [] ∧ morals fs ≠ [].

(** A compiler that accepts the configured templates: both compile, the
    system template renders [system_prompt] from the empty context and the
    fable template renders [render ctx] from every context. *)
Definition accepts (compile : Compiler) (config : Config)
    (system_prompt : str) (render : Context → str) : Prop :=
  ∃ system_template generator_template,
    compile (system (prompt (generator config))) = Ok system_template ∧
    compile (fable (prompt (generator config))) = Ok generator_template ∧
    system_template ∅ = Ok system_prompt ∧
    ∀ ctx, generator_template ctx = Ok (render ctx).

(** A random source is fair for a feature set when every tuple of the
    feature space is drawn at some iteration. *)
Definition fair (random : nat → nat) (fs : FeatureSet) : Prop :=
  ∀ c, c ∈ feature_space fs → ∃ k, random_combination random fs (6 * k) = Ok c.

(** The combination taken at index [i] in sequential mode: in every
    dimension the value at [i mod len(feature)]. *)
Definition picks_round_robin (fs : FeatureSet) (i : nat) (c : Combination) : Prop :=
  let '(char, trait, setting, conflict, resolution, moral) := c in
  characters fs !! (i mod length (characters fs)) = Some char ∧
  traits fs !! (i mod length (traits fs)) = Some trait ∧
  settings fs !! (i mod length (settings fs)) = Some setting ∧
  conflicts fs !! (i mod length (conflicts fs)) = Some conflict ∧
  resolutions fs !! (i mod length (resolutions fs)) = Some resolution ∧
  morals fs !! (i mod length (morals fs)) = Some moral.

(** The loop invariant of randomized mode: the prompts are the renderings
    of the accepted combinations, which are pairwise distinct members of the
    feature space and exactly the members of [used_combinations]. *)
Definition accepted (fs : FeatureSet) (render : Context → str)
    (st : LoopState) (combos : list Combination) : Prop :=
  prompts st = (fun c => render (context_of c)) <$> combos ∧
  NoDup combos ∧
  used_combinations st = list_to_set combos ∧
  ∀ c, c ∈ combos → c ∈ feature_space fs.

(** After [k] iterations every tuple drawn so far is in [used_combinations]. *)
Definition drawn_so_far (random : nat → nat) (fs : FeatureSet)
    (st : LoopState) (k : nat) : Prop :=
  draws st = 6 * k ∧
  ∀ j c, j < k → random_combination random fs (6 * j) = Ok c →
         c ∈ used_combinations st.


(** ** The [json] module

    The encoder is [json.dump] with its defaults ([ensure_ascii=True],
    separators [", "] and [": "]) on the values the program writes:
    dictionaries of strings and lists of them.  The decoder is [json.loads]
    with its defaults, as the accelerated scanner of CPython runs it.  The
    limits of the interpreter (the recursion limit, the limit on the digits
    of an integer) are not modelled. *)

Definition quote : N := 34.
Definition backslash : N := 92.
Definition newline : N := 10.
Definition carriage_return : N := 13.

(** *** Values *)

(** What [json.loads] returns.  The members of an object are kept in the
    order of the text; in the [dict] a later member overrides an earlier
    one with the same key. *)
Local Set Warnings "-register-all".
Inductive json :=
  | JNull
  | JBool (b : bool)
  | JInt (n : Z)
  | JFloat (literal : str)   (* [float(literal)]; also NaN and the infinities *)
  | JString (s : str)
  | JArray (items : list json)
  | JObject (members : list (str * json)).

(** *** The encoder *)

Definition hex_digit (n : N) : N :=
  (if n <? 10 then 48 + n else 87 + n)%N.

(** ['{0:04x}'.format(n)] for [n < 0x10000] *)
Definition hex4 (n : N) : str :=
  String (hex_digit (n / 4096 mod 16))
    (String (hex_digit (n / 256 mod 16))
       (String (hex_digit (n / 16 mod 16))
          (String (hex_digit (n mod 16)) EmptyString))).

(** The replacement of one character in [py_encode_basestring_ascii]. *)
Definition escape_char (c : N) : str :=
  (if c =? 34 then String backslash (String quote EmptyString)
   else if c =? 92 then String backslash (String backslash EmptyString)
   else if c =? 10 then String backslash "n"
   else if c =? 13 then String backslash "r"
   else if c =? 9 then String backslash "t"
   else if c =? 8 then String backslash "b"
   else if c =? 12 then String backslash "f"
   else if (32 <=? c) && (c <=? 126) then String c EmptyString
   else if c <? 65536 then String backslash ("u" +:+ hex4 c)
   else
     (* surrogate pair *)
     let n := c - 65536 in
     let s1 := N.lor 55296 (N.land (N.shiftr n 10) 1023) in
     let s2 := N.lor 56320 (N.land n 1023) in
     String backslash ("u" +:+ hex4 s1 +:+ String backslash ("u" +:+ hex4 s2)))%N.

Fixpoint escape (s : str) : str :=
  match s with
  | String c s' => escape_char c +:+ escape s'
  | EmptyString => EmptyString
  end.

Definition py_encode_basestring_ascii (s : str) : str :=
  String quote (escape s +:+ String quote EmptyString).

Fixpoint dump_members (items : list (str * str)) : str :=
  match items with
  | [] => EmptyString
  | [(k, v)] =>
      py_encode_basestring_ascii k +:+ ": " +:+ py_encode_basestring_ascii v
  | (k, v) :: rest =>
      py_encode_basestring_ascii k +:+ ": " +:+ py_encode_basestring_ascii v
      +:+ ", " +:+ dump_members rest
  end.

(** [json.dumps(d)] for a dictionary of strings listed in insertion order. *)
Definition json_dumps (items : list (str * str)) : str :=
  "{" +:+ dump_members items +:+ "}".

(** *** The decoder *)

(** [errmsg = '%s: line %d column %d (char %d)'] *)
Fixpoint decimal_digits (fuel : nat) (n : N) (acc : str) : str :=
  match fuel with
  | O => acc
  | S fuel' =>
      let acc' := String (48 + n mod 10)%N acc in
      if (n / 10 =? 0)%N then acc' else decimal_digits fuel' (n / 10)%N acc'
  end.

(** ['%d' % n] *)
Definition decimal (n : N) : str :=
  decimal_digits (S (N.to_nat (N.log2 n))) n EmptyString.

(** [lineno = doc.count('\n', 0, pos) + 1] and
    [colno = pos - doc.rfind('\n', 0, pos)] *)
Fixpoint line_column (doc : str) (pos : nat) (lineno colno : N) : N * N :=
  match pos, doc with
  | S pos', String c doc' =>
      if (c =? newline)%N then line_column doc' pos' (lineno + 1)%N 1%N
      else line_column doc' pos' lineno (colno + 1)%N
  | _, _ => (lineno, colno)
  end.

Definition errmsg (msg doc : str) (pos : nat) : str :=
  let '(lineno, colno) := line_column doc pos 1%N 1%N in
  msg +:+ ": line " +:+ decimal lineno +:+ " column " +:+ decimal colno
  +:+ " (char " +:+ decimal (N.of_nat pos) +:+ ")".

(** How a scan that starts at an index ends: with a value and the text
    after it; with a [JSONDecodeError], given by its message and by the
    number of characters that follow the position it reports; or beyond
    the depth the scanner was given. *)
Inductive scan (A : Type) :=
  | Scanned (a : A) (rest : str)
  | Failed (msg : str) (remaining : nat)
  | TooDeep.
Arguments Scanned {A} a rest.
Arguments Failed {A} msg remaining.
Arguments TooDeep {A}.

Definition scan_map {A B} (f : A → B) (r : scan A) : scan B :=
  match r with
  | Scanned a rest => Scanned (f a) rest
  | Failed msg remaining => Failed msg remaining
  | TooDeep => TooDeep
  end.

Definition is_json_whitespace (c : N) : bool :=
  ((c =? 32) || (c =? 9) || (c =? 10) || (c =? 13))%N.

Fixpoint skip_whitespace (s : str) : str :=
  match s with
  | String c s' => if is_json_whitespace c then skip_whitespace s' else s
  | EmptyString => EmptyString
  end.

(** The character denoted by [\esc]. *)
Definition unescape (esc : N) : option N :=
  (if esc =? 34 then Some quote
   else if esc =? 92 then Some backslash
   else if esc =? 47 then Some 47
   else if esc =? 98 then Some 8
   else if esc =? 102 then Some 12
   else if esc =? 110 then Some newline
   else if esc =? 114 then Some carriage_return
   else if esc =? 116 then Some 9
   else None)%N.

Definition hex_value (c : N) : option N :=
  (if (48 <=? c) && (c <=? 57) then Some (c - 48)
   else if (97 <=? c) && (c <=? 102) then Some (c - 87)
   else if (65 <=? c) && (c <=? 70) then Some (c - 55)
   else None)%N.

(** Four hexadecimal digits: [c <<= 4; c |= digit] for each. *)
Definition decode_uXXXX (h1 h2 h3 h4 : N) : option N :=
  a ← hex_value h1; b ← hex_value h2; c ← hex_value h3; d ← hex_value h4;
  Some (N.lor (N.shiftl (N.lor (N.shiftl (N.lor (N.shiftl a 4) b) 4) c) 4) d).

Definition is_high_surrogate (c : N) : bool := ((55296 <=? c) && (c <=? 56319))%N.
Definition is_low_surrogate (c : N) : bool := ((56320 <=? c) && (c <=? 57343))%N.

(** [Py_UNICODE_JOIN_SURROGATES] *)
Definition join_surrogates (high low : N) : N :=
  (65536 + N.lor (N.shiftl (N.land high 1023) 10) (N.land low 1023))%N.

Definition scan_cons (c : N) (r : scan str) : scan str :=
  scan_map (String c) r.

(** [scanstring], started after the opening quote; [begin] counts the
    characters from the opening quote on.  A high surrogate is joined with
    the low surrogate of a [\u] escape that follows it at once. *)
Fixpoint scanstring (begin : nat) (s : str) : scan str :=
  match s with
  | EmptyString => Failed "Unterminated string starting at" begin
  | String c rest =>
      if (c =? quote)%N then Scanned EmptyString rest
      else if (c =? backslash)%N then
        match rest with
        | EmptyString => Failed "Unterminated string starting at" begin
        | String esc rest' =>
            if (esc =? ord "u")%N then
              match rest' with
              | String h1 (String h2 (String h3 (String h4 (String _ _ as after)))) =>
                  match decode_uXXXX h1 h2 h3 h4 with
                  | Some uni =>
                      match after with
                      | String b (String u (String k1 (String k2 (String k3 (String k4
                          (String _ _ as after2)))))) =>
                          if is_high_surrogate uni && (b =? backslash)%N
                             && (u =? ord "u")%N then
                            match decode_uXXXX k1 k2 k3 k4 with
                            | Some uni2 =>
                                if is_low_surrogate uni2
                                then scan_cons (join_surrogates uni uni2)
                                               (scanstring begin after2)
                                else scan_cons uni (scanstring begin after)
                            | None => Failed "Invalid \uXXXX escape" (len after - 1)
                            end
                          else scan_cons uni (scanstring begin after)
                      | _ => scan_cons uni (scanstring begin after)
                      end
                  | None => Failed "Invalid \uXXXX escape" (len rest)
                  end
              | _ => Failed "Invalid \uXXXX escape" (len rest)
              end
            else
              match unescape esc with
              | Some char => scan_cons char (scanstring begin rest')
              | None => Failed "Invalid \escape" (len s)
              end
        end
      else if (c <=? 31)%N then Failed "Invalid control character at" (len s)
      else scan_cons c (scanstring begin rest)
  end.

(** [_match_number]: the text of the number and what follows it. *)
Definition is_digit (c : N) : bool := ((48 <=? c) && (c <=? 57))%N.

Fixpoint span_digits (s : str) : str * str :=
  match s with
  | String c s' =>
      if is_digit c then let '(digits, rest) := span_digits s' in (String c digits, rest)
      else (EmptyString, s)
  | EmptyString => (EmptyString, EmptyString)
  end.

Definition match_integer (s : str) : option (str * str) :=
  match s with
  | String c s' =>
      if ((49 <=? c) && (c <=? 57))%N
      then let '(digits, rest) := span_digits s' in Some (String c digits, rest)
      else if (c =? 48)%N then Some ("0", s')
      else None
  | EmptyString => None
  end.

(** A [.] followed by digits, when there is at least one. *)
Definition match_fraction (s : str) : str * str :=
  match s with
  | String c (String d _ as s') =>
      if (c =? ord ".")%N && is_digit d
      then let '(digits, rest) := span_digits s' in (String c digits, rest)
      else (EmptyString, s)
  | _ => (EmptyString, s)
  end.

(** [e] or [E], a sign if there is one, and digits, when there is at least
    one; the scanner backtracks otherwise. *)
Definition match_exponent (s : str) : str * str :=
  match s with
  | String e s1 =>
      if ((e =? ord "e") || (e =? ord "E"))%N then
        let '(sign, s2) :=
          match s1 with
          | String sg (String _ _ as s2) =>
              if ((sg =? ord "-") || (sg =? ord "+"))%N
              then (String sg EmptyString, s2) else (EmptyString, s1)
          | _ => (EmptyString, s1)
          end in
        match span_digits s2 with
        | (String d digits, rest) => (String e (sign +:+ String d digits), rest)
        | (EmptyString, _) => (EmptyString, s)
        end
      else (EmptyString, s)
  | EmptyString => (EmptyString, s)
  end.

(** [int(digits)] *)
Fixpoint int_of_digits (digits : str) (acc : Z) : Z :=
  match digits with
  | String c digits' => int_of_digits digits' (10 * acc + Z.of_N (c - 48))%Z
  | EmptyString => acc
  end.

Definition match_number (s : str) : option (json * str) :=
  let '(sign, body) :=
    match s with
    | String c s' => if (c =? ord "-")%N then (true, s') else (false, s)
    | EmptyString => (false, s)
    end in
  '(integer, s1) ← match_integer body;
  let '(frac, s2) := match_fraction s1 in
  let '(exp, s3) := match_exponent s2 in
  match frac, exp with
  | EmptyString, EmptyString =>
      let n := int_of_digits integer 0 in
      Some (JInt (if sign then (- n)%Z else n), s3)
  | _, _ =>
      Some (JFloat ((if sign then "-" else EmptyString) +:+ integer +:+ frac +:+ exp), s3)
  end.

(** [s[idx:idx + len(word)] == word]: the text after the word. *)
Fixpoint after_word (word s : str) : option str :=
  match word, s with
  | EmptyString, _ => Some s
  | String a word', String b s' =>
      if (a =? b)%N then after_word word' s' else None
  | String _ _, EmptyString => None
  end.

(** [scan_once], and the loops of [JSONObject] and [JSONArray] over the
    members and the items.  [depth] bounds the nesting of the calls. *)
Fixpoint scan_once (depth : nat) (s : str) : scan json :=
  match depth with
  | O => TooDeep
  | S depth' =>
      match s with
      | EmptyString => Failed "Expecting value" 0
      | String c rest =>
          if (c =? quote)%N then scan_map JString (scanstring (len s) rest)
          else if (c =? ord "{")%N then
            match skip_whitespace rest with
            | String c' rest' as s' =>
                if (c' =? ord "}")%N then Scanned (JObject []) rest'
                else parse_members depth' s' []
            | EmptyString => parse_members depth' EmptyString []
            end
          else if (c =? ord "[")%N then
            match skip_whitespace rest with
            | String c' rest' as s' =>
                if (c' =? ord "]")%N then Scanned (JArray []) rest'
                else parse_items depth' s' []
            | EmptyString => parse_items depth' EmptyString []
            end
          else
            match after_word "null" s, after_word "true" s, after_word "false" s,
                  after_word "NaN" s, after_word "Infinity" s,
                  after_word "-Infinity" s with
            | Some rest', _, _, _, _, _ => Scanned JNull rest'
            | _, Some rest', _, _, _, _ => Scanned (JBool true) rest'
            | _, _, Some rest', _, _, _ => Scanned (JBool false) rest'
            | _, _, _, Some rest', _, _ => Scanned (JFloat "NaN") rest'
            | _, _, _, _, Some rest', _ => Scanned (JFloat "Infinity") rest'
            | _, _, _, _, _, Some rest' => Scanned (JFloat "-Infinity") rest'
            | _, _, _, _, _, _ =>
                match match_number s with
                | Some (value, rest') => Scanned value rest'
                | None => Failed "Expecting value" (len s)
                end
            end
      end
  end
with parse_members (depth : nat) (s : str) (pairs : list (str * json)) : scan json :=
  match depth with
  | O => TooDeep
  | S depth' =>
      match s with
      | EmptyString =>
          Failed "Expecting property name enclosed in double quotes" 0
      | String c rest =>
          if (c =? quote)%N then
            match scanstring (len s) rest with
            | Scanned key s1 =>
                match skip_whitespace s1 with
                | EmptyString => Failed "Expecting ':' delimiter" 0
                | String c2 s3 as s2 =>
                    if (c2 =? ord ":")%N then
                      match scan_once depth' (skip_whitespace s3) with
                      | Scanned value s5 =>
                          match skip_whitespace s5 with
                          | EmptyString => Failed "Expecting ',' delimiter" 0
                          | String c6 s7 as s6 =>
                              if (c6 =? ord "}")%N
                              then Scanned (JObject (pairs ++ [(key, value)])) s7
                              else if (c6 =? ord ",")%N
                              then parse_members depth' (skip_whitespace s7)
                                                 (pairs ++ [(key, value)])
                              else Failed "Expecting ',' delimiter" (len s6)
                          end
                      | Failed msg remaining => Failed msg remaining
                      | TooDeep => TooDeep
                      end
                    else Failed "Expecting ':' delimiter" (len s2)
                end
            | Failed msg remaining => Failed msg remaining
            | TooDeep => TooDeep
            end
          else Failed "Expecting property name enclosed in double quotes" (len s)
      end
  end
with parse_items (depth : nat) (s : str) (items : list json) : scan json :=
  match depth with
  | O => TooDeep
  | S depth' =>
      match scan_once depth' s with
      | Scanned value s1 =>
          match skip_whitespace s1 with
          | EmptyString => Failed "Expecting ',' delimiter" 0
          | String c2 s3 as s2 =>
              if (c2 =? ord "]")%N then Scanned (JArray (items ++ [value])) s3
              else if (c2 =? ord ",")%N
              then parse_items depth' (skip_whitespace s3) (items ++ [value])
              else Failed "Expecting ',' delimiter" (len s2)
          end
      | Failed msg remaining => Failed msg remaining
      | TooDeep => TooDeep
      end
  end.

Definition decode_error {A} (msg doc : str) (pos : nat) : exc A :=
  Raise (Exn JSONDecodeError (errmsg msg doc pos)).

(** [json.loads(s)]: the check for a byte order mark, [decode] and
    [raw_decode]. *)
Definition json_loads (s : str) : exc json :=
  match s with
  | String 65279 _ =>
      decode_error "Unexpected UTF-8 BOM (decode using utf-8-sig)" s 0
  | _ =>
      match scan_once (2 + 2 * len s) (skip_whitespace s) with
      | Scanned obj rest =>
          match skip_whitespace rest with
          | EmptyString => Ok obj
          | String _ _ as extra => decode_error "Extra data" s (len s - len extra)
          end
      | Failed msg remaining => decode_error msg s (len s - remaining)
      | TooDeep =>
          Raise (Exn RecursionError
                   "maximum recursion depth exceeded while decoding a JSON object from a unicode string")
      end
  end.

(** *** Python's operations on the decoded values *)

Definition type_name (v : json) : str :=
  match v with
  | JNull => "NoneType" | JBool _ => "bool" | JInt _ => "int"
  | JFloat _ => "float" | JString _ => "str" | JArray _ => "list"
  | JObject _ => "dict"
  end.

(** [d.get(key)] on the members of an object: the last one counts. *)
Fixpoint dict_get (members : list (str * json)) (key : str) : option json :=
  match members with
  | [] => None
  | (k, v) :: rest =>
      match dict_get rest key with
      | Some v' => Some v'
      | None => if decide (k = key) then Some v else None
      end
  end.

(** [v[key]] for a string key.  (The text of the [TypeError] for a string
    differs between versions of CPython.) *)
Definition subscript (v : json) (key : str) : exc json :=
  match v with
  | JObject members =>
      match dict_get members key with
      | Some item => Ok item
      | None => Raise (Exn KeyError ("'" +:+ key +:+ "'"))
      end
  | JArray _ =>
      Raise (Exn TypeError "list indices must be integers or slices, not str")
  | JString _ =>
      Raise (Exn TypeError "string indices must be integers, not 'str'")
  | _ =>
      Raise (Exn TypeError ("'" +:+ type_name v +:+ "' object is not subscriptable"))
  end.

(** [v == s] for a string [s] *)
Definition equals_str (v : json) (s : str) : bool :=
  match v with
  | JString s' => bool_decide (s' = s)
  | _ => false
  end.

(** [s.startswith(prefix)] and [needle in haystack] *)
Fixpoint starts_with (prefix s : str) : bool :=
  match prefix, s with
  | EmptyString, _ => true
  | String a prefix', String b s' => (a =? b)%N && starts_with prefix' s'
  | String _ _, EmptyString => false
  end.

Fixpoint is_substring (needle haystack : str) : bool :=
  starts_with needle haystack ||
  match haystack with
  | String _ haystack' => is_substring needle haystack'
  | EmptyString => false
  end.

(** [key in v] for a string key *)
Definition contains (v : json) (key : str) : exc bool :=
  match v with
  | JObject members => Ok (bool_decide (is_Some (dict_get members key)))
  | JArray items => Ok (existsb (fun item => equals_str item key) items)
  | JString s => Ok (is_substring key s)
  | _ =>
      Raise (Exn TypeError ("argument of type '" +:+ type_name v +:+ "' is not iterable"))
  end.

(** [float(literal) == 0.0]: the digits are all zero, or the value is at
    most [2 ** -1075] and rounds to zero. *)
Fixpoint all_zero (digits : str) : bool :=
  match digits with
  | String c digits' => (c =? 48)%N && all_zero digits'
  | EmptyString => true
  end.

Definition float_is_zero (literal : str) : bool :=
  let unsigned :=
    match literal with
    | String c s' => if (c =? ord "-")%N then s' else literal
    | EmptyString => literal
    end in
  let '(integer, s1) := span_digits unsigned in
  let '(frac, s2) :=
    match s1 with
    | String c s' => if (c =? ord ".")%N then span_digits s' else (EmptyString, s1)
    | EmptyString => (EmptyString, s1)
    end in
  match integer with
  | EmptyString => false   (* NaN, Infinity *)
  | String _ _ =>
      let exponent :=
        match s2 with
        | String _ (String sg digits as s') =>
            if (sg =? ord "-")%N then (- int_of_digits digits 0)%Z
            else if (sg =? ord "+")%N then int_of_digits digits 0
            else int_of_digits s' 0
        | String _ s' => int_of_digits s' 0
        | EmptyString => 0%Z
        end in
      let mantissa := int_of_digits (integer +:+ frac) 0 in
      let scale := (exponent - Z.of_nat (len frac))%Z in
      all_zero (integer +:+ frac)
      || ((scale <? 0)%Z && (mantissa * 2 ^ 1075 <=? 10 ^ (- scale))%Z)
  end.

(** [bool(v)] *)
Definition truthy (v : json) : bool :=
  match v with
  | JNull => false
  | JBool b => b
  | JInt n => negb (n =? 0)%Z
  | JFloat literal => negb (float_is_zero literal)
  | JString s => negb (bool_decide (s = EmptyString))
  | JArray items => negb (bool_decide (items = []))
  | JObject members => negb (bool_decide (members = []))
  end.

(** [f"{v}"]: a string as it is, [None], a [bool] and an [int] by their
    names and digits, and any other value as [repr] gives it. *)
Definition format_value (repr : json → str) (v : json) : str :=
  match v with
  | JString s => s
  | JNull => "None"
  | JBool true => "True"
  | JBool false => "False"
  | JInt n => (if (n <? 0)%Z then "-" else EmptyString) +:+ decimal (Z.abs_N n)
  | _ => repr v
  end.

(** The members that [json.loads] returns for the dictionary. *)
Definition members_of (items : list (str * str)) : list (str * json) :=
  prod_map id JString <$> items.

(** ** [write_fables], the jsonl format *)

Definition fields : list str := ["model"; "prompt"; "fable"].

(** [fable[field]] *)
Definition dict_item (d : gmap str str) (key : str) : exc str :=
  match d !! key with
  | Some v => Ok v
  | None => Raise (Exn KeyError ("'" +:+ key +:+ "'"))
  end.

(** [{field: fable[field] for field in fields}] *)
Fixpoint project (d : gmap str str) (keys : list str)
    : exc (list (str * str)) :=
  match keys with
  | [] => Ok []
  | field :: keys' =>
      v ← dict_item d field;
      rest ← project d keys';
      Ok ((field, v) :: rest)
  end.

(** The [jsonl] branch of [write_fables]: the text written to [sys.stdout]
    and how the call ends. *)
Fixpoint write_fables_jsonl (fables : list (gmap str str))
    : str * exc unit :=
  match fables with
  | [] => (EmptyString, Ok tt)
  | fable :: rest =>
      match project fable fields with
      | Ok output =>
          let '(written, r) := write_fables_jsonl rest in
          (json_dumps output +:+ String newline written, r)
      | Raise e => (EmptyString, Raise e)
      end
  end.

(** A fable record binds the three fields. *)
Definition has_fields (fable : gmap str str) : Prop :=
  ∀ field, field ∈ fields → is_Some (fable !! field).

(** The object that is read back for a fable: the three fields, bound as
    in [fable]. *)
Definition fable_object (fable : gmap str str) : json :=
  JObject (omap (fun field => (fun v => (field, JString v)) <$> fable !! field)
                fields).

(** No high surrogate is followed at once by a low surrogate. *)
Fixpoint no_surrogate_pair (s : str) : bool :=
  match s with
  | String c (String c' _ as s') =>
      negb (is_high_surrogate c && is_low_surrogate c') && no_surrogate_pair s'
  | _ => true
  end.

(** The strings that [json] writes and reads back unchanged. *)
Definition round_trips (s : str) : bool := is_str s && no_surrogate_pair s.

(** The keys and the values of the items are such strings. *)
Definition items_round_trip (items : list (str * str)) : Prop :=
  Forall (fun kv => round_trips kv.1 = true ∧ round_trips kv.2 = true) items.

(** The three fields of the record are bound to such strings. *)
Definition values_round_trip (fable : gmap str str) : Prop :=
  ∀ field text, field ∈ fields → fable !! field = Some text →
                round_trips text = true.

(** The characters that [json.dump] writes: printable ASCII. *)
Definition printable_char (c : N) : bool := ((32 <=? c) && (c <=? 126))%N.

Fixpoint printable (s : str) : bool :=
  match s with
  | String c s' => printable_char c && printable s'
  | EmptyString => true
  end.

(** ** [write_output], the jsonl format *)

(** [json.dumps([{'prompt_type': 'system_prompt', 'content': system_prompt},
                 {'prompt_type': 'generator_prompt', 'content': template}])] *)
Definition prompt_pair (system_prompt template : str) : str :=
  "[" +:+ json_dumps [("prompt_type", "system_prompt"); ("content", system_prompt)]
  +:+ ", "
  +:+ json_dumps [("prompt_type", "generator_prompt"); ("content", template)]
  +:+ "]".

(** The text written to [sys.stdout]. *)
Fixpoint write_output_jsonl (system_prompt : str) (fable_templates : list str)
    : str :=
  match fable_templates with
  | [] => EmptyString
  | template :: rest =>
      prompt_pair system_prompt template
      +:+ String newline (write_output_jsonl system_prompt rest)
  end.

(** ** [read_prompts] *)

(** Text mode with universal newlines: [\r\n] and [\r] are read as [\n]. *)
Fixpoint translate_newlines (s : str) : str :=
  match s with
  | EmptyString => EmptyString
  | String c rest =>
      if (c =? carriage_return)%N then
        match rest with
        | String c' rest' =>
            if (c' =? newline)%N
            then String newline (translate_newlines rest')
            else String newline (translate_newlines rest)
        | EmptyString => String newline EmptyString
        end
      else String c (translate_newlines rest)
  end.

(** [for line in f]: the lines of the text, each with its newline. *)
Fixpoint readlines (s : str) : list str :=
  match s with
  | EmptyString => []
  | String c rest =>
      if (c =? newline)%N then String c EmptyString :: readlines rest
      else match readlines rest with
           | [] => [String c EmptyString]
           | line :: lines => String c line :: lines
           end
  end.

(** What [open(filename, 'r')] and the iteration over the file give: the
    decoded text of a file that is read to its end; or the lines read
    before a read raises (an [OSError], a [UnicodeDecodeError]). *)
Inductive File :=
  | Text (contents : str)
  | Broken (lines : list str) (failure : exn).

(** [open] raises ([FileNotFoundError], or another [OSError]) or returns
    the file. *)
Definition FileSystem : Type := str → exc File.

Definition file_lines (f : File) : list str * option exn :=
  match f with
  | Text contents => (readlines (translate_newlines contents), None)
  | Broken lines failure => (lines, Some failure)
  end.

(** [if line.strip(): data = json.loads(line); yield data] for each line. *)
Fixpoint load_lines (lines : list str) (failure : option exn) : exc (list json) :=
  match lines with
  | [] => match failure with
          | None => Ok []
          | Some e => Raise e
          end
  | line :: lines' =>
      match strip line with
      | EmptyString => load_lines lines' failure
      | String _ _ =>
          data ← json_loads line;
          rest ← load_lines lines' failure;
          Ok (data :: rest)
      end
  end.

Definition raise {A} (e : exn) : Py A := lift (Raise e).

(** The two [except] clauses; any other exception propagates. *)
Definition read_prompts_except {A} (filename : str) (e : exn) : Py A :=
  match exn_cls e with
  | FileNotFoundError =>
      _ ← logger_error ("Prompt file '" +:+ filename +:+ "' not found");
      raise (Exn ConfigError ("Prompt file '" +:+ filename +:+ "' not found"))
  | JSONDecodeError =>
      _ ← logger_error ("Error parsing JSONL file: " +:+ exn_str e);
      raise (Exn ConfigError ("Invalid JSONL format: " +:+ exn_str e))
  | _ => raise e
  end.

(** [list(read_prompts(filename))]: the generator is run to its end. *)
Definition read_prompts (files : FileSystem) (filename : str) : Py (list json) :=
  match files filename with
  | Raise e => read_prompts_except filename e
  | Ok f =>
      let '(lines, failure) := file_lines f in
      match load_lines lines failure with
      | Ok data => mret data
      | Raise e => read_prompts_except filename e
      end
  end.

(** ** The [--generate-fables] branch of [main], up to the first thread *)

(** A value under [llms.hf-models] of the settings: a mapping to strings,
    or something else (null, a scalar, a sequence), for which
    [model_config[key]] raises the [TypeError] of its type. *)
Inductive ModelConfig :=
  | Mapping (entries : gmap str str)
  | NotMapping (type_error : str).

(** [settings.get('llms', {}).get('hf-models', {})]: the configured models
    in the order of the file. *)
Definition AvailableModels : Type := list (str * ModelConfig).

(** [model_config[key]] *)
Definition config_item (model_config : ModelConfig) (key : str) : exc str :=
  match model_config with
  | Mapping entries => dict_item entries key
  | NotMapping type_error => Raise (Exn TypeError type_error)
  end.

Fixpoint lookup_model (available_models : AvailableModels) (model_name : str)
    : option ModelConfig :=
  match available_models with
  | [] => None
  | (key, model_config) :: rest =>
      if decide (key = model_name) then Some model_config
      else lookup_model rest model_name
  end.

Record Args := {
  args_generate_fables : str;       (* --generate-fables <path> *)
  args_models : option (list str)   (* --models <name>... *)
}.

(** [', '.join(names)] *)
Fixpoint comma_join (names : list str) : str :=
  match names with
  | [] => EmptyString
  | [name] => name
  | name :: rest => name +:+ ", " +:+ comma_join rest
  end.

(** [next((p['content'] for p in prompts if p['prompt_type'] == 'system_prompt'), None)] *)
Fixpoint first_system_prompt (prompts : list json) : exc (option json) :=
  match prompts with
  | [] => Ok None
  | p :: rest =>
      prompt_type ← subscript p "prompt_type";
      if equals_str prompt_type "system_prompt" then
        content ← subscript p "content"; Ok (Some content)
      else first_system_prompt rest
  end.

(** [[p['content'] for p in prompts if p['prompt_type'] == 'generator_prompt']] *)
Fixpoint generator_prompts (prompts : list json) : exc (list json) :=
  match prompts with
  | [] => Ok []
  | p :: rest =>
      prompt_type ← subscript p "prompt_type";
      if equals_str prompt_type "generator_prompt" then
        content ← subscript p "content";
        more ← generator_prompts rest;
        Ok (content :: more)
      else generator_prompts rest
  end.

(** What the branch has computed when it reaches [all_fables = []]. *)
Record Prepared := {
  prepared_system_prompt : json;
  prepared_models : list str;
  prepared_prompts : list json
}.

(** [args.models if args.models else list(available_models.keys())] *)
Definition select_models (available_models : AvailableModels) (args : Args)
    : list str :=
  match args_models args with
  | Some (m :: ms) => m :: ms
  | _ => available_models.*1
  end.

(** [[m for m in models_to_use if m not in available_models]] *)
Definition invalid_models (available_models : AvailableModels)
    (models_to_use : list str) : list str :=
  filter (fun m => lookup_model available_models m = None) models_to_use.

(** The validation of the models, then of the prompt file. *)
Definition prepare (files : FileSystem)
    (available_models : AvailableModels) (args : Args) : Py Prepared :=
  match available_models with
  | [] => raise (Exn ConfigError "No models found in configuration")
  | _ :: _ =>
      let models_to_use := select_models available_models args in
      match invalid_models available_models models_to_use with
      | _ :: _ =>
          raise (Exn ConfigError
                   ("Invalid models: " +:+
                    comma_join (invalid_models available_models models_to_use)))
      | [] =>
          prompts ← read_prompts files (args_generate_fables args);
          system_prompt ← lift (first_system_prompt prompts);
          fable_prompts ← lift (generator_prompts prompts);
          match system_prompt with
          | Some content =>
              if truthy content then
                mret {| prepared_system_prompt := content;
                        prepared_models := models_to_use;
                        prepared_prompts := fable_prompts |}
              else raise (Exn ConfigError "No system prompt found in prompt file.")
          | None =>
              raise (Exn ConfigError "No system prompt found in prompt file.")
          end
      end
  end.

(** The handlers at the end of [main]: the record logged before
    [sys.exit(1)]. *)
Definition exit_record (e : exn) : LogRecord :=
  match exn_cls e with
  | ConfigError =>   (* except TinyFabulistError *)
      (ERROR, "Configuration error: " +:+ exn_str e)
  | _ =>             (* except Exception *)
      (ERROR, "Unexpected error: " +:+ exn_str e)
  end.

(** [main] from the validation to the point where it either leaves with
    [sys.exit(1)] or starts to dispatch. *)
Definition main_prologue (files : FileSystem)
    (available_models : AvailableModels) (args : Args)
    : list LogRecord * (Z + Prepared) :=
  match prepare files available_models args with
  | (records, Ok p) => (records, inr p)
  | (records, Raise e) => (records ++ [exit_record e], inl 1%Z)
  end.

(** A record of the prompt file as [main] reads it: an object with a
    [prompt_type], and with a [content] when it is a generator prompt. *)
Definition prompt_record (p : json) : Prop :=
  ∃ members prompt_type,
    p = JObject members ∧
    dict_get members "prompt_type" = Some prompt_type ∧
    (equals_str prompt_type "generator_prompt" = true →
     is_Some (dict_get members "content")).

(** The record is a dictionary. *)
Definition is_object (v : json) : bool :=
  match v with
  | JObject _ => true
  | _ => false
  end.

(** The record is a system prompt. *)
Definition system_record (p : json) : Prop :=
  ∃ prompt_type,
    subscript p "prompt_type" = Ok prompt_type ∧
    equals_str prompt_type "system_prompt" = true.

(** The first system prompt of the file. *)
Definition first_system_record (prompts : list json) (p : json) : Prop :=
  ∃ before after,
    prompts = before ++ p :: after ∧ system_record p ∧
    Forall (fun q => ∃ prompt_type,
                       subscript q "prompt_type" = Ok prompt_type ∧
                       equals_str prompt_type "system_prompt" = false) before.

(** The contents of the generator prompts, in the order of the file. *)
Definition generator_contents (prompts : list json) : list json :=
  omap (fun p =>
          match subscript p "prompt_type", subscript p "content" with
          | Ok prompt_type, Ok content =>
              if equals_str prompt_type "generator_prompt" then Some content else None
          | _, _ => None
          end) prompts.

(** ** The worker threads *)

(** The prompts as the dispatcher passes them on.  The threads are
    modelled for prompts that are strings. *)
Record Dispatch := {
  system_prompt : str;
  models_to_use : list str;
  fable_prompts : list str
}.

Definition text_of (v : json) : option str :=
  match v with
  | JString s => Some s
  | _ => None
  end.

Definition dispatch_of (p : Prepared) : option Dispatch :=
  sp ← text_of (prepared_system_prompt p);
  fps ← mapM text_of (prepared_prompts p);
  Some {| system_prompt := sp;
          models_to_use := prepared_models p;
          fable_prompts := fps |}.

(** The arguments of one [generate_fable_threaded] call. *)
Record Job := {
  job_model_name : str;
  job_model_config : ModelConfig;
  job_prompt : str;
  job_system_prompt : str
}.

(** Where a worker stands in [generate_fable_threaded]. *)
Inductive WorkerPC :=
  | Generate                   (* fable = generate_fable(...) *)
  | Acquire (fable : str)   (* with lock: -- waiting for the lock *)
  | Append (fable : str)    (* all_fables.append({...}) -- lock held *)
  | Release                    (* leaving the with block *)
  | LogInfo                    (* logger.info(...) *)
  | Handle (e : exn)           (* except Exception as e: logger.error(...) *)
  | Finished.

Record Worker := { job : Job; pc : WorkerPC }.

(** Where the main thread stands between [all_fables = []] and
    [write_fables(all_fables, args.output)]. *)
Inductive MainPC :=
  | ForModel (models_left : list str)
  | ForPrompt (model_name : str) (model_config : ModelConfig)
              (prompts_left : list str) (models_left : list str)
  | Join (k : nat)             (* for thread in threads: thread.join() *)
  | Joined                     (* about to call write_fables *)
  | Crashed (e : exn).         (* an exception left the loops *)

(** What the threads share. *)
Record Shared := {
  all_fables : list (gmap str str);
  lock : option nat;                     (* the index of the holder *)
  log : list LogRecord
}.

Record Machine := {
  main_pc : MainPC;
  threads : list Worker;                 (* in the order of thread.start() *)
  shared : Shared
}.

Definition fable_record (model prompt fable : str) : gmap str str :=
  <["model" := model]> (<["prompt" := prompt]> (<["fable" := fable]> ∅)).

(** [prompt[:50]] *)
Fixpoint prefix (n : nat) (s : str) : str :=
  match n, s with
  | S n', String c s' => String c (prefix n' s')
  | _, _ => EmptyString
  end.

Definition prefix50 (prompt : str) : str := prefix 50 prompt.

Definition logged (records : list LogRecord) (sh : Shared) : Shared :=
  {| all_fables := all_fables sh; lock := lock sh; log := log sh ++ records |}.

(** One step of [generate_fable_threaded] in the worker with index [i]. *)
Inductive worker_step (i : nat) (j : Job) :
    WorkerPC → Shared → WorkerPC → Shared → Prop :=
  | step_generate w base_url records fable sh :
      config_item (job_model_config j) "base_url" = Ok base_url →
      generate_fable w (job_system_prompt j) (job_prompt j) base_url
        = (records, Ok fable) →
      worker_step i j Generate sh (Acquire fable) (logged records sh)
  | step_generate_raises w base_url records e sh :
      config_item (job_model_config j) "base_url" = Ok base_url →
      generate_fable w (job_system_prompt j) (job_prompt j) base_url
        = (records, Raise e) →
      worker_step i j Generate sh (Handle e) (logged records sh)
  | step_no_base_url e sh :
      config_item (job_model_config j) "base_url" = Raise e →
      worker_step i j Generate sh (Handle e) sh
  | step_acquire fable sh :
      lock sh = None →
      worker_step i j (Acquire fable) sh (Append fable)
        {| all_fables := all_fables sh; lock := Some i; log := log sh |}
  | step_append fable name sh :
      config_item (job_model_config j) "name" = Ok name →
      worker_step i j (Append fable) sh Release
        {| all_fables := all_fables sh ++ [fable_record name (job_prompt j) fable];
           lock := lock sh; log := log sh |}
  | step_no_name fable e sh :
      config_item (job_model_config j) "name" = Raise e →
      worker_step i j (Append fable) sh (Handle e)
        {| all_fables := all_fables sh; lock := None; log := log sh |}
  | step_release sh :
      worker_step i j Release sh LogInfo
        {| all_fables := all_fables sh; lock := None; log := log sh |}
  | step_log_info sh :
      worker_step i j LogInfo sh Finished
        (logged [(INFO, "Generated fable for prompt: "
                          +:+ prefix50 (job_prompt j) +:+ "... using model "
                          +:+ job_model_name j)] sh)
  | step_handle e sh :
      worker_step i j (Handle e) sh Finished
        (logged [(ERROR, "Error generating fable in thread: " +:+ exn_str e)] sh).

Section Dispatcher.
Variable available_models : AvailableModels.
Variable d : Dispatch.

Definition new_job (model_name : str) (model_config : ModelConfig)
    (prompt : str) : Job :=
  {| job_model_name := model_name; job_model_config := model_config;
     job_prompt := prompt; job_system_prompt := system_prompt d |}.

(** One step of the whole process: the main thread or one worker moves. *)
Inductive step : Machine → Machine → Prop :=
  | main_next_model s model_name models_left model_config name :
      main_pc s = ForModel (model_name :: models_left) →
      lookup_model available_models model_name = Some model_config →
      config_item model_config "name" = Ok name →
      step s {| main_pc := ForPrompt model_name model_config
                             (fable_prompts d) models_left;
                threads := threads s;
                shared := logged [(INFO, "Generating fables using model: "
                                           +:+ name)] (shared s) |}
  | main_no_model s model_name models_left :
      main_pc s = ForModel (model_name :: models_left) →
      lookup_model available_models model_name = None →
      step s {| main_pc := Crashed (Exn KeyError ("'" +:+ model_name +:+ "'"));
                threads := threads s; shared := shared s |}
  | main_no_name s model_name models_left model_config e :
      main_pc s = ForModel (model_name :: models_left) →
      lookup_model available_models model_name = Some model_config →
      config_item model_config "name" = Raise e →
      step s {| main_pc := Crashed e;
                threads := threads s; shared := shared s |}
  | main_start_thread s model_name model_config prompt prompts_left models_left :
      main_pc s = ForPrompt model_name model_config
                    (prompt :: prompts_left) models_left →
      step s {| main_pc := ForPrompt model_name model_config
                             prompts_left models_left;
                threads := threads s ++
                  [ {| job := new_job model_name model_config prompt;
                       pc := Generate |} ];
                shared := shared s |}
  | main_model_done s model_name model_config models_left :
      main_pc s = ForPrompt model_name model_config [] models_left →
      step s {| main_pc := ForModel models_left;
                threads := threads s; shared := shared s |}
  | main_all_started s :
      main_pc s = ForModel [] →
      step s {| main_pc := Join 0; threads := threads s; shared := shared s |}
  | main_join s k wk :
      main_pc s = Join k →
      threads s !! k = Some wk → pc wk = Finished →
      step s {| main_pc := Join (S k); threads := threads s;
                shared := shared s |}
  | main_joined s k :
      main_pc s = Join k →
      threads s !! k = None →
      step s {| main_pc := Joined; threads := threads s; shared := shared s |}
  | worker_moves s before j pc1 pc2 after sh :
      threads s = before ++ {| job := j; pc := pc1 |} :: after →
      worker_step (length before) j pc1 (shared s) pc2 sh →
      step s {| main_pc := main_pc s;
                threads := before ++ {| job := j; pc := pc2 |} :: after;
                shared := sh |}.

(** The state reached at [lock = threading.Lock()]. *)
Definition initial : Machine :=
  {| main_pc := ForModel (models_to_use d); threads := [];
     shared := {| all_fables := []; lock := None; log := [] |} |}.

Definition reachable (s : Machine) : Prop := rtc step initial s.

(** A model configuration with the fields the code reads. *)
Definition well_formed (model_config : ModelConfig) : Prop :=
  (∃ name, config_item model_config "name" = Ok name) ∧
  (∃ base_url, config_item model_config "base_url" = Ok base_url).

(** Every model to use is configured and its configuration is well formed. *)
Definition configured (models : list str) : Prop :=
  ∀ model_name, model_name ∈ models →
    ∃ model_config,
      lookup_model available_models model_name = Some model_config ∧
      well_formed model_config.

(** The jobs for [models], one per prompt, in the order of their start. *)
Fixpoint jobs_for (models : list str) : list Job :=
  match models with
  | [] => []
  | model_name :: rest =>
      match lookup_model available_models model_name with
      | Some model_config =>
          (new_job model_name model_config <$> fable_prompts d) ++ jobs_for rest
      | None => jobs_for rest
      end
  end.

(** The workers of the model can read [model_config['base_url']]. *)
Definition served (model_name : str) : bool :=
  match lookup_model available_models model_name with
  | Some model_config =>
      match config_item model_config "base_url" with
      | Ok _ => true
      | Raise _ => false
      end
  | None => false
  end.

(** The (model, prompt) entry of a fable record, and the one a job is
    to produce. *)
Definition record_key (record : gmap str str)
    : option str * option str :=
  (record !! "model", record !! "prompt").

(** [model_config.get(key)] for a mapping *)
Definition config_get (model_config : ModelConfig) (key : str) : option str :=
  match config_item model_config key with
  | Ok v => Some v
  | Raise _ => None
  end.

Definition job_key (j : Job) : option str * option str :=
  (config_get (job_model_config j) "name", Some (job_prompt j)).

(** *** The state of the dispatcher *)

(** The jobs the main thread has still to start. *)
Definition pending (m : MainPC) : list Job :=
  match m with
  | ForModel models_left => jobs_for models_left
  | ForPrompt model_name model_config prompts_left models_left =>
      (new_job model_name model_config <$> prompts_left) ++ jobs_for models_left
  | _ => []
  end.

(** The worker has appended its record. *)
Definition appended (p : WorkerPC) : bool :=
  match p with
  | Release | LogInfo | Finished => true
  | _ => false
  end.

(** The worker is inside the [with lock:] block. *)
Definition holds (p : WorkerPC) : Prop :=
  match p with
  | Append _ | Release => True
  | _ => False
  end.

(** No worker is inside the [with lock:] block without holding the lock. *)
Definition mutex (s : Machine) : Prop :=
  ∀ i wk, threads s !! i = Some wk → holds (pc wk) → lock (shared s) = Some i.

(** *** A measure that every step decreases *)

Definition worker_measure (p : WorkerPC) : nat :=
  match p with
  | Generate => 5 | Acquire _ => 4 | Append _ => 3 | Release => 2
  | LogInfo => 1 | Handle _ => 1 | Finished => 0
  end.

Definition main_measure (m : MainPC) (started : nat) : nat :=
  let per_model := 2 + 7 * length (fable_prompts d) in
  match m with
  | ForModel models_left => length models_left * per_model + 2 + started
  | ForPrompt _ _ prompts_left models_left =>
      7 * length prompts_left + 1 + length models_left * per_model + 2 + started
  | Join k => (started - k) + 1
  | Joined | Crashed _ => 0
  end.

Definition measure (s : Machine) : nat :=
  main_measure (main_pc s) (length (threads s))
  + sum_list_with (fun wk => worker_measure (pc wk)) (threads s).
End Dispatcher.


(** * More of the module *)

(** ** Failures inside [evaluate_fable] *)

(** A failure raised inside the evaluation call: by the credential lookup,
    by [create], by a completion without choices, or by a first choice
    whose content is [None]. *)
Inductive evaluation_failure (w : World) (fable : str) : exn → Prop :=
  | judge_credential_failure e :
      decouple_config w "OPENAI_TOKEN" = Raise e →
      evaluation_failure w fable e
  | judge_create_failure api_key e :
      decouple_config w "OPENAI_TOKEN" = Ok api_key →
      create w (evaluation_request api_key fable) = Raise e →
      evaluation_failure w fable e
  | judge_no_choice api_key :
      decouple_config w "OPENAI_TOKEN" = Ok api_key →
      create w (evaluation_request api_key fable) = Ok {| choices := [] |} →
      evaluation_failure w fable (Exn IndexError "list index out of range")
  | judge_no_content api_key c rest :
      decouple_config w "OPENAI_TOKEN" = Ok api_key →
      create w (evaluation_request api_key fable) = Ok {| choices := c :: rest |} →
      message_content (message c) = None →
      evaluation_failure w fable
        (Exn AttributeError "'NoneType' object has no attribute 'strip'").

(** ** The rendering context *)

(** The context names the six features of the combination, and nothing
    else. *)
Definition binds (ctx : Context) (c : Combination) : Prop :=
  let '(char, trait, setting, conflict, resolution, moral) := c in
  ctx !! "character" = Some char ∧ ctx !! "trait" = Some trait ∧
  ctx !! "setting" = Some setting ∧ ctx !! "conflict" = Some conflict ∧
  ctx !! "resolution" = Some resolution ∧ ctx !! "moral" = Some moral ∧
  dom ctx = {[ "character"; "trait"; "setting"; "conflict"; "resolution"; "moral" ]}.

(** The lengths of the six feature lists. *)
Definition feature_lengths (fs : FeatureSet) : list nat :=
  [length (characters fs); length (traits fs); length (settings fs);
   length (conflicts fs); length (resolutions fs); length (morals fs)].

(** How the setup before the loop of [generate_prompts] fails: compiling
    the system template, compiling the fable template, or rendering the
    system prompt raises. *)
Inductive setup_failure (compile : Compiler) (config : Config) : exn → Prop :=
  | system_template_invalid e :
      compile (system (prompt (generator config))) = Raise e →
      setup_failure compile config e
  | fable_template_invalid system_template e :
      compile (system (prompt (generator config))) = Ok system_template →
      compile (fable (prompt (generator config))) = Raise e →
      setup_failure compile config e
  | system_prompt_fails system_template generator_template e :
      compile (system (prompt (generator config))) = Ok system_template →
      compile (fable (prompt (generator config))) = Ok generator_template →
      system_template ∅ = Raise e →
      setup_failure compile config e.

(** A template engine that rejects every source. *)
(** ** The dispatcher under any configuration *)

(** The worker can read [model_config['base_url']]. *)
Definition has_base_url (j : Job) : bool :=
  match config_item (job_model_config j) "base_url" with
  | Ok _ => true
  | Raise _ => false
  end.

(** The jobs whose record is in the shared list: those of the workers with
    a base URL that are past the [append]. *)
Fixpoint collected_jobs (workers : list Worker) : list Job :=
  match workers with
  | [] => []
  | wk :: rest =>
      if appended (pc wk) && has_base_url (job wk)
      then job wk :: collected_jobs rest
      else collected_jobs rest
  end.

Definition worker_sound (wk : Worker) : Prop :=
  (∃ name, config_item (job_model_config (job wk)) "name" = Ok name) ∧
  match config_item (job_model_config (job wk)) "base_url" with
  | Ok _ => ∀ e, pc wk ≠ Handle e
  | Raise e => pc wk = Generate ∨ pc wk = Handle e ∨ pc wk = Finished
  end.

(** The process has come to rest: the main thread is past the join, or
    has raised, and no worker is running. *)
Definition final (s : Machine) : Prop :=
  match main_pc s with
  | Joined | Crashed _ => ∀ wk, wk ∈ threads s → pc wk = Finished
  | _ => False
  end.

Section DispatcherAnyConfiguration.
Variable available_models : AvailableModels.
Variable d : Dispatch.

(** Why the main thread raises inside the loop over the models: a model
    to use has no configuration, or [model_config['name']] raises. *)
Definition crash_cause (e : exn) : Prop :=
  ∃ model_name, model_name ∈ models_to_use d ∧
    ((lookup_model available_models model_name = None ∧
      e = Exn KeyError ("'" +:+ model_name +:+ "'")) ∨
     (∃ model_config,
        lookup_model available_models model_name = Some model_config ∧
        config_item model_config "name" = Raise e)).

Definition main_sound (m : MainPC) (workers : list Worker) : Prop :=
  match m with
  | ForModel models_left => models_left `suffix_of` models_to_use d
  | ForPrompt _ model_config _ models_left =>
      (∃ name, config_item model_config "name" = Ok name) ∧
      models_left `suffix_of` models_to_use d
  | Join k => ∀ i wk, i < k → workers !! i = Some wk → pc wk = Finished
  | Joined => ∀ wk, wk ∈ workers → pc wk = Finished
  | Crashed e => crash_cause e
  end.

(** The invariant that holds whatever the configuration. *)
Record sound (s : Machine) : Prop := {
  sound_jobs : (∀ e, main_pc s ≠ Crashed e) →
               (job <$> threads s) ++ pending available_models d (main_pc s)
               = jobs_for available_models d (models_to_use d);
  sound_main : main_sound (main_pc s) (threads s);
  sound_workers : Forall worker_sound (threads s);
  sound_fables : record_key <$> all_fables (shared s)
                 ≡ₚ job_key <$> collected_jobs (threads s);
  sound_records : Forall (fun record => dom record = list_to_set fields)
                         (all_fables (shared s));
  sound_lock : ∀ i, lock (shared s) = Some i →
                 ∃ wk, threads s !! i = Some wk ∧ holds (pc wk)
}.
End DispatcherAnyConfiguration.

(** ** The [--evaluate] branch of [main] *)

(** [s * n] *)
Definition times (s : str) (n : nat) : str :=
  Nat.iter n (append s) EmptyString.

(** What [print] writes for one evaluated fable. *)
Definition evaluation_block (fable_text evaluation : str) : str :=
  "Fable:" +:+ nl +:+ fable_text +:+ nl +:+ "Evaluation:" +:+ nl +:+ evaluation
  +:+ "/10" +:+ nl +:+ times "-" 80 +:+ nl.

(** The loop over the entries of the file: the log records, the text
    printed and how the loop ends.  [repr] gives the text of the values
    that an f-string formats by their [repr]. *)
Fixpoint evaluate_entries (w : World) (repr : json → str)
    (entries : list json) : list LogRecord * str * exc unit :=
  match entries with
  | [] => ([], EmptyString, Ok tt)
  | fable_data :: rest =>
      match contains fable_data "fable" with
      | Ok true =>
          match subscript fable_data "fable" with
          | Ok fable_text =>
              match evaluate_fable w (format_value repr fable_text) with
              | (records, Ok evaluation) =>
                  let '(records', printed, r) := evaluate_entries w repr rest in
                  (records ++ (INFO, "Fable Evaluation:" +:+ nl +:+ evaluation) :: records',
                   evaluation_block (format_value repr fable_text) evaluation
                   +:+ printed, r)
              | (records, Raise e) => (records, EmptyString, Raise e)
              end
          | Raise e => ([], EmptyString, Raise e)
          end
      | Ok false =>
          let '(records', printed, r) := evaluate_entries w repr rest in
          ((WARNING, "Skipping entry due to missing 'fable' key: "
                       +:+ format_value repr fable_data) :: records',
           printed, r)
      | Raise e => ([], EmptyString, Raise e)
      end
  end.

(** The branch: the log, the text printed, and the exit status when the
    branch ends in [sys.exit]. *)
Definition main_evaluate (files : FileSystem) (w : World)
    (repr : json → str) (filename : str)
    : list LogRecord * str * option Z :=
  match read_prompts files filename with
  | (records, Ok fables_to_evaluate) =>
      match evaluate_entries w repr fables_to_evaluate with
      | (records', printed, Ok _) => (records ++ records', printed, None)
      | (records', printed, Raise e) =>
          (records ++ records' ++ [exit_record e], printed, Some 1%Z)
      end
  | (records, Raise e) => (records ++ [exit_record e], EmptyString, Some 1%Z)
  end.

(** The entry supports [in]: it is a dictionary, a list or a string. *)
Definition is_container (v : json) : bool :=
  match v with
  | JObject _ | JArray _ | JString _ => true
  | _ => false
  end.

(** The entry is evaluated: it is a dictionary with the key "fable". *)
Definition fable_of (fable_data : json) : option json :=
  match fable_data with
  | JObject members => dict_get members "fable"
  | _ => None
  end.

(** The values under the key "fable", in the order of the entries. *)
Definition fable_values (entries : list json) : list json :=
  omap fable_of entries.

(** The texts of the fables of the records. *)
Definition fable_texts (fables : list (gmap str str)) : list str :=
  omap (fun fable => fable !! "fable") fables.

Definition is_warning (record : LogRecord) : bool :=
  match record.1 with WARNING => true | _ => false end.

Definition is_error (record : LogRecord) : bool :=
  match record.1 with ERROR => true | _ => false end.

(** [evaluate_fable] returns [evaluation] for [fable_text]. *)
Definition evaluates (w : World) (fable_text evaluation : str) : Prop :=
  ∃ records, evaluate_fable w fable_text = (records, Ok evaluation).

(** A line as [for line in f] yields it. *)
Definition line (text : str) : str := text +:+ String newline EmptyString.

(** [records] as lines of JSON. *)
Definition jsonl (records : list (list (str * str))) : str :=
  foldr (fun record text => json_dumps record +:+ String newline text)
        EmptyString records.

(** * [FableGenerator.generate_fable_combinations] *)

(** [x[i], x[j] = x[j], x[i]] *)
Definition exchange {A} (x : list A) (i j : nat) : exc (list A) :=
  xj ← py_item x j;
  xi ← py_item x i;
  Ok (<[j := xi]> (<[i := xj]> x)).

(** [random.shuffle(x)]: for [i] from [len(x) - 1] down to 1, the element
    at [i] is exchanged with the one at [randbelow(i + 1)].  The [pos]-th
    value of the random source gives the next [randbelow]. *)
Fixpoint shuffle_from {A} (random : nat → nat) (i pos : nat) (x : list A)
    : exc (list A) :=
  match i with
  | O => Ok x
  | S i' =>
      x' ← exchange x i (random pos mod (i + 1));
      shuffle_from random i' (pos + 1) x'
  end.

Definition shuffle {A} (random : nat → nat) (x : list A) : exc (list A) :=
  shuffle_from random (length x - 1) 0 x.

(** [l[:n]] *)
Definition slice_to {A} (l : list A) (n : Z) : list A :=
  if (0 <=? n)%Z then take (Z.to_nat n) l
  else take (length l - Z.to_nat (- n)) l.

(** [list(product(characters, traits, settings, conflicts, resolutions,
    morals))] is [all_combinations]. *)
Definition generate_fable_combinations (random : nat → nat) (config : FeatureSet)
    (num_fables : Z) : exc (list Combination) :=
  fable_combinations ← shuffle random (all_combinations config);
  Ok (slice_to fable_combinations num_fables).

Definition no_duplicates (config : FeatureSet) : Prop :=
  NoDup (characters config) ∧ NoDup (traits config) ∧ NoDup (settings config) ∧
  NoDup (conflicts config) ∧ NoDup (resolutions config) ∧ NoDup (morals config).

(** * [compile_template] and the [--generate-prompts] branch of [main] *)

(** [logger.debug] is below the configured level and leaves no record. *)
Definition compile_template (compile : Compiler) (prompt_fable : str)
    : Py Template :=
  try_except
    (lift (compile prompt_fable))
    (fun e =>
       _ ← logger_error ("Failed to compile template: " +:+ exn_str e);
       raise (Exn ConfigError ("Template compilation failed: " +:+ exn_str e))).

(** The branch once [load_settings] has returned [config], for the jsonl
    format: the log, the text printed and the exit status when the branch
    ends in [sys.exit]. *)
Definition main_generate_prompts (compile : Compiler) (random : nat → nat)
    (fuel : nat) (config : Config) (count : Z) (randomize : bool)
    : run (list LogRecord * str * option Z) :=
  match generate_prompts compile random fuel config count randomize with
  | Returned (system_prompt, fable_templates) =>
      Returned ([], write_output_jsonl system_prompt fable_templates, None)
  | Raised e => Returned ([exit_record e], EmptyString, Some 1%Z)
  | OutOfFuel => OutOfFuel
  end.

(** * Concrete inputs used by the examples *)

(** pybars on a template without placeholders: the text renders as itself. *)
Definition plain_text : Compiler := fun source => Ok (fun _ => Ok source).

(** A template engine that renders the source followed by the character of
    the context. *)
Definition names_character : Compiler := fun source =>
  Ok (fun ctx => Ok (source +:+ default EmptyString (ctx !! "character"))).

(** A template engine that renders the source followed by the values that
    the context gives to the six feature names, each after a space. *)
Definition names_features : Compiler := fun source =>
  Ok (fun ctx =>
        Ok (source +:+
            join ((fun key => from_option (append " ") EmptyString (ctx !! key)) <$>
                  ["character"; "trait"; "setting"; "conflict"; "resolution";
                   "moral"]))).

(** What [names_features] renders for the template of the examples. *)
Definition features_text (ctx : Context) : str :=
  "Write a fable:" +:+
  join ((fun key => from_option (append " ") EmptyString (ctx !! key)) <$>
        ["character"; "trait"; "setting"; "conflict"; "resolution"; "moral"]).

(** A template engine that rejects every source. *)
Definition rejects_all : Compiler := fun _ =>
  Raise (Exn PybarsError "invalid template").

(** A template engine whose templates render the system prompt and raise
    on every other source. *)
Definition renders_system_only : Compiler := fun source =>
  if decide (source = "You write fables.") then Ok (fun _ => Ok source)
  else Ok (fun _ => Raise (Exn PybarsError "cannot render")).

(** A template engine that compiles the system prompt and rejects every
    other source. *)
Definition fable_template_invalid_engine : Compiler := fun source =>
  if decide (source = "You write fables.") then Ok (fun _ => Ok source)
  else Raise (Exn PybarsError "invalid template").

Definition example_config (fs : FeatureSet) : Config :=
  {| generator := {| features := fs;
                     prompt := {| system := "You write fables.";
                                  fable := "Write a fable:" |} |} |}.

Definition fox_and_rabbit : FeatureSet :=
  {| characters := ["Fox"; "Rabbit"]; traits := ["Brave"];
     settings := ["Forest"]; conflicts := ["Hunger"];
     resolutions := ["Shared"]; morals := ["Kindness wins"] |}.

Definition no_characters : FeatureSet :=
  {| characters := []; traits := ["Brave"];
     settings := ["Forest"]; conflicts := ["Hunger"];
     resolutions := ["Shared"]; morals := ["Kindness wins"] |}.

(** The last list is the empty one. *)
Definition no_morals : FeatureSet :=
  {| characters := ["Fox"; "Rabbit"]; traits := ["Brave"];
     settings := ["Forest"]; conflicts := ["Hunger"];
     resolutions := ["Shared"]; morals := [] |}.

(** Two characters and three traits. *)
Definition two_three : FeatureSet :=
  {| characters := ["Fox"; "Rabbit"]; traits := ["Brave"; "Shy"; "Sly"];
     settings := ["Forest"]; conflicts := ["Hunger"];
     resolutions := ["Shared"]; morals := ["Kindness wins"] |}.

(** A random source that draws index [k] in every dimension at iteration
    [k]; and one that draws index 0 at every iteration. *)
Definition sweep : nat → nat := fun pos => pos `div` 6.
Definition stuck : nat → nat := fun _ => 0.

Definition chunk (piece : option str) : ChatCompletionChunk :=
  {| chunk_choices := [ {| delta := {| delta_content := piece |} |} ] |}.

(** An endpoint that streams "Once", a delta without content, " upon",
    " a time". *)
Definition storyteller : World :=
  {| decouple_config := fun _ => Ok "hf_token";
     create_stream := fun _ =>
       Ok {| stream_chunks := [chunk (Some "Once"); chunk None;
                               chunk (Some " upon"); chunk (Some " a time")];
             stream_failure := None |};
     create := fun _ => Raise (Exn APIError "Connection error.") |}.

(** An endpoint whose stream ends with a chunk that has no choice, as the
    chunk that reports the usage of a request is. *)
Definition reports_usage : World :=
  {| decouple_config := fun _ => Ok "hf_token";
     create_stream := fun _ =>
       Ok {| stream_chunks := [chunk (Some "Once"); chunk (Some " upon");
                               chunk (Some " a time");
                               {| chunk_choices := [] |}];
             stream_failure := None |};
     create := fun _ => Raise (Exn APIError "Connection error.") |}.

(** An endpoint that cannot be reached. *)
Definition offline : World :=
  {| decouple_config := fun _ => Ok "hf_token";
     create_stream := fun _ => Raise (Exn APIError "Connection error.");
     create := fun _ => Raise (Exn APIError "Connection error.") |}.

(** A judge that answers " 7 ". *)
Definition judge : World :=
  {| decouple_config := fun _ => Ok "openai_token";
     create_stream := fun _ => Raise (Exn APIError "Connection error.");
     create := fun _ =>
       Ok {| choices := [ {| message := {| message_content := Some " 7 " |} |} ] |} |}.

(** A fable whose text needs escaping: a quote, a newline, a backslash, a
    letter with an accent, a typographic apostrophe, a character beyond
    the basic plane and a lone surrogate. *)
Definition tale : gmap str str :=
  fable_record "Llama" "Write a fable."
    ("Once" +:+ String quote ("upon" +:+ String newline ("a" +:+ String backslash
       ("time" +:+ of_codes [233; 8217; 128512; 55357]%N)))).

(** A fable whose text is a high surrogate followed by a low one, and the
    fable of the one character they encode together. *)
Definition surrogates : gmap str str :=
  fable_record "Llama" "Write a fable." (of_codes [55357; 56832]%N).

Definition smiley : gmap str str :=
  fable_record "Llama" "Write a fable." (of_codes [128512]%N).

(** A file system that holds [contents] at [path] and nothing else. *)
Definition single_file (path contents : str) : FileSystem := fun filename =>
  if decide (filename = path) then Ok (Text contents)
  else Raise (Exn FileNotFoundError
                ("[Errno 2] No such file or directory: '" +:+ filename +:+ "'")).

(** A prompt file that holds no system prompt. *)
Definition prompt_files : FileSystem :=
  single_file "prompts.jsonl"
    (jsonl [ [("prompt_type", "generator_prompt"); ("content", "Write a fable.")] ]).

(** A file of fable records, the output of [write_fables]. *)
Definition fables_as_prompts : FileSystem :=
  single_file "prompts.jsonl"
    (jsonl [ [("model", "Llama"); ("prompt", "A fox."); ("fable", "Once upon a time")] ]).

(** The output of [--generate-prompts] for one template. *)
Definition generated_prompts : FileSystem :=
  single_file "prompts.jsonl" (write_output_jsonl "You write fables." ["A fox."]).

(** Prompt files: one with two system prompts and two generator prompts,
    one whose first system prompt is empty, one with a record that has no
    [prompt_type], one with a line that is not JSON, and a directory. *)
Definition story_files : FileSystem := fun path =>
  if decide (path = "prompts.jsonl") then
    Ok (Text (jsonl [ [("prompt_type", "generator_prompt"); ("content", "A fox.")];
                      [("prompt_type", "system_prompt"); ("content", "You write fables.")];
                      [("prompt_type", "generator_prompt"); ("content", "A hare.")];
                      [("prompt_type", "system_prompt"); ("content", "Ignored.")] ]))
  else if decide (path = "empty_system.jsonl") then
    Ok (Text (jsonl [ [("prompt_type", "system_prompt"); ("content", EmptyString)];
                      [("prompt_type", "system_prompt"); ("content", "Too late.")];
                      [("prompt_type", "generator_prompt"); ("content", "A hare.")] ]))
  else if decide (path = "untyped.jsonl") then
    Ok (Text (jsonl [ [("prompt_type", "system_prompt"); ("content", "You write fables.")];
                      [("content", "A hare.")] ]))
  else if decide (path = "broken.jsonl") then
    Ok (Text (line (json_dumps [("fable", "Once upon a time")]) +:+ line "{fable}"))
  else if decide (path = "stories") then
    Raise (Exn OSError "[Errno 21] Is a directory: 'stories'")
  else Raise (Exn FileNotFoundError
                ("[Errno 2] No such file or directory: '" +:+ path +:+ "'")).

Definition args_for (path : str) : Args :=
  {| args_generate_fables := path; args_models := None |}.

Definition run_args : Args := args_for "prompts.jsonl".

Definition model_config (name base_url : str) : ModelConfig :=
  Mapping (<["name" := name]> (<["base_url" := base_url]> ∅)).

Definition two_models : AvailableModels :=
  [("llama", model_config "Llama" "https://llama.example/v1/");
   ("mistral", model_config "Mistral" "https://mistral.example/v1/")].

Definition two_by_two : Dispatch :=
  {| system_prompt := "You write fables.";
     models_to_use := ["llama"; "mistral"];
     fable_prompts := ["Write a fable about a fox."; "Write a fable about a hare."] |}.

(** A configuration whose model "broken" has no base URL, whose model
    "nameless" has no name and whose model "null" has no mapping; a
    dispatch of one prompt; and two states of its run with the models
    "llama" and "broken": the first worker inside the [with lock:] block,
    and the process at rest. *)
Definition mixed_models : AvailableModels :=
  [("llama", model_config "Llama" "https://llama.example/v1/");
   ("broken", Mapping (<["name" := "Broken"]> ∅));
   ("nameless", Mapping (<["base_url" := "https://nameless.example/v1/"]> ∅));
   ("null", NotMapping "'NoneType' object is not subscriptable")].

Definition one_prompt (models : list str) : Dispatch :=
  {| system_prompt := "You write fables."; models_to_use := models;
     fable_prompts := ["A fox."] |}.

Definition llama_worker (p : WorkerPC) : Worker :=
  {| job := {| job_model_name := "llama";
               job_model_config := model_config "Llama" "https://llama.example/v1/";
               job_prompt := "A fox.";
               job_system_prompt := "You write fables." |};
     pc := p |}.

Definition broken_worker (p : WorkerPC) : Worker :=
  {| job := {| job_model_name := "broken";
               job_model_config := Mapping (<["name" := "Broken"]> ∅);
               job_prompt := "A fox.";
               job_system_prompt := "You write fables." |};
     pc := p |}.

Definition in_block : Machine :=
  {| main_pc := ForPrompt "llama" (model_config "Llama" "https://llama.example/v1/")
                  [] ["broken"];
     threads := [llama_worker (Append "Once upon a time")];
     shared := {| all_fables := []; lock := Some 0;
                  log := [(INFO, "Generating fables using model: Llama")] |} |}.

Definition at_rest : Machine :=
  {| main_pc := Joined;
     threads := [llama_worker Finished; broken_worker Finished];
     shared :=
       {| all_fables := [fable_record "Llama" "A fox." "Once upon a time"];
          lock := None;
          log := [(INFO, "Generating fables using model: Llama");
                  (INFO, "Generated fable for prompt: A fox.... using model llama");
                  (INFO, "Generating fables using model: Broken");
                  (ERROR, "Error generating fable in thread: 'base_url'")] |} |}.

(** A file of four entries: a fable record, a prompt record, a list and a
    string. *)
Definition fable_files : FileSystem :=
  single_file "fables.jsonl"
    (jsonl [ [("model", "Llama"); ("prompt", "A fox."); ("fable", "Once upon a time")];
             [("prompt_type", "generator_prompt"); ("content", "A hare.")] ]
     +:+ line "[1, 2]" +:+ line (py_encode_basestring_ascii "a fable")).

(** A file whose second line is a number. *)
Definition number_file : FileSystem :=
  single_file "fables.jsonl"
    (jsonl [ [("model", "Llama"); ("prompt", "A fox."); ("fable", "Once upon a time")] ]
     +:+ line "5").

(** A [repr] for the examples. *)
Definition braces : json → str := fun v =>
  match v with
  | JObject _ => "{...}"
  | JArray _ => "[...]"
  | _ => "..."
  end.

(** * Properties *)

(** ** The exception monad *)

Lemma exc_bind_Ok {A B} (m : exc A) (k : A → exc B) (b : B) :
  m ≫= k = Ok b ↔ ∃ a, m = Ok a ∧ k a = Ok b.
Proof.
  destruct m as [a|e]; simpl; split.
  - intros H. by exists a.
  - by intros (a' & [= <-] & H).
  - done.
  - by intros (a' & [=] & _).
Qed.

(** ** Strings *)

Lemma append_nil_r (s : str) : s +:+ EmptyString = s.
Proof. induction s as [|c s IH]; simpl; congruence. Qed.

Lemma append_assoc (s1 s2 s3 : str) :
  (s1 +:+ s2) +:+ s3 = s1 +:+ (s2 +:+ s3).
Proof. induction s1 as [|c s1 IH]; simpl; congruence. Qed.

Lemma lstrip_split (s : str) :
  ∃ l, s = l +:+ lstrip s ∧ all_space l = true.
Proof.
  induction s as [|c s (l & Hs & Hl)]; simpl.
  - by exists EmptyString.
  - destruct (py_isspace c) eqn:Hc.
    + exists (String c l). simpl. rewrite Hc, Hl. split; [congruence | done].
    + by exists EmptyString.
Qed.

Lemma rstrip_split (s : str) :
  ∃ r, s = rstrip s +:+ r ∧ all_space r = true.
Proof.
  induction s as [|c s (r & Hs & Hr)]; simpl.
  - by exists EmptyString.
  - destruct (rstrip s) as [|k kept] eqn:Hk.
    + destruct (py_isspace c) eqn:Hc.
      * exists (String c r). simpl in *. rewrite Hc, Hr. split; [congruence | done].
      * exists r. simpl in *. split; [congruence | done].
    + exists r. simpl in *. split; [congruence | done].
Qed.

Lemma lstrip_nonspace (s : str) c s' :
  lstrip s = String c s' → py_isspace c = false.
Proof.
  induction s as [|c0 s IH]; simpl; [done|].
  destruct (py_isspace c0) eqn:Hc0; [done|]. by intros [= <- <-].
Qed.

Lemma rstrip_idem (s : str) : rstrip (rstrip s) = rstrip s.
Proof.
  induction s as [|c s IH]; simpl; [done|].
  destruct (rstrip s) as [|k kept] eqn:Hk.
  - destruct (py_isspace c) eqn:Hc; simpl; [done|]. by rewrite Hc.
  - change (rstrip (String c (String k kept)))
      with (match rstrip (String k kept) with
            | EmptyString =>
                if py_isspace c then EmptyString else String c EmptyString
            | kept' => String c kept'
            end).
    by rewrite IH.
Qed.

(** [strip s] neither starts nor ends with whitespace. *)
Lemma strip_trimmed (s : str) :
  lstrip (strip s) = strip s ∧ rstrip (strip s) = strip s.
Proof.
  unfold strip. split; [|apply rstrip_idem].
  destruct (lstrip s) as [|c y] eqn:Hy; [done|].
  apply lstrip_nonspace in Hy. simpl. rewrite Hy.
  destruct (rstrip y); simpl; by rewrite Hy.
Qed.

Lemma strip_split (s : str) :
  ∃ l r, s = l +:+ strip s +:+ r ∧ all_space l = true ∧ all_space r = true.
Proof.
  destruct (lstrip_split s) as (l & Hs & Hl).
  destruct (rstrip_split (lstrip s)) as (r & Hs' & Hr).
  exists l, r. unfold strip. by rewrite <- Hs', <- Hs.
Qed.

(** ** [generate_fable] *)

Lemma consume_stream_carries chunks deltas failure acc :
  Forall2 carries chunks deltas →
  consume_stream chunks failure acc =
    match failure with
    | None => Ok (acc +:+ join (omap id deltas))
    | Some e => Raise e
    end.
Proof.
  intros H. revert acc.
  induction H as [|m d chunks deltas (c & rest & Hm & Hd) _ IH]; intros acc; simpl.
  - by rewrite append_nil_r.
  - rewrite Hm. simpl. rewrite Hd. destruct d as [piece|]; simpl.
    + by rewrite IH, append_assoc.
    + apply IH.
Qed.

Lemma consume_stream_no_choice read deltas m rest failure acc :
  Forall2 carries read deltas →
  chunk_choices m = [] →
  consume_stream (read ++ m :: rest) failure acc =
    Raise (Exn IndexError "list index out of range").
Proof.
  intros H Hm. revert acc.
  induction H as [|m' d chunks deltas' (c & rest' & Hm' & Hd) _ IH]; intros acc; simpl.
  - by rewrite Hm.
  - rewrite Hm'. simpl. rewrite Hd. destruct d; apply IH.
Qed.

Lemma generate_fable_body_streams w sp fp url chat_completion :
  streams w sp fp url chat_completion →
  generate_fable_body w sp fp url =
    consume_stream (stream_chunks chat_completion)
                   (stream_failure chat_completion) EmptyString.
Proof.
  intros (api_key & Hkey & Hcreate). unfold generate_fable_body.
  rewrite Hkey. simpl. by rewrite Hcreate.
Qed.

(** C5 (amended).  For every stream of completion chunks that ends without
    an error and each of whose chunks has a first choice, with the deltas
    [deltas], [generate_fable] returns the concatenation, in stream order,
    of exactly the deltas that are not [None], and logs nothing. *)
Theorem generate_fable_concatenates w sp fp url chunks deltas :
  streams w sp fp url {| stream_chunks := chunks; stream_failure := None |} →
  Forall2 carries chunks deltas →
  generate_fable w sp fp url = ([], Ok (join (omap id deltas))).
Proof.
  intros Hs Hc. unfold generate_fable.
  rewrite (generate_fable_body_streams _ _ _ _ _ Hs). simpl.
  by rewrite (consume_stream_carries _ _ _ _ Hc).
Qed.

Lemma generate_fable_body_failure w sp fp url e :
  generation_failure w sp fp url e →
  generate_fable_body w sp fp url = Raise e.
Proof.
  destruct 1 as [e He | api_key e Hk He | chunks deltas e Hs Hc
                | read deltas m rest failure Hs Hc Hm].
  - unfold generate_fable_body. by rewrite He.
  - unfold generate_fable_body. rewrite Hk. simpl. by rewrite He.
  - rewrite (generate_fable_body_streams _ _ _ _ _ Hs). simpl.
    by rewrite (consume_stream_carries _ _ _ _ Hc).
  - rewrite (generate_fable_body_streams _ _ _ _ _ Hs). simpl.
    by apply consume_stream_no_choice with deltas.
Qed.

Lemma generate_fable_total w sp fp url :
  ∃ records text, generate_fable w sp fp url = (records, Ok text).
Proof.
  unfold generate_fable.
  destruct (generate_fable_body w sp fp url) as [text|e]; simpl; eauto.
Qed.

(** C6.  [generate_fable] never raises: it always returns a str; and
    when a failure [e] is raised inside the generation call it logs the
    failure and returns "Error generating fable: " followed by [str(e)]. *)
Theorem generate_fable_never_raises w sp fp url :
  (∃ records text, generate_fable w sp fp url = (records, Ok text)) ∧
  ∀ e, generation_failure w sp fp url e →
       generate_fable w sp fp url =
         ([(ERROR, "OpenAI API error: " +:+ exn_str e)],
          Ok ("Error generating fable: " +:+ exn_str e)).
Proof.
  split; [apply generate_fable_total|].
  intros e He. unfold generate_fable.
  by rewrite (generate_fable_body_failure _ _ _ _ _ He).
Qed.

(** ** [evaluate_fable] *)

(** C8 (amended).  When the judge returns [text], [evaluate_fable] returns
    [text.strip()]: the judge's text with its leading and trailing
    whitespace removed and nothing else changed, after a single request and
    with no log record. *)
Theorem evaluate_fable_strips w fable text :
  judge_returns w fable text →
  evaluate_fable w fable = ([], Ok (strip text)) ∧
  (∃ l r, text = l +:+ strip text +:+ r ∧ all_space l = true ∧ all_space r = true) ∧
  lstrip (strip text) = strip text ∧ rstrip (strip text) = strip text.
Proof.
  intros (api_key & c & rest & Hk & Hc & Ht).
  split; [|split; [apply strip_split | apply strip_trimmed]].
  unfold evaluate_fable, evaluate_fable_body. rewrite Hk. simpl.
  rewrite Hc. unfold evaluation_text. simpl. by rewrite Ht.
Qed.

(** ** [generate_prompts], sequential mode *)

Lemma round_robin_nonempty (feature : list str) (idx : nat) :
  feature ≠ [] →
  ∃ x, round_robin feature idx = Ok x ∧
       feature !! (idx mod length feature) = Some x.
Proof.
  intros Hne. unfold round_robin, py_mod, py_item.
  destruct feature as [|y feature]; [done|].
  change (length (y :: feature)) with (S (length feature)).
  destruct (lookup_lt_is_Some_2 (y :: feature) (idx mod S (length feature)))
    as [x Hx].
  { change (length (y :: feature)) with (S (length feature)).
    apply Nat.mod_upper_bound. lia. }
  exists x. unfold mbind, exc_bind. by rewrite Hx.
Qed.

Lemma sequential_combination_nonempty fs idx :
  nonempty_features fs →
  ∃ c, sequential_combination fs idx = Ok c ∧ picks_round_robin fs idx c.
Proof.
  intros (H1 & H2 & H3 & H4 & H5 & H6). unfold sequential_combination.
  destruct (round_robin_nonempty _ idx H1) as (x1 & -> & ?).
  destruct (round_robin_nonempty _ idx H2) as (x2 & -> & ?).
  destruct (round_robin_nonempty _ idx H3) as (x3 & -> & ?).
  destruct (round_robin_nonempty _ idx H4) as (x4 & -> & ?).
  destruct (round_robin_nonempty _ idx H5) as (x5 & -> & ?).
  destruct (round_robin_nonempty _ idx H6) as (x6 & -> & ?).
  exists (x1, x2, x3, x4, x5, x6). by split_and!.
Qed.

Lemma while_loop_sequential random fs (gt : Template) render (N : nat) :
  nonempty_features fs →
  (∀ ctx, gt ctx = Ok (render ctx)) →
  ∀ n fuel st,
    length (prompts st) + n = N → n < fuel →
    ∃ new,
      while_loop fuel random fs gt (Z.of_nat N) false st =
        Returned {| prompts := prompts st ++ new;
                    used_combinations := used_combinations st;
                    draws := draws st |} ∧
      length new = n ∧
      ∀ j, j < n → ∃ c, picks_round_robin fs (length (prompts st) + j) c ∧
                        new !! j = Some (render (context_of c)).
Proof.
  intros Hne Hgt. induction n as [|n IH]; intros fuel st Hlen Hfuel.
  - destruct fuel as [|fuel]; [lia|]. exists []. simpl.
    destruct (Z.ltb_spec (Z.of_nat (length (prompts st))) (Z.of_nat N)); [lia|].
    rewrite app_nil_r. destruct st; split_and!; [done | done | intros; lia].
  - destruct fuel as [|fuel]; [lia|]. simpl.
    destruct (Z.ltb_spec (Z.of_nat (length (prompts st))) (Z.of_nat N)); [|lia].
    destruct (sequential_combination_nonempty fs (length (prompts st)) Hne)
      as (c & Hc & Hpick).
    unfold loop_body. rewrite Hc. simpl. rewrite Hgt. simpl.
    destruct (IH fuel {| prompts := prompts st ++ [render (context_of c)];
                         used_combinations := used_combinations st;
                         draws := draws st |}) as (new & Hrun & Hnew & Hnth).
    { simpl. rewrite length_app. simpl. lia. }
    { lia. }
    exists (render (context_of c) :: new). simpl in Hrun. rewrite Hrun.
    rewrite <- app_assoc. simpl. split_and!; [done | by rewrite Hnew |].
    intros [|j] Hj.
    + exists c. by rewrite Nat.add_0_r.
    + destruct (Hnth j) as (c' & Hc' & Hj'); [lia|].
      exists c'. simpl in Hc'. rewrite length_app in Hc'. simpl in Hc'.
      by replace (length (prompts st) + S j) with (length (prompts st) + 1 + j) by lia.
Qed.

Lemma context_of_binds c : binds (context_of c) c.
Proof.
  destruct c as [[[[[char trait] setting] conflict] resolution] moral].
  unfold binds, context_of. split_and!; try done.
Qed.

Lemma round_robin_cons (x : str) (feature : list str) (idx : nat) :
  ∃ y, round_robin (x :: feature) idx = Ok y.
Proof.
  destruct (round_robin_nonempty (x :: feature) idx) as (y & Hy & _); [done|].
  by exists y.
Qed.

Lemma sequential_combination_empty fs idx :
  ¬ nonempty_features fs →
  sequential_combination fs idx =
    Raise (Exn ZeroDivisionError "integer modulo by zero").
Proof.
  intros Hne. unfold sequential_combination, nonempty_features in *.
  destruct (characters fs) as [|x1 l1]; [done|].
  destruct (round_robin_cons x1 l1 idx) as (y1 & ->).
  destruct (traits fs) as [|x2 l2]; [done|].
  destruct (round_robin_cons x2 l2 idx) as (y2 & ->).
  destruct (settings fs) as [|x3 l3]; [done|].
  destruct (round_robin_cons x3 l3 idx) as (y3 & ->).
  destruct (conflicts fs) as [|x4 l4]; [done|].
  destruct (round_robin_cons x4 l4 idx) as (y4 & ->).
  destruct (resolutions fs) as [|x5 l5]; [done|].
  destruct (round_robin_cons x5 l5 idx) as (y5 & ->).
  destruct (morals fs) as [|x6 l6]; [done|].
  destruct Hne. by split_and!.
Qed.

(** C2 (amended).  For every feature set whose six lists are non-empty and
    every target count [N], sequential mode returns exactly [N] prompts, and
    the [i]-th prompt is the rendering of the context that binds the six
    feature names to the combination whose value in each dimension is
    [feature[i mod len(feature)]].  With an empty feature list and [N > 0]
    the call raises [ZeroDivisionError] instead of returning. *)
Theorem sequential_prompts compile random fuel config sp render (N : nat) :
  accepts compile config sp render →
  (nonempty_features (features (generator config)) →
   N < fuel →
   ∃ prompts,
     generate_prompts compile random fuel config (Z.of_nat N) false =
       Returned (sp, prompts) ∧
     length prompts = N ∧
     ∀ i, i < N →
       ∃ c ctx, picks_round_robin (features (generator config)) i c ∧
                binds ctx c ∧
                prompts !! i = Some (render ctx)) ∧
  (¬ nonempty_features (features (generator config)) →
   0 < N → 0 < fuel →
   ∃ e, generate_prompts compile random fuel config (Z.of_nat N) false = Raised e ∧
        exn_cls e = ZeroDivisionError).
Proof.
  intros (st & gt & Hst & Hgt & Hsp & Hrender). split.
  - intros Hne Hfuel.
    unfold generate_prompts. rewrite Hst, Hgt. simpl. rewrite Hsp. simpl.
    destruct (while_loop_sequential random _ gt render N Hne Hrender N fuel
                {| prompts := []; used_combinations := ∅; draws := 0 |})
      as (new & -> & Hlen & Hnth); [done | done |].
    exists new. simpl. split_and!; [done | done |].
    intros i Hi. destruct (Hnth i Hi) as (c & Hc & Hi').
    exists c, (context_of c). split_and!; [done | apply context_of_binds | done].
  - intros Hempty HN Hfuel. destruct fuel as [|fuel]; [lia|].
    exists (Exn ZeroDivisionError "integer modulo by zero"). split; [|done].
    unfold generate_prompts. rewrite Hst, Hgt. cbn [of_exc]. rewrite Hsp.
    cbn [of_exc]. cbn [while_loop prompts length].
    destruct (Z.ltb_spec (Z.of_nat 0) (Z.of_nat N)); [|lia].
    unfold loop_body. cbn [prompts length].
    by rewrite sequential_combination_empty.
Qed.

(** ** [generate_prompts], randomized mode *)

Lemma while_loop_S fuel random fs (gt : Template) count randomize st :
  while_loop (S fuel) random fs gt count randomize st =
    if (Z.of_nat (length (prompts st)) <? count)%Z
    then match loop_body random fs gt randomize st with
         | Ok st' => while_loop fuel random fs gt count randomize st'
         | Raise e => Raised e
         end
    else Returned st.
Proof. done. Qed.

Lemma elem_of_all_combinations fs a b c d e f :
  (a, b, c, d, e, f) ∈ all_combinations fs ↔
  a ∈ characters fs ∧ b ∈ traits fs ∧ c ∈ settings fs ∧
  d ∈ conflicts fs ∧ e ∈ resolutions fs ∧ f ∈ morals fs.
Proof.
  unfold all_combinations. split.
  - intros H.
    apply list_elem_of_bind in H as (a' & H & Ha).
    apply list_elem_of_bind in H as (b' & H & Hb).
    apply list_elem_of_bind in H as (c' & H & Hc).
    apply list_elem_of_bind in H as (d' & H & Hd).
    apply list_elem_of_bind in H as (e' & H & He).
    apply list_elem_of_bind in H as (f' & H & Hf).
    apply list_elem_of_singleton in H. by simplify_eq.
  - intros (Ha & Hb & Hc & Hd & He & Hf).
    apply list_elem_of_bind. exists a. split; [|done].
    apply list_elem_of_bind. exists b. split; [|done].
    apply list_elem_of_bind. exists c. split; [|done].
    apply list_elem_of_bind. exists d. split; [|done].
    apply list_elem_of_bind. exists e. split; [|done].
    apply list_elem_of_bind. exists f. split; [|done].
    by apply list_elem_of_singleton.
Qed.

Lemma nth_mod_elem (l : list str) (d : str) (n : nat) :
  l ≠ [] → nth (n mod length l) l d ∈ l.
Proof.
  intros Hl. apply list_elem_of_In, nth_In, Nat.mod_upper_bound.
  by destruct l.
Qed.

Lemma sample1_Ok random population pos x :
  sample1 random population pos = Ok x → x ∈ population.
Proof.
  unfold sample1. destruct population as [|y l]; [done|].
  intros H. injection H as <-.
  exact (nth_mod_elem (y :: l) y (random pos) ltac:(done)).
Qed.

Lemma sample1_nonempty random population pos :
  population ≠ [] → ∃ x, sample1 random population pos = Ok x.
Proof. destruct population; [done|]. simpl. eauto. Qed.

Lemma random_combination_space random fs pos c :
  random_combination random fs pos = Ok c → c ∈ feature_space fs.
Proof.
  unfold random_combination. intros H.
  apply exc_bind_Ok in H as (x1 & H1 & H).
  apply exc_bind_Ok in H as (x2 & H2 & H).
  apply exc_bind_Ok in H as (x3 & H3 & H).
  apply exc_bind_Ok in H as (x4 & H4 & H).
  apply exc_bind_Ok in H as (x5 & H5 & H).
  apply exc_bind_Ok in H as (x6 & H6 & [= <-]).
  apply elem_of_list_to_set, elem_of_all_combinations.
  split_and!; by eapply sample1_Ok.
Qed.

Lemma random_combination_nonempty random fs pos :
  nonempty_features fs → ∃ c, random_combination random fs pos = Ok c.
Proof.
  intros (H1 & H2 & H3 & H4 & H5 & H6). unfold random_combination.
  destruct (sample1_nonempty random _ pos H1) as (x1 & ->).
  destruct (sample1_nonempty random _ (pos + 1) H2) as (x2 & ->).
  destruct (sample1_nonempty random _ (pos + 2) H3) as (x3 & ->).
  destruct (sample1_nonempty random _ (pos + 3) H4) as (x4 & ->).
  destruct (sample1_nonempty random _ (pos + 4) H5) as (x5 & ->).
  destruct (sample1_nonempty random _ (pos + 5) H6) as (x6 & ->).
  simpl. eauto.
Qed.

Lemma random_combination_empty random fs pos :
  ¬ nonempty_features fs →
  random_combination random fs pos =
    Raise (Exn ValueError "Sample larger than population or is negative").
Proof.
  intros Hne. unfold random_combination, nonempty_features in *.
  destruct (characters fs); [done|]. destruct (traits fs); [done|].
  destruct (settings fs); [done|]. destruct (conflicts fs); [done|].
  destruct (resolutions fs); [done|]. destruct (morals fs); [done|].
  destruct Hne. by split_and!.
Qed.

Lemma feature_space_inhabited fs c :
  c ∈ feature_space fs → nonempty_features fs.
Proof.
  destruct c as [[[[[a b] c] d] e] f]. intros H.
  apply elem_of_list_to_set, elem_of_all_combinations in H
    as (Ha & Hb & Hc & Hd & He & Hf).
  unfold nonempty_features.
  split_and!; intros Hnil; rewrite Hnil in *; by eapply not_elem_of_nil.
Qed.

Lemma accepted_length fs render st combos :
  accepted fs render st combos →
  length (prompts st) = length combos ∧
  size (used_combinations st) = length combos ∧
  length combos ≤ size (feature_space fs).
Proof.
  intros (Hp & Hnd & Hu & Hin). split_and!.
  - by rewrite Hp, length_fmap.
  - by rewrite Hu, size_list_to_set.
  - rewrite <- (size_list_to_set (C := gset Combination) combos) by done.
    apply subseteq_size. intros c Hc. apply Hin. by apply elem_of_list_to_set in Hc.
Qed.

(** One iteration of the randomized loop keeps the invariant. *)
Lemma loop_body_random random fs (gt : Template) render st combos c :
  (∀ ctx, gt ctx = Ok (render ctx)) →
  accepted fs render st combos →
  random_combination random fs (draws st) = Ok c →
  ∃ st' combos',
    loop_body random fs gt true st = Ok st' ∧
    accepted fs render st' combos' ∧
    length combos ≤ length combos' ≤ S (length combos) ∧
    draws st' = draws st + 6 ∧
    used_combinations st' = used_combinations st ∪ {[ c ]}.
Proof.
  intros Hgt (Hp & Hnd & Hu & Hin) Hc. unfold loop_body. rewrite Hc. simpl.
  destruct (decide (c ∉ used_combinations st)) as [Hnew|Hold].
  - rewrite Hgt. simpl. eexists _, (combos ++ [c]). split; [done|].
    unfold accepted. split_and!; simpl.
    + by rewrite Hp, fmap_app.
    + apply NoDup_app. split_and!; [done | | apply NoDup_singleton].
      intros x Hx ->%list_elem_of_singleton. apply Hnew. rewrite Hu.
      by apply elem_of_list_to_set.
    + rewrite Hu, list_to_set_app_L. simpl. by rewrite union_empty_r_L.
    + intros x [Hx | ->%list_elem_of_singleton]%elem_of_app; [by apply Hin|].
      by eapply random_combination_space.
    + rewrite length_app. simpl. lia.
    + rewrite length_app. simpl. lia.
    + done.
    + done.
  - eexists _, combos. split; [done|].
    unfold accepted. split_and!; simpl; try done; try lia.
    apply dec_stable in Hold. apply set_eq. intros x.
    rewrite elem_of_union, elem_of_singleton.
    split; [by left | by intros [?| ->]].
Qed.

(** Partial correctness: when the randomized loop returns, it has accepted
    exactly [N] pairwise-distinct combinations. *)
Lemma while_loop_random_returns random fs (gt : Template) render (N : nat) :
  (∀ ctx, gt ctx = Ok (render ctx)) →
  ∀ fuel st combos st',
    accepted fs render st combos → length combos ≤ N →
    while_loop fuel random fs gt (Z.of_nat N) true st = Returned st' →
    ∃ combos', accepted fs render st' combos' ∧ length combos' = N.
Proof.
  intros Hgt. induction fuel as [|fuel IH]; intros st combos st' Hacc Hle; [done|].
  rewrite while_loop_S. destruct (accepted_length _ _ _ _ Hacc) as (Hlen & _ & _).
  destruct (Z.ltb_spec (Z.of_nat (length (prompts st))) (Z.of_nat N)).
  - destruct (random_combination random fs (draws st)) as [c|e] eqn:Hc.
    + destruct (loop_body_random random fs gt render st combos c Hgt Hacc Hc)
        as (st1 & combos1 & -> & Hacc1 & Hlen1 & _).
      apply (IH st1 combos1); [done | lia].
    + unfold loop_body. by rewrite Hc.
  - intros [= <-]. exists combos. split; [done | lia].
Qed.

(** In a feature space with fewer than [N] tuples the loop never exits. *)
Lemma while_loop_random_starves random fs (gt : Template) render (N : nat) :
  (∀ ctx, gt ctx = Ok (render ctx)) →
  nonempty_features fs →
  size (feature_space fs) < N →
  ∀ fuel st combos,
    accepted fs render st combos →
    while_loop fuel random fs gt (Z.of_nat N) true st = OutOfFuel.
Proof.
  intros Hgt Hne Hsize. induction fuel as [|fuel IH]; intros st combos Hacc; [done|].
  rewrite while_loop_S. destruct (accepted_length _ _ _ _ Hacc) as (Hlen & _ & Hle).
  destruct (Z.ltb_spec (Z.of_nat (length (prompts st))) (Z.of_nat N)); [|lia].
  destruct (random_combination_nonempty random fs (draws st) Hne) as (c & Hc).
  destruct (loop_body_random random fs gt render st combos c Hgt Hacc Hc)
    as (st1 & combos1 & -> & Hacc1 & _).
  by apply (IH st1 combos1).
Qed.

(** Once every tuple of the space has been drawn, the loop has exited. *)
Lemma while_loop_random_terminates random fs (gt : Template) render (N : nat) :
  (∀ ctx, gt ctx = Ok (render ctx)) →
  N ≤ size (feature_space fs) →
  ∀ fuel st combos k,
    accepted fs render st combos →
    drawn_so_far random fs st k →
    (∀ c, c ∈ feature_space fs →
          ∃ j, j < k + fuel ∧ random_combination random fs (6 * j) = Ok c) →
    ∃ st', while_loop (S fuel) random fs gt (Z.of_nat N) true st = Returned st'.
Proof.
  intros Hgt HN. induction fuel as [|fuel IH]; intros st combos k Hacc (Hd & Hk) Hall.
  - rewrite while_loop_S. destruct (accepted_length _ _ _ _ Hacc) as (Hlen & Hsz & _).
    destruct (Z.ltb_spec (Z.of_nat (length (prompts st))) (Z.of_nat N)); [|eauto].
    assert (size (feature_space fs) ≤ size (used_combinations st)); [|lia].
    apply subseteq_size. intros c Hc.
    destruct (Hall c Hc) as (j & Hj & Hjc). apply (Hk j); [lia | done].
  - rewrite while_loop_S.
    destruct (accepted_length _ _ _ _ Hacc) as (Hlen & Hsz & Hle).
    destruct (Z.ltb_spec (Z.of_nat (length (prompts st))) (Z.of_nat N)); [|eauto].
    assert (nonempty_features fs) as Hne.
    { destruct (decide (feature_space fs = ∅)) as [He|He].
      - rewrite He, size_empty in HN. lia.
      - apply set_choose_L in He as (c & Hc). by eapply feature_space_inhabited. }
    destruct (random_combination_nonempty random fs (draws st) Hne) as (c & Hc).
    destruct (loop_body_random random fs gt render st combos c Hgt Hacc Hc)
      as (st1 & combos1 & -> & Hacc1 & _ & Hd1 & Hu1).
    apply (IH st1 combos1 (S k)); [done | |].
    + split; [lia|]. intros j c' Hj Hjc. rewrite Hu1.
      destruct (decide (j = k)) as [->|].
      * rewrite <- Hd, Hc in Hjc. injection Hjc as <-.
        by apply elem_of_union_r, elem_of_singleton.
      * apply elem_of_union_l, (Hk j); [lia | done].
    + intros c' Hc'. destruct (Hall c' Hc') as (j & Hj & Hjc).
      exists j. split; [lia | done].
Qed.

(** A fair source has drawn the whole (finite) space after finitely many
    iterations. *)
Lemma fair_bound random fs :
  fair random fs →
  ∃ K, ∀ c, c ∈ feature_space fs →
            ∃ j, j < K ∧ random_combination random fs (6 * j) = Ok c.
Proof.
  intros Hfair.
  assert (∀ l : list Combination, (∀ c, c ∈ l → c ∈ feature_space fs) →
            ∃ K, ∀ c, c ∈ l →
                 ∃ j, j < K ∧ random_combination random fs (6 * j) = Ok c) as Hl.
  { induction l as [|c l IH]; intros Hin.
    - exists 0. intros c Hc. by apply not_elem_of_nil in Hc.
    - destruct IH as (K & HK); [intros; apply Hin; by right|].
      destruct (Hfair c) as (k & Hk); [apply Hin; by left|].
      exists (S (max K k)). intros c' [->|Hc']%elem_of_cons.
      + exists k. split; [lia | done].
      + destruct (HK c' Hc') as (j & Hj & Hjc). exists j. split; [lia | done]. }
  destruct (Hl (elements (feature_space fs))) as (K & HK).
  { intros c Hc. by apply elem_of_elements in Hc. }
  exists K. intros c Hc. apply HK. by apply elem_of_elements.
Qed.

Lemma while_loop_more_fuel random fs (gt : Template) count randomize :
  ∀ fuel extra st st',
    while_loop fuel random fs gt count randomize st = Returned st' →
    while_loop (fuel + extra) random fs gt count randomize st = Returned st'.
Proof.
  induction fuel as [|fuel IH]; intros extra st st'; [done|].
  change (S fuel + extra) with (S (fuel + extra)). rewrite !while_loop_S.
  destruct (Z.of_nat (length (prompts st)) <? count)%Z; [|done].
  destruct (loop_body random fs gt randomize st); [apply IH | done].
Qed.

Lemma accepted_initial fs render :
  accepted fs render {| prompts := []; used_combinations := ∅; draws := 0 |} [].
Proof.
  split_and!; simpl; [done | apply NoDup_nil_2 | done |].
  intros c Hc. by apply not_elem_of_nil in Hc.
Qed.

Lemma generate_prompts_accepts compile config sp render :
  accepts compile config sp render →
  ∃ gt : Template,
    (∀ ctx, gt ctx = Ok (render ctx)) ∧
    ∀ random fuel count randomize,
      generate_prompts compile random fuel config count randomize =
        match while_loop fuel random (features (generator config)) gt count randomize
                {| prompts := []; used_combinations := ∅; draws := 0 |} with
        | Returned st => Returned (sp, prompts st)
        | Raised e => Raised e
        | OutOfFuel => OutOfFuel
        end.
Proof.
  intros (st & gt & Hst & Hgt & Hsp & Hrender). exists gt. split; [done|].
  intros random fuel count randomize.
  unfold generate_prompts. rewrite Hst, Hgt. simpl. by rewrite Hsp.
Qed.

Lemma random_loop_terminates random fs (gt : Template) render (N : nat) :
  (∀ ctx, gt ctx = Ok (render ctx)) →
  N ≤ size (feature_space fs) →
  fair random fs →
  ∃ fuel st',
    while_loop fuel random fs gt (Z.of_nat N) true
      {| prompts := []; used_combinations := ∅; draws := 0 |} = Returned st'.
Proof.
  intros Hgt HN Hfair. destruct (fair_bound random fs Hfair) as (K & HK).
  destruct (while_loop_random_terminates random fs gt render N Hgt HN K
              {| prompts := []; used_combinations := ∅; draws := 0 |} [] 0)
    as (st' & Hst').
  - apply accepted_initial.
  - split; [done | intros; lia].
  - done.
  - eauto.
Qed.


(** C4 (amended).  The randomized loop terminates, under a fair random
    source, whenever [N] is at most the number of distinct tuples of the
    feature space; when [N] exceeds that number and every feature list is
    non-empty it never terminates; when some feature list is empty and
    [N > 0] the first draw raises [ValueError]. *)
Theorem random_loop_termination compile config sp render (N : nat) :
  accepts compile config sp render →
  (N ≤ size (feature_space (features (generator config))) →
   ∀ random, fair random (features (generator config)) →
     ∃ fuel, ∀ extra, ∃ result,
       generate_prompts compile random (fuel + extra) config (Z.of_nat N) true
         = Returned result) ∧
  (size (feature_space (features (generator config))) < N →
   nonempty_features (features (generator config)) →
   ∀ random fuel,
     generate_prompts compile random fuel config (Z.of_nat N) true = OutOfFuel) ∧
  (0 < N → ¬ nonempty_features (features (generator config)) →
   ∀ random fuel,
     generate_prompts compile random (S fuel) config (Z.of_nat N) true =
       Raised (Exn ValueError "Sample larger than population or is negative")).
Proof.
  intros Hacc.
  destruct (generate_prompts_accepts compile config sp render Hacc)
    as (gt & Hgt & Hgp).
  split_and!.
  - intros HN random Hfair.
    destruct (random_loop_terminates random _ gt render N Hgt HN Hfair)
      as (fuel & st' & Hrun).
    exists fuel. intros extra. exists (sp, prompts st').
    by rewrite Hgp, (while_loop_more_fuel _ _ _ _ _ _ _ _ _ Hrun).
  - intros HN Hne random fuel. rewrite Hgp.
    by rewrite (while_loop_random_starves random _ gt render N Hgt Hne HN fuel _ []
                  (accepted_initial _ _)).
  - intros HN Hempty random fuel. rewrite Hgp, while_loop_S.
    cbn [prompts length]. destruct (Z.ltb_spec (Z.of_nat 0) (Z.of_nat N)); [|lia].
    unfold loop_body. by rewrite random_combination_empty.
Qed.


(** *** Failures of the template engine *)

(** [generate_prompts] has no handler around the rendering: when the
    compiled fable template raises, so does the call, in both modes. *)
Lemma generate_prompts_render_failure compile random fuel config
    (system_template generator_template : Template) sp e (N : nat) randomize :
  compile (system (prompt (generator config))) = Ok system_template →
  compile (fable (prompt (generator config))) = Ok generator_template →
  system_template ∅ = Ok sp →
  (∀ ctx, generator_template ctx = Raise e) →
  nonempty_features (features (generator config)) →
  0 < N →
  generate_prompts compile random (S fuel) config (Z.of_nat N) randomize = Raised e.
Proof.
  intros Hst Hgt Hsp Hraise Hne HN.
  unfold generate_prompts. rewrite Hst, Hgt. cbn [of_exc]. rewrite Hsp.
  cbn [of_exc]. rewrite while_loop_S. cbn [prompts length].
  destruct (Z.ltb_spec (Z.of_nat 0) (Z.of_nat N)); [|lia].
  unfold loop_body. destruct randomize.
  - destruct (random_combination_nonempty random _ 0 Hne) as (c & Hc).
    cbn [draws]. rewrite Hc. simpl. by rewrite Hraise.
  - destruct (sequential_combination_nonempty _ 0 Hne) as (c & Hc & _).
    cbn [prompts length]. rewrite Hc. simpl. by rewrite Hraise.
Qed.

(** ** Examples and counterexamples *)

Lemma accepts_names_features fs :
  accepts names_features (example_config fs) "You write fables." features_text.
Proof. eexists _, _. split_and!; [reflexivity | reflexivity | reflexivity |]. by intros ctx. Defined.

Lemma accepts_plain_text fs :
  accepts plain_text (example_config fs) "You write fables."
          (fun _ => "Write a fable:").
Proof. by eexists _, _. Defined.

Lemma nonempty_fox_and_rabbit : nonempty_features fox_and_rabbit.
Proof. by split_and!. Defined.

Lemma empty_no_morals : ¬ nonempty_features no_morals.
Proof. intros (_ & _ & _ & _ & _ & H). by apply H. Defined.

Lemma empty_no_characters : ¬ nonempty_features no_characters.
Proof. intros (H & _). by apply H. Defined.

Lemma feature_space_fox_and_rabbit c :
  c ∈ feature_space fox_and_rabbit →
  c = ("Fox", "Brave", "Forest", "Hunger", "Shared", "Kindness wins") ∨
  c = ("Rabbit", "Brave", "Forest", "Hunger", "Shared", "Kindness wins").
Proof.
  destruct c as [[[[[a b] c] d] e] f]. intros H.
  apply elem_of_list_to_set, elem_of_all_combinations in H
    as (Ha & Hb & Hc & Hd & He & Hf). simpl in *.
  apply list_elem_of_singleton in Hb, Hc, Hd, He, Hf. subst.
  apply elem_of_cons in Ha as [->|Ha]; [by left|].
  apply list_elem_of_singleton in Ha as ->. by right.
Defined.

Lemma fair_sweep : fair sweep fox_and_rabbit.
Proof.
  intros c [->| ->]%feature_space_fox_and_rabbit.
  - by exists 0.
  - by exists 1.
Defined.

Lemma size_fox_and_rabbit : size (feature_space fox_and_rabbit) = 2.
Proof. vm_compute. reflexivity. Defined.

(** The scenario of two characters and one value in every other dimension. *)
Lemma sequential_scenario :
  generate_prompts names_features sweep 3 (example_config fox_and_rabbit) 2 false =
    Returned ("You write fables.",
              ["Write a fable: Fox Brave Forest Hunger Shared Kindness wins";
               "Write a fable: Rabbit Brave Forest Hunger Shared Kindness wins"]).
Proof. vm_compute. reflexivity. Qed.

Lemma sequential_prompts_witness :
  (∃ prompts,
     generate_prompts names_features sweep 3 (example_config fox_and_rabbit)
       (Z.of_nat 2) false = Returned ("You write fables.", prompts) ∧
     length prompts = 2 ∧
     ∀ i, i < 2 →
       ∃ c ctx, picks_round_robin fox_and_rabbit i c ∧ binds ctx c ∧
                prompts !! i = Some (features_text ctx)) ∧
  (∃ e, generate_prompts names_features sweep 3 (example_config no_morals)
          (Z.of_nat 2) false = Raised e ∧
        exn_cls e = ZeroDivisionError).
Proof.
  split.
  - apply (sequential_prompts names_features sweep 3 (example_config fox_and_rabbit)
             "You write fables." features_text 2 (accepts_names_features _)).
    + apply nonempty_fox_and_rabbit.
    + lia.
  - apply (sequential_prompts names_features sweep 3 (example_config no_morals)
             "You write fables." features_text 2 (accepts_names_features _)).
    + apply empty_no_morals.
    + lia.
    + lia.
Defined.

(** C2 as stated fails when a feature list is empty: with no characters
    and a target count of 1, sequential mode raises [ZeroDivisionError]
    at [idx % len(features['characters'])] and returns no prompt. *)
Lemma sequential_prompts_empty_feature :
  accepts names_features (example_config no_characters) "You write fables."
          features_text ∧
  generate_prompts names_features sweep 2 (example_config no_characters) 1 false
    = Raised (Exn ZeroDivisionError "integer modulo by zero") ∧
  ∀ fuel result,
    generate_prompts names_features sweep fuel (example_config no_characters) 1 false
      ≠ Returned result.
Proof.
  split_and!; [apply accepts_names_features | done |].
  by intros [|fuel] result.
Qed.

Lemma random_scenario :
  generate_prompts names_features sweep 3 (example_config fox_and_rabbit) 2 true =
    Returned ("You write fables.",
              ["Write a fable: Fox Brave Forest Hunger Shared Kindness wins";
               "Write a fable: Rabbit Brave Forest Hunger Shared Kindness wins"]).
Proof. vm_compute. reflexivity. Qed.


Lemma stuck_loop (gt : Template) fuel st :
  length (prompts st) = 1 →
  ("Fox", "Brave", "Forest", "Hunger", "Shared", "Kindness wins")
    ∈ used_combinations st →
  while_loop fuel stuck fox_and_rabbit gt 2 true st = OutOfFuel.
Proof.
  revert st. induction fuel as [|fuel IH]; intros st Hlen Hin; [done|].
  rewrite while_loop_S, Hlen. cbn [Z.of_nat Pos.of_succ_nat Z.ltb Z.compare Pos.compare Pos.compare_cont].
  unfold loop_body.
  change (random_combination stuck fox_and_rabbit (draws st))
    with (@Ok Combination ("Fox", "Brave", "Forest", "Hunger", "Shared", "Kindness wins")).
  cbn [mbind exc_bind]. rewrite decide_False by (intros H; by apply H).
  by apply IH.
Qed.


Lemma random_loop_termination_witness :
  (∃ fuel, ∀ extra, ∃ result,
     generate_prompts plain_text sweep (fuel + extra)
       (example_config fox_and_rabbit) (Z.of_nat 2) true = Returned result) ∧
  (∀ random fuel,
     generate_prompts plain_text random fuel (example_config fox_and_rabbit)
       (Z.of_nat 3) true = OutOfFuel) ∧
  (∀ random fuel,
     generate_prompts plain_text random (S fuel) (example_config no_characters)
       (Z.of_nat 1) true =
       Raised (Exn ValueError "Sample larger than population or is negative")).
Proof.
  split_and!.
  - apply (random_loop_termination plain_text (example_config fox_and_rabbit)
             "You write fables." (fun _ => "Write a fable:") 2
             (accepts_plain_text _)).
    + cbn [example_config features generator]. rewrite size_fox_and_rabbit. lia.
    + apply fair_sweep.
  - apply (random_loop_termination plain_text (example_config fox_and_rabbit)
             "You write fables." (fun _ => "Write a fable:") 3
             (accepts_plain_text _)).
    + cbn [example_config features generator]. rewrite size_fox_and_rabbit. lia.
    + apply nonempty_fox_and_rabbit.
  - apply (random_loop_termination plain_text (example_config no_characters)
             "You write fables." (fun _ => "Write a fable:") 1
             (accepts_plain_text _)).
    + lia.
    + apply empty_no_characters.
Defined.

(** C4 as stated fails when a feature list is empty: the space has no
    tuple, the target count 1 exceeds it, and yet the loop ends at its
    first draw, with the [ValueError] of [sample]. *)
Lemma random_loop_raises_on_empty_feature :
  accepts plain_text (example_config no_characters) "You write fables."
          (fun _ => "Write a fable:") ∧
  size (feature_space no_characters) < 1 ∧
  generate_prompts plain_text sweep 1 (example_config no_characters) 1 true
    = Raised (Exn ValueError "Sample larger than population or is negative").
Proof.
  split_and!; [apply accepts_plain_text | vm_compute; lia | done].
Qed.

Lemma streams_storyteller sp fp url :
  streams storyteller sp fp url
    {| stream_chunks := [chunk (Some "Once"); chunk None; chunk (Some " upon");
                         chunk (Some " a time")];
       stream_failure := None |}.
Proof. by exists "hf_token". Defined.

Lemma carries_chunk piece : carries (chunk piece) piece.
Proof. by eexists _, _. Defined.

Lemma generate_fable_concatenates_witness :
  generate_fable storyteller "You write fables." "Write a fable."
    "https://endpoint.example/v1/" = ([], Ok "Once upon a time").
Proof.
  apply (generate_fable_concatenates storyteller _ _ _
           [chunk (Some "Once"); chunk None; chunk (Some " upon");
            chunk (Some " a time")]
           [Some "Once"; None; Some " upon"; Some " a time"]).
  - apply streams_storyteller.
  - repeat (constructor; [apply carries_chunk|]). constructor.
Defined.

(** C5 as stated fails for a stream with a chunk that has no choice: the
    deltas "Once", " upon", " a time" are followed by a chunk whose
    [choices] is empty, [choices[0]] raises [IndexError], and the call
    returns the sentinel instead of "Once upon a time". *)
Lemma generate_fable_drops_text :
  streams reports_usage "You write fables." "Write a fable."
    "https://endpoint.example/v1/"
    {| stream_chunks := [chunk (Some "Once"); chunk (Some " upon");
                         chunk (Some " a time"); {| chunk_choices := [] |}];
       stream_failure := None |} ∧
  generate_fable reports_usage "You write fables." "Write a fable."
    "https://endpoint.example/v1/" =
    ([(ERROR, "OpenAI API error: list index out of range")],
     Ok "Error generating fable: list index out of range") ∧
  generate_fable reports_usage "You write fables." "Write a fable."
    "https://endpoint.example/v1/" ≠ ([], Ok "Once upon a time").
Proof. split_and!; [by exists "hf_token" | done | done]. Qed.

Lemma generate_fable_never_raises_witness :
  generate_fable offline "You write fables." "Write a fable."
    "https://endpoint.example/v1/" =
  ([(ERROR, "OpenAI API error: Connection error.")],
   Ok "Error generating fable: Connection error.").
Proof.
  apply (proj2 (generate_fable_never_raises offline "You write fables."
                  "Write a fable." "https://endpoint.example/v1/")
           (Exn APIError "Connection error.")).
  by apply create_failure with "hf_token".
Defined.

Lemma judge_returns_7 : judge_returns judge "A fable." " 7 ".
Proof. by eexists "openai_token", _, []. Defined.

Lemma evaluate_fable_strips_witness :
  evaluate_fable judge "A fable." = ([], Ok "7") ∧
  (∃ l r, " 7 " = l +:+ "7" +:+ r ∧ all_space l = true ∧ all_space r = true) ∧
  lstrip "7" = "7" ∧ rstrip "7" = "7".
Proof. apply (evaluate_fable_strips judge "A fable." " 7 " judge_returns_7). Defined.

(** C8 as stated fails: the judge returns " 7 " and [evaluate_fable]
    returns "7", not the judge's text unmodified. *)
Lemma evaluate_fable_modifies_text :
  judge_returns judge "A fable." " 7 " ∧
  evaluate_fable judge "A fable." = ([], Ok "7") ∧
  evaluate_fable judge "A fable." ≠ ([], Ok " 7 ").
Proof. split_and!; [apply judge_returns_7 | done | done]. Qed.

(** * The [json] codec *)

(** ** Bits *)

(** [lia] with the equations of the divisions by constants. *)
Ltac lia_div := zify; Z.to_euclidean_division_equations; lia.

Lemma land_shifted (x b k : N) : (b < 2 ^ k → N.land (x * 2 ^ k) b = 0)%N.
Proof.
  intros Hb. rewrite <- (N.mod_small b (2 ^ k)) by done.
  rewrite <- (N.land_ones b), (N.land_comm b), N.land_assoc, N.land_ones.
  by rewrite N.Div0.mod_mul, N.land_0_l.
Qed.

Lemma lor_shiftl (x b k : N) : (b < 2 ^ k → N.lor (N.shiftl x k) b = x * 2 ^ k + b)%N.
Proof.
  intros Hb. rewrite N.shiftl_mul_pow2.
  rewrite <- N.lxor_lor, <- N.add_nocarry_lxor; auto using land_shifted.
Qed.

Lemma lor_add (a x b k : N) :
  (a = x * 2 ^ k → b < 2 ^ k → N.lor a b = a + b)%N.
Proof. intros -> Hb. by rewrite <- N.shiftl_mul_pow2, lor_shiftl, N.shiftl_mul_pow2. Qed.

Lemma hex_value_digit (d : N) : (d < 16)%N → hex_value (hex_digit d) = Some d.
Proof.
  intros Hd. unfold hex_value, hex_digit.
  destruct (N.ltb_spec d 10).
  - replace ((48 <=? 48 + d) && (48 + d <=? 57))%N with true; [f_equal; lia|].
    symmetry. apply andb_true_iff. split; apply N.leb_le; lia.
  - replace ((48 <=? 87 + d) && (87 + d <=? 57))%N with false.
    + replace ((97 <=? 87 + d) && (87 + d <=? 102))%N with true; [f_equal; lia|].
      symmetry. apply andb_true_iff. split; apply N.leb_le; lia.
    + symmetry. apply andb_false_iff. right. apply N.leb_gt. lia.
Qed.

Lemma decode_hex4 (n : N) :
  (n < 65536)%N →
  decode_uXXXX (hex_digit (n / 4096 mod 16)) (hex_digit (n / 256 mod 16))
               (hex_digit (n / 16 mod 16)) (hex_digit (n mod 16)) = Some n.
Proof.
  intros Hn. unfold decode_uXXXX.
  rewrite !hex_value_digit by lia_div. cbn [mbind option_bind]. f_equal.
  rewrite !(lor_shiftl _ _ 4) by (change (2 ^ 4)%N with 16%N; lia_div).
  change (2 ^ 4)%N with 16%N. lia_div.
Qed.

Lemma surrogate_pair (c : N) :
  (65536 ≤ c < 1114112)%N →
  let n := (c - 65536)%N in
  let s1 := N.lor 55296 (N.land (N.shiftr n 10) 1023) in
  let s2 := N.lor 56320 (N.land n 1023) in
  (s1 < 65536 ∧ s2 < 65536)%N ∧
  is_high_surrogate s1 = true ∧ is_low_surrogate s2 = true ∧
  join_surrogates s1 s2 = c.
Proof.
  intros Hc n s1 s2.
  assert (Hs1 : s1 = (55296 + n / 1024)%N).
  { unfold s1. change 1023%N with (N.ones 10).
    rewrite N.land_ones, N.shiftr_div_pow2. change (2 ^ 10)%N with 1024%N.
    rewrite (lor_add _ 54 _ 10); change (2 ^ 10)%N with 1024%N; unfold n; lia_div. }
  assert (Hs2 : s2 = (56320 + n mod 1024)%N).
  { unfold s2. change 1023%N with (N.ones 10).
    rewrite N.land_ones. change (2 ^ 10)%N with 1024%N.
    rewrite (lor_add _ 55 _ 10); change (2 ^ 10)%N with 1024%N; unfold n; lia_div. }
  assert (Hn : (n < 1048576)%N) by (unfold n; lia_div).
  split_and!.
  - lia_div.
  - lia_div.
  - unfold is_high_surrogate. apply andb_true_iff. split; apply N.leb_le; lia_div.
  - unfold is_low_surrogate. apply andb_true_iff. split; apply N.leb_le; lia_div.
  - unfold join_surrogates. change 1023%N with (N.ones 10).
    rewrite !N.land_ones. change (2 ^ 10)%N with 1024%N.
    rewrite (lor_shiftl _ _ 10); change (2 ^ 10)%N with 1024%N; [|lia_div].
    rewrite Hs1, Hs2. unfold n in *. lia_div.
Qed.

(** ** The string codec *)

Lemma append_cons (c : N) (s t : str) : String c s +:+ t = String c (s +:+ t).
Proof. done. Qed.

Lemma append_nil_l (t : str) : EmptyString +:+ t = t.
Proof. done. Qed.

Ltac norm_append :=
  repeat (rewrite append_assoc || rewrite append_cons || rewrite append_nil_l).

Lemma len_append (s t : str) : len (s +:+ t) = len s + len t.
Proof. induction s as [|c s IH]; simpl; [done | by rewrite IH]. Qed.

Lemma scanstring_quote begin rest :
  scanstring begin (String quote rest) = Scanned EmptyString rest.
Proof. done. Qed.

Lemma scanstring_plain begin c rest :
  c ≠ quote → c ≠ backslash → (31 < c)%N →
  scanstring begin (String c rest) = scan_cons c (scanstring begin rest).
Proof.
  intros Hq Hb Hc. cbn [scanstring].
  rewrite (proj2 (N.eqb_neq _ _) Hq), (proj2 (N.eqb_neq _ _) Hb).
  by rewrite (proj2 (N.leb_gt _ _) Hc).
Qed.

Lemma scanstring_simple_escape begin esc char rest :
  esc ≠ 117%N → unescape esc = Some char →
  scanstring begin (String backslash (String esc rest)) =
    scan_cons char (scanstring begin rest).
Proof.
  intros Hu Hesc. cbn [scanstring]. change (backslash =? quote)%N with false.
  change (backslash =? backslash)%N with true. cbv iota.
  change (ord "u") with 117%N.
  by rewrite (proj2 (N.eqb_neq _ _) Hu), Hesc.
Qed.

Lemma scanstring_backslash_u begin h1 h2 h3 h4 after :
  after ≠ EmptyString →
  scanstring begin
    (String backslash (String 117%N
       (String h1 (String h2 (String h3 (String h4 after)))))) =
    match decode_uXXXX h1 h2 h3 h4 with
    | Some uni =>
        match after with
        | String b (String u (String k1 (String k2 (String k3 (String k4
            (String _ _ as after2)))))) =>
            if is_high_surrogate uni && (b =? backslash)%N && (u =? ord "u")%N then
              match decode_uXXXX k1 k2 k3 k4 with
              | Some uni2 =>
                  if is_low_surrogate uni2
                  then scan_cons (join_surrogates uni uni2) (scanstring begin after2)
                  else scan_cons uni (scanstring begin after)
              | None => Failed "Invalid \uXXXX escape" (len after - 1)
              end
            else scan_cons uni (scanstring begin after)
        | _ => scan_cons uni (scanstring begin after)
        end
    | None => Failed "Invalid \uXXXX escape" (S (S (S (S (S (len after))))))
    end.
Proof. destruct after as [|a0 after]; [done|]. reflexivity. Qed.

(** A [\u] escape that is not joined with the next one. *)
Lemma scanstring_single begin h1 h2 h3 h4 uni after :
  decode_uXXXX h1 h2 h3 h4 = Some uni →
  after ≠ EmptyString →
  is_high_surrogate uni = false ∨
  (∃ b after', after = String b after' ∧ b ≠ backslash) ∨
  (∃ u after', after = String backslash (String u after') ∧ u ≠ 117%N) ∨
  (∃ k1 k2 k3 k4 after' uni2,
     after = String backslash (String 117%N
               (String k1 (String k2 (String k3 (String k4 after'))))) ∧
     decode_uXXXX k1 k2 k3 k4 = Some uni2 ∧ is_low_surrogate uni2 = false) →
  scanstring begin
    (String backslash (String 117%N
       (String h1 (String h2 (String h3 (String h4 after)))))) =
    scan_cons uni (scanstring begin after).
Proof.
  intros Hdec Hne Hcases. rewrite scanstring_backslash_u, Hdec by done.
  destruct Hcases as [Hhigh | [(b & after' & -> & Hb)
    | [(u & after' & -> & Hu)
    | (k1 & k2 & k3 & k4 & after' & uni2 & -> & Hk & Hlow)]]].
  - rewrite Hhigh. cbn [andb].
    destruct after as [|a0 [|a1 [|a2 [|a3 [|a4 [|a5 [|a6 after]]]]]]]; reflexivity.
  - rewrite (proj2 (N.eqb_neq _ _) Hb), andb_false_r. cbn [andb].
    destruct after' as [|a1 [|a2 [|a3 [|a4 [|a5 [|a6 after]]]]]]; reflexivity.
  - change (ord "u") with 117%N.
    rewrite (proj2 (N.eqb_neq _ _) Hu), andb_false_r.
    destruct after' as [|a2 [|a3 [|a4 [|a5 [|a6 after]]]]]; reflexivity.
  - rewrite Hk, Hlow.
    destruct after' as [|a6 after]; [reflexivity|].
    by destruct (is_high_surrogate uni && _ && _).
Qed.

(** A high surrogate joined with the low surrogate that follows. *)
Lemma scanstring_pair begin h1 h2 h3 h4 k1 k2 k3 k4 uni uni2 after :
  decode_uXXXX h1 h2 h3 h4 = Some uni →
  decode_uXXXX k1 k2 k3 k4 = Some uni2 →
  is_high_surrogate uni = true → is_low_surrogate uni2 = true →
  after ≠ EmptyString →
  scanstring begin
    (String backslash (String 117%N
       (String h1 (String h2 (String h3 (String h4
          (String backslash (String 117%N
             (String k1 (String k2 (String k3 (String k4 after)))))))))))) =
    scan_cons (join_surrogates uni uni2) (scanstring begin after).
Proof.
  intros Hdec Hdec2 Hhigh Hlow Hne. rewrite scanstring_backslash_u, Hdec by done.
  destruct after as [|a0 after]; [done|].
  by rewrite Hhigh, Hdec2, Hlow.
Qed.

Lemma high_not_low c : is_high_surrogate c = true → is_low_surrogate c = false.
Proof.
  unfold is_high_surrogate, is_low_surrogate. intros [_ H]%andb_true_iff.
  apply N.leb_le in H. apply andb_false_iff. left. apply N.leb_gt. lia.
Qed.

(** The four shapes of the replacement of a character. *)
Lemma escape_char_cases (c : N) :
  (c < 1114112)%N →
  (∃ esc, escape_char c = String backslash (String esc EmptyString) ∧
          esc ≠ 117%N ∧ unescape esc = Some c) ∨
  (escape_char c = String c EmptyString ∧
   c ≠ quote ∧ c ≠ backslash ∧ (31 < c)%N) ∨
  ((c < 65536)%N ∧ escape_char c = String backslash (String 117%N (hex4 c))) ∨
  ((65536 ≤ c)%N ∧
   escape_char c =
     String backslash (String 117%N
       (hex4 (N.lor 55296 (N.land (N.shiftr (c - 65536) 10) 1023)) +:+
        String backslash (String 117%N
          (hex4 (N.lor 56320 (N.land (c - 65536) 1023))))))).
Proof.
  intros Hc. unfold escape_char.
  destruct (N.eqb_spec c 34) as [->|?]; [left; by exists 34%N|].
  destruct (N.eqb_spec c 92) as [->|?]; [left; by exists 92%N|].
  destruct (N.eqb_spec c 10) as [->|?]; [left; by exists 110%N|].
  destruct (N.eqb_spec c 13) as [->|?]; [left; by exists 114%N|].
  destruct (N.eqb_spec c 9) as [->|?]; [left; by exists 116%N|].
  destruct (N.eqb_spec c 8) as [->|?]; [left; by exists 98%N|].
  destruct (N.eqb_spec c 12) as [->|?]; [left; by exists 102%N|].
  destruct (N.leb_spec 32 c); cbn [andb].
  - destruct (N.leb_spec c 126).
    + right. left. unfold quote, backslash. split_and!; [done | done | done | lia].
    + destruct (N.ltb_spec c 65536); right; right; [left | right]; by split.
  - destruct (N.ltb_spec c 65536); [|lia]. right. right. left. by split.
Qed.

Lemma escape_closed_nonempty s rest : escape s +:+ String quote rest ≠ EmptyString.
Proof.
  destruct s as [|c s]; [done|]. cbn [escape]. rewrite append_assoc.
  unfold escape_char. by repeat case_match.
Qed.

(** What follows a character in the encoded text, when the character that
    follows it in the string is not a low surrogate. *)
Lemma escape_head s rest :
  is_str s = true →
  (∀ c' s', s = String c' s' → is_low_surrogate c' = false) →
  (∃ b after', escape s +:+ String quote rest = String b after' ∧ b ≠ backslash) ∨
  (∃ u after', escape s +:+ String quote rest = String backslash (String u after') ∧
               u ≠ 117%N) ∨
  (∃ k1 k2 k3 k4 after' uni2,
     escape s +:+ String quote rest =
       String backslash (String 117%N
         (String k1 (String k2 (String k3 (String k4 after'))))) ∧
     decode_uXXXX k1 k2 k3 k4 = Some uni2 ∧ is_low_surrogate uni2 = false).
Proof.
  intros Hs Hlow. destruct s as [|c s]; [left; by eexists _, _|].
  cbn [is_str] in Hs. apply andb_true_iff in Hs as [Hc%N.ltb_lt _].
  cbn [escape]. rewrite append_assoc.
  destruct (escape_char_cases c Hc)
    as [(esc & -> & Hesc & _) | [(-> & _ & Hb & _) | [(Hc' & ->) | (Hc' & ->)]]].
  - right. left. by eexists _, _.
  - left. by eexists _, _.
  - right. right. unfold hex4. cbn [append].
    eexists _, _, _, _, _, c. split_and!; [done | by apply decode_hex4 | by eapply Hlow].
  - right. right. destruct (surrogate_pair c) as ([Hs1 _] & Hhigh & _); [lia|].
    unfold hex4 at 1. cbn [append].
    eexists _, _, _, _, _, _.
    split_and!; [done | by apply decode_hex4 | by apply high_not_low].
Qed.

(** Decoding undoes the escaping of a string that holds no surrogate
    pair. *)
Lemma scanstring_escape begin s rest :
  round_trips s = true →
  scanstring begin (escape s +:+ String quote rest) = Scanned s rest.
Proof.
  unfold round_trips. induction s as [|c s IH]; [done|].
  intros [Hstr Hpair]%andb_true_iff.
  cbn [is_str] in Hstr. apply andb_true_iff in Hstr as [Hc%N.ltb_lt Hstr].
  assert (Hs : no_surrogate_pair s = true).
  { destruct s; [done|]. cbn [no_surrogate_pair] in Hpair.
    by apply andb_true_iff in Hpair as [_ ?]. }
  assert (Hnext : is_high_surrogate c = true →
                  ∀ c' s', s = String c' s' → is_low_surrogate c' = false).
  { intros Hhigh c' s' ->. cbn [no_surrogate_pair] in Hpair.
    apply andb_true_iff in Hpair as [Hpair _]. rewrite Hhigh in Hpair.
    by destruct (is_low_surrogate c'). }
  specialize (IH (proj2 (andb_true_iff _ _) (conj Hstr Hs))).
  cbn [escape]. rewrite append_assoc.
  pose proof (escape_closed_nonempty s rest) as Hne.
  destruct (escape_char_cases c Hc)
    as [(esc & -> & Hesc & Hun) | [(-> & Hq & Hb & H31) | [(Hc' & ->) | (Hc' & ->)]]].
  - cbn [append]. by rewrite (scanstring_simple_escape _ _ c), IH.
  - cbn [append]. by rewrite scanstring_plain, IH.
  - unfold hex4. cbn [append].
    rewrite (scanstring_single _ _ _ _ _ c), IH; [done | by apply decode_hex4 | done |].
    destruct (is_high_surrogate c) eqn:Hhigh; [right|by left].
    apply escape_head; [done | by apply Hnext].
  - destruct (surrogate_pair c) as ([Hs1 Hs2] & Hhigh & Hlow & Hjoin); [lia|].
    unfold hex4. cbn [append].
    rewrite (scanstring_pair _ _ _ _ _ _ _ _ _ _ _ _
               (decode_hex4 _ Hs1) (decode_hex4 _ Hs2) Hhigh Hlow Hne).
    by rewrite Hjoin, IH.
Qed.

(** ** Objects *)

Local Arguments scan_once : simpl never.
Local Arguments parse_members : simpl never.
Local Arguments parse_items : simpl never.
Local Arguments scanstring : simpl never.

Ltac skip_ws :=
  cbn [skip_whitespace is_json_whitespace N.eqb Pos.eqb orb quote ord backslash
       newline].

Lemma scan_once_string depth rest :
  scan_once (S depth) (String quote rest) =
    scan_map JString (scanstring (S (len rest)) rest).
Proof. reflexivity. Qed.

Lemma scan_once_object depth rest :
  scan_once (S depth) (String 123%N (String quote rest)) =
    parse_members depth (String quote rest) [].
Proof. reflexivity. Qed.

Lemma scan_once_array depth c rest :
  c ≠ 93%N → is_json_whitespace c = false →
  scan_once (S depth) (String 91%N (String c rest)) =
    parse_items depth (String c rest) [].
Proof.
  intros Hc Hw. unfold scan_once. cbn [skip_whitespace]. rewrite Hw.
  change (91 =? quote)%N with false. change (91 =? ord "{")%N with false.
  change (91 =? ord "[")%N with true. cbv iota.
  change (ord "]") with 93%N. by rewrite (proj2 (N.eqb_neq _ _) Hc).
Qed.

Lemma parse_members_quote depth rest pairs :
  parse_members (S depth) (String quote rest) pairs =
    match scanstring (S (len rest)) rest with
    | Scanned key s1 =>
        match skip_whitespace s1 with
        | EmptyString => Failed "Expecting ':' delimiter" 0
        | String c2 s3 as s2 =>
            if (c2 =? ord ":")%N then
              match scan_once depth (skip_whitespace s3) with
              | Scanned value s5 =>
                  match skip_whitespace s5 with
                  | EmptyString => Failed "Expecting ',' delimiter" 0
                  | String c6 s7 as s6 =>
                      if (c6 =? ord "}")%N
                      then Scanned (JObject (pairs ++ [(key, value)])) s7
                      else if (c6 =? ord ",")%N
                      then parse_members depth (skip_whitespace s7)
                                         (pairs ++ [(key, value)])
                      else Failed "Expecting ',' delimiter" (len s6)
                  end
              | Failed msg remaining => Failed msg remaining
              | TooDeep => TooDeep
              end
            else Failed "Expecting ':' delimiter" (len s2)
        end
    | Failed msg remaining => Failed msg remaining
    | TooDeep => TooDeep
    end.
Proof. reflexivity. Qed.

Lemma parse_items_S depth s items :
  parse_items (S depth) s items =
    match scan_once depth s with
    | Scanned value s1 =>
        match skip_whitespace s1 with
        | EmptyString => Failed "Expecting ',' delimiter" 0
        | String c2 s3 as s2 =>
            if (c2 =? ord "]")%N then Scanned (JArray (items ++ [value])) s3
            else if (c2 =? ord ",")%N
            then parse_items depth (skip_whitespace s3) (items ++ [value])
            else Failed "Expecting ',' delimiter" (len s2)
        end
    | Failed msg remaining => Failed msg remaining
    | TooDeep => TooDeep
    end.
Proof. reflexivity. Qed.

(** The text of the members, from the first opening quote on. *)
Lemma dump_members_cons k v items t :
  dump_members ((k, v) :: items) +:+ t =
    String quote (escape k +:+ String quote (String 58%N (String 32%N (String quote
      (escape v +:+ String quote
         match items with
         | [] => t
         | _ :: _ => String 44%N (String 32%N (dump_members items +:+ t))
         end))))).
Proof.
  destruct items as [|kv items].
  - change (dump_members [(k, v)])
      with (py_encode_basestring_ascii k +:+ ": " +:+ py_encode_basestring_ascii v).
    unfold py_encode_basestring_ascii. by norm_append.
  - change (dump_members ((k, v) :: kv :: items))
      with (py_encode_basestring_ascii k +:+ ": " +:+ py_encode_basestring_ascii v
            +:+ ", " +:+ dump_members (kv :: items)).
    unfold py_encode_basestring_ascii. by norm_append.
Qed.

Lemma parse_members_step depth k v more pairs :
  round_trips k = true → round_trips v = true →
  parse_members (S (S depth))
    (String quote (escape k +:+ String quote (String 58%N (String 32%N (String quote
       (escape v +:+ String quote more)))))) pairs =
    match skip_whitespace more with
    | EmptyString => Failed "Expecting ',' delimiter" 0
    | String c6 s7 as s6 =>
        if (c6 =? ord "}")%N
        then Scanned (JObject (pairs ++ [(k, JString v)])) s7
        else if (c6 =? ord ",")%N
        then parse_members (S depth) (skip_whitespace s7) (pairs ++ [(k, JString v)])
        else Failed "Expecting ',' delimiter" (len s6)
    end.
Proof.
  intros Hk Hv. rewrite parse_members_quote, scanstring_escape by done.
  skip_ws. cbv iota.
  by rewrite scan_once_string, scanstring_escape.
Qed.

Lemma parse_members_dump items :
  ∀ k v depth pairs rest,
    length items < depth →
    round_trips k = true → round_trips v = true → items_round_trip items →
    parse_members (S depth)
      (String quote (escape k +:+ String quote (String 58%N (String 32%N (String quote
         (escape v +:+ String quote
            match items with
            | [] => String 125%N rest
            | _ :: _ => String 44%N (String 32%N (dump_members items +:+ String 125%N rest))
            end)))))) pairs
    = Scanned (JObject (pairs ++ (k, JString v) :: members_of items)) rest.
Proof.
  induction items as [|[k' v'] items IH]; intros k v depth pairs rest Hdepth Hk Hv Hitems.
  - destruct depth as [|depth]; [simpl in Hdepth; lia|].
    by rewrite parse_members_step.
  - destruct depth as [|depth]; [simpl in Hdepth; lia|].
    apply Forall_cons in Hitems as [[Hk' Hv'] Hitems].
    rewrite parse_members_step, dump_members_cons by done.
    skip_ws. cbv iota. rewrite IH by (done || simpl in Hdepth; lia).
    by rewrite <- app_assoc.
Qed.

Lemma len_dump_members items t :
  length items ≤ len (dump_members items +:+ t).
Proof.
  revert t. induction items as [|[k v] items IH]; intros t; [simpl; lia|].
  rewrite dump_members_cons. cbn [len]. rewrite !len_append. cbn [len].
  rewrite !len_append. cbn [len]. destruct items as [|kv items]; [simpl; lia|].
  cbn [len]. specialize (IH t). simpl in IH. simpl. lia.
Qed.

(** Scanning the dump of a dictionary gives its members and what follows
    the closing brace. *)
Lemma scan_once_dumps items depth rest :
  length items < depth →
  items_round_trip items →
  scan_once (S depth) (json_dumps items +:+ rest) =
    Scanned (JObject (members_of items)) rest.
Proof.
  intros Hdepth Hitems. unfold json_dumps. norm_append.
  destruct items as [|[k v] items]; [by norm_append|].
  apply Forall_cons in Hitems as [[Hk Hv] Hitems].
  rewrite dump_members_cons, scan_once_object.
  destruct depth as [|depth]; [simpl in Hdepth; lia|].
  rewrite parse_members_dump; [done | simpl in Hdepth; lia | done..].
Qed.

Lemma json_dumps_cons items rest :
  json_dumps items +:+ rest =
    String 123%N (dump_members items +:+ String 125%N rest).
Proof. unfold json_dumps. by norm_append. Qed.

(** Decoding the dump of a dictionary, followed by white space, gives the
    dictionary back. *)
Lemma json_loads_dumps items rest :
  items_round_trip items →
  skip_whitespace rest = EmptyString →
  json_loads (json_dumps items +:+ rest) = Ok (JObject (members_of items)).
Proof.
  intros Hitems Hrest. unfold json_loads.
  pose proof (scan_once_dumps items (S (2 * len (json_dumps items +:+ rest))) rest)
    as Hscan.
  pose proof (len_dump_members items (String 125%N rest)) as Hlen.
  rewrite json_dumps_cons in *. cbv iota. skip_ws.
  change (2 + 2 * ?n) with (S (S (2 * n))).
  rewrite Hscan, Hrest; [done | cbn [len]; lia | done].
Qed.

(** ** The text that is written *)

Lemma printable_hex_digit d : (d < 16)%N → printable_char (hex_digit d) = true.
Proof.
  intros Hd. unfold printable_char, hex_digit.
  destruct (N.ltb_spec d 10); apply andb_true_iff; split; apply N.leb_le; lia.
Qed.

Lemma printable_hex4 n : printable (hex4 n) = true.
Proof.
  unfold hex4. cbn [printable].
  rewrite !printable_hex_digit by (apply N.mod_lt; lia). done.
Qed.

Lemma printable_append (s t : str) :
  printable (s +:+ t) = printable s && printable t.
Proof.
  induction s as [|c s IH]; norm_append; simpl; [done|].
  by rewrite IH, andb_assoc.
Qed.

Lemma printable_escape_char (c : N) : printable (escape_char c) = true.
Proof.
  unfold escape_char.
  repeat (case_match; [reflexivity|]).
  destruct ((32 <=? c)%N && (c <=? 126)%N) eqn:Hc.
  { cbn [printable]. unfold printable_char. rewrite Hc. reflexivity. }
  case_match.
  - cbn [printable append]. by rewrite printable_hex4.
  - cbn [printable append]. rewrite printable_append. cbn [printable append].
    by rewrite !printable_hex4.
Qed.

Lemma printable_escape (s : str) : printable (escape s) = true.
Proof.
  induction s as [|c s IH]; [done|].
  simpl escape. by rewrite printable_append, printable_escape_char, IH.
Qed.

Lemma printable_encode (s : str) :
  printable (py_encode_basestring_ascii s) = true.
Proof.
  unfold py_encode_basestring_ascii. cbn [printable].
  by rewrite printable_append, printable_escape.
Qed.

Lemma printable_dump_members items : printable (dump_members items) = true.
Proof.
  induction items as [|[k v] items IH]; [done|].
  destruct items as [|kv items].
  - change (dump_members [(k, v)])
      with (py_encode_basestring_ascii k +:+ ": " +:+ py_encode_basestring_ascii v).
    by rewrite !printable_append, !printable_encode.
  - change (dump_members ((k, v) :: kv :: items))
      with (py_encode_basestring_ascii k +:+ ": " +:+ py_encode_basestring_ascii v
            +:+ ", " +:+ dump_members (kv :: items)).
    by rewrite !printable_append, !printable_encode, IH.
Qed.

Lemma printable_json_dumps items : printable (json_dumps items) = true.
Proof.
  unfold json_dumps. by rewrite !printable_append, printable_dump_members.
Qed.

Lemma printable_not_newline (c : N) :
  printable_char c = true →
  (c =? newline)%N = false ∧ (c =? carriage_return)%N = false.
Proof.
  unfold printable_char, newline, carriage_return.
  intros [H1%N.leb_le H2]%andb_true_iff. split; apply N.eqb_neq; lia.
Qed.

Lemma translate_newlines_printable (p t : str) :
  printable p = true →
  translate_newlines (p +:+ String newline t) =
    p +:+ String newline (translate_newlines t).
Proof.
  induction p as [|c p IH]; intros Hp; [done|].
  simpl in Hp. apply andb_true_iff in Hp as [Hc Hp].
  destruct (printable_not_newline c Hc) as [_ Hcr].
  norm_append. cbn [translate_newlines]. by rewrite Hcr, IH.
Qed.

Lemma readlines_printable (p t : str) :
  printable p = true →
  readlines (p +:+ String newline t) =
    (p +:+ String newline EmptyString) :: readlines t.
Proof.
  induction p as [|c p IH]; intros Hp; [done|].
  simpl in Hp. apply andb_true_iff in Hp as [Hc Hp].
  destruct (printable_not_newline c Hc) as [Hnl _].
  norm_append. cbn [readlines]. by rewrite Hnl, IH.
Qed.

Lemma strip_nonempty c s :
  py_isspace c = false → ∃ c' s', strip (String c s) = String c' s'.
Proof.
  intros Hc. unfold strip. cbn [lstrip]. rewrite Hc. cbn [rstrip].
  destruct (rstrip s); [rewrite Hc|]; eauto.
Qed.

Lemma strip_json_dumps items t :
  ∃ c s, strip (json_dumps items +:+ t) = String c s.
Proof. rewrite json_dumps_cons. by apply strip_nonempty. Qed.

(** ** [write_fables] then [read_prompts] *)

Lemma load_written_line items written failure :
  items_round_trip items →
  load_lines (readlines (translate_newlines
                (json_dumps items +:+ String newline written))) failure =
    rest ← load_lines (readlines (translate_newlines written)) failure;
    Ok (JObject (members_of items) :: rest).
Proof.
  intros Hitems.
  rewrite translate_newlines_printable by apply printable_json_dumps.
  rewrite readlines_printable by apply printable_json_dumps.
  cbn [load_lines].
  destruct (strip_json_dumps items (String newline EmptyString)) as (c & s & ->).
  by rewrite json_loads_dumps.
Qed.

Lemma project_has_fields fable :
  has_fields fable → values_round_trip fable →
  ∃ output, project fable fields = Ok output ∧
            items_round_trip output ∧
            JObject (members_of output) = fable_object fable.
Proof.
  intros Hf Hv.
  destruct (Hf "model") as [a Ha]; [set_solver|].
  destruct (Hf "prompt") as [b Hb]; [set_solver|].
  destruct (Hf "fable") as [c Hc]; [set_solver|].
  exists [("model", a); ("prompt", b); ("fable", c)]. split_and!.
  - unfold fields, project, dict_item. by rewrite Ha, Hb, Hc.
  - repeat (apply Forall_cons; split; [split; [done|]|]); [..|apply Forall_nil];
      cbn [snd].
    + apply (Hv "model"); [set_solver | done].
    + apply (Hv "prompt"); [set_solver | done].
    + apply (Hv "fable"); [set_solver | done].
    + done.
  - unfold fable_object, fields. cbn [omap list_omap]. by rewrite Ha, Hb, Hc.
Qed.

Lemma write_then_load fables :
  Forall has_fields fables → Forall values_round_trip fables →
  ∃ text,
    write_fables_jsonl fables = (text, Ok tt) ∧
    load_lines (readlines (translate_newlines text)) None =
      Ok (fable_object <$> fables).
Proof.
  induction 1 as [|fable fables Hf _ IH]; intros Hv.
  - by exists EmptyString.
  - apply Forall_cons in Hv as [Hv Hvs].
    destruct (IH Hvs) as (text & Hw & Hl).
    destruct (project_has_fields fable Hf Hv) as (output & Hout & Hitems & Hobj).
    exists (json_dumps output +:+ String newline text). split.
    + cbn [write_fables_jsonl]. by rewrite Hout, Hw.
    + rewrite load_written_line, Hl by done. cbn. by rewrite Hobj.
Qed.

(** C9 (amended).  Writing fable records whose strings hold no high
    surrogate followed at once by a low surrogate as JSONL, and reading the
    lines back with [read_prompts], gives as many records, each with
    exactly the keys model, prompt and fable, bound to the same strings. *)
Theorem jsonl_round_trip filename (fables : list (gmap str str)) :
  Forall has_fields fables →
  Forall values_round_trip fables →
  ∃ text,
    write_fables_jsonl fables = (text, Ok tt) ∧
    ∀ files : FileSystem,
      files filename = Ok (Text text) →
      ∃ records,
        read_prompts files filename = ([], Ok records) ∧
        length records = length fables ∧
        records = fable_object <$> fables.
Proof.
  intros Hf Hv. destruct (write_then_load fables Hf Hv) as (text & Hw & Hl).
  exists text. split; [done|]. intros files Hfile.
  exists (fable_object <$> fables). split_and!; [|by rewrite length_fmap|done].
  unfold read_prompts. rewrite Hfile. cbn [file_lines]. by rewrite Hl.
Qed.

Lemma has_fields_fable_record model prompt fable :
  has_fields (fable_record model prompt fable).
Proof.
  intros field Hin. unfold fields in Hin.
  apply elem_of_cons in Hin as [->|Hin]; [by eexists|].
  apply elem_of_cons in Hin as [->|Hin]; [by eexists|].
  apply list_elem_of_singleton in Hin as ->. by eexists.
Defined.

Lemma values_round_trip_fable_record model prompt fable :
  round_trips model = true → round_trips prompt = true →
  round_trips fable = true →
  values_round_trip (fable_record model prompt fable).
Proof.
  intros Hm Hp Hf field text Hin. unfold fields in Hin.
  apply elem_of_cons in Hin as [->|Hin]; [by intros [= <-]|].
  apply elem_of_cons in Hin as [->|Hin]; [by intros [= <-]|].
  apply list_elem_of_singleton in Hin as ->. by intros [= <-].
Defined.

Lemma jsonl_round_trip_witness :
  ∃ text,
    write_fables_jsonl [tale; fable_record "Mistral" "Write a fable." "The end."]
      = (text, Ok tt) ∧
    ∀ files : FileSystem,
      files "fables.jsonl" = Ok (Text text) →
      ∃ records,
        read_prompts files "fables.jsonl" = ([], Ok records) ∧
        length records = 2 ∧
        records =
          fable_object <$> [tale; fable_record "Mistral" "Write a fable." "The end."].
Proof.
  apply (jsonl_round_trip "fables.jsonl"
           [tale; fable_record "Mistral" "Write a fable." "The end."]).
  - repeat (constructor; [apply has_fields_fable_record|]). constructor.
  - repeat (constructor; [by apply values_round_trip_fable_record|]). constructor.
Defined.

(** The text written for [tale], and what is read back from it. *)
Lemma tale_written :
  write_fables_jsonl [tale] =
    (line ("{" +:+ py_encode_basestring_ascii "model" +:+ ": "
           +:+ py_encode_basestring_ascii "Llama" +:+ ", "
           +:+ py_encode_basestring_ascii "prompt" +:+ ": "
           +:+ py_encode_basestring_ascii "Write a fable." +:+ ", "
           +:+ py_encode_basestring_ascii "fable" +:+ ": "
           +:+ String quote
                 ("Once" +:+ String backslash (String quote
                  ("upon" +:+ String backslash
                  ("na" +:+ String backslash (String backslash
                  ("time" +:+ String backslash
                  ("u00e9" +:+ String backslash
                  ("u2019" +:+ String backslash
                  ("ud83d" +:+ String backslash
                  ("ude00" +:+ String backslash
                  ("ud83d" +:+ String quote "}")))))))))))),
     Ok tt).
Proof. vm_compute. reflexivity. Qed.

(** C9 as stated fails for a fable whose text is a high surrogate followed
    by a low surrogate, as two deltas of a stream leave them: both are
    written as [\ud83d\ude00], which is read back as the one character
    U+1F600. *)
Lemma jsonl_joins_surrogates :
  has_fields surrogates ∧
  ∃ text,
    write_fables_jsonl [surrogates] = (text, Ok tt) ∧
    read_prompts (single_file "fables.jsonl" text) "fables.jsonl" =
      ([], Ok [fable_object smiley]) ∧
    fable_object smiley ≠ fable_object surrogates.
Proof.
  split; [apply has_fields_fable_record|].
  eexists. split_and!; [reflexivity | by vm_compute | by vm_compute].
Qed.

(** ** [write_fables], the jsonl format *)

Lemma project_missing (fable : gmap str str) :
  ¬ has_fields fable →
  ∃ field, field ∈ fields ∧ fable !! field = None ∧
    project fable fields = Raise (Exn KeyError ("'" +:+ field +:+ "'")).
Proof.
  intros Hnot. unfold fields, project, dict_item.
  destruct (fable !! "model") as [a|] eqn:Ha.
  2: { exists "model". split_and!; [by left | done | done]. }
  destruct (fable !! "prompt") as [b|] eqn:Hb.
  2: { exists "prompt". split_and!; [right; by left | done | done]. }
  destruct (fable !! "fable") as [c|] eqn:Hc.
  2: { exists "fable". split_and!; [right; right; by left | done | done]. }
  destruct Hnot. intros field Hin.
  apply elem_of_cons in Hin as [->|Hin]; [by eexists|].
  apply elem_of_cons in Hin as [->|Hin]; [by eexists|].
  apply list_elem_of_singleton in Hin as ->. by eexists.
Qed.

Lemma project_total fable :
  has_fields fable → ∃ output, project fable fields = Ok output.
Proof.
  intros Hf.
  destruct (Hf "model") as [a Ha]; [set_solver|].
  destruct (Hf "prompt") as [b Hb]; [set_solver|].
  destruct (Hf "fable") as [c Hc]; [set_solver|].
  exists [("model", a); ("prompt", b); ("fable", c)].
  unfold fields, project, dict_item. by rewrite Ha, Hb, Hc.
Qed.



(** X23.  Whatever the texts of the records, the jsonl output is printable
    ASCII, one line per record written: no newline, control character or
    character above 126 of a fable reaches the output unescaped. *)
Theorem write_fables_lines fables :
  ∃ lines,
    (write_fables_jsonl fables).1 = join (line <$> lines) ∧
    Forall (fun text => printable text = true) lines ∧
    length lines ≤ length fables ∧
    ((write_fables_jsonl fables).2 = Ok tt → length lines = length fables).
Proof.
  induction fables as [|fable fables (lines & Htext & Hprintable & Hle & Hlen)].
  - exists []. by split_and!.
  - cbn [write_fables_jsonl].
    destruct (project fable fields) as [output|e] eqn:Hout.
    + destruct (write_fables_jsonl fables) as [written r]. cbn [fst snd] in *.
      exists (json_dumps output :: lines). split_and!.
      * rewrite Htext. cbn [fmap list_fmap]. unfold line, join. cbn [foldr].
        by norm_append.
      * constructor; [apply printable_json_dumps | done].
      * simpl. lia.
      * intros Hr. simpl. by rewrite Hlen.
    + exists []. simpl. split_and!; [done | done | lia | done].
Qed.

(** ** [write_output], the jsonl format *)

Lemma printable_prompt_pair system_prompt template :
  printable (prompt_pair system_prompt template) = true.
Proof.
  unfold prompt_pair. by rewrite !printable_append, !printable_json_dumps.
Qed.

(** X24.  [write_output] writes one line per template, each a JSON array
    that repeats the system prompt, in printable ASCII: read back as a
    text file, the output has exactly these lines.  With no template
    nothing is written, the system prompt included. *)
Theorem write_output_lines system_prompt fable_templates :
  readlines (translate_newlines (write_output_jsonl system_prompt fable_templates)) =
    (fun template => line (prompt_pair system_prompt template)) <$> fable_templates ∧
  Forall (fun template => printable (prompt_pair system_prompt template) = true)
         fable_templates ∧
  (fable_templates = [] →
   write_output_jsonl system_prompt fable_templates = EmptyString).
Proof.
  split_and!; [| |by intros ->].
  - induction fable_templates as [|template rest IH]; [done|].
    cbn [write_output_jsonl fmap list_fmap].
    rewrite translate_newlines_printable by apply printable_prompt_pair.
    rewrite readlines_printable by apply printable_prompt_pair.
    by rewrite IH.
  - apply Forall_forall. intros template _. apply printable_prompt_pair.
Qed.

Lemma prompt_pair_content system_prompt template t :
  ∃ prefix,
    prompt_pair system_prompt template +:+ t =
      prefix +:+ escape template +:+ String quote (String 125%N (String 93%N t)) ∧
    ∀ template' t',
      prompt_pair system_prompt template' +:+ t' =
        prefix +:+ escape template' +:+ String quote (String 125%N (String 93%N t')).
Proof.
  exists ("[" +:+ json_dumps [("prompt_type", "system_prompt"); ("content", system_prompt)]
          +:+ ", {" +:+ py_encode_basestring_ascii "prompt_type" +:+ ": "
          +:+ py_encode_basestring_ascii "generator_prompt" +:+ ", "
          +:+ py_encode_basestring_ascii "content" +:+ ": " +:+ String quote EmptyString).
  split; [|intros template' t'];
    unfold prompt_pair, json_dumps, dump_members, py_encode_basestring_ascii;
    by norm_append.
Qed.

Lemma append_inv_l (p s t : str) : p +:+ s = p +:+ t → s = t.
Proof.
  induction p as [|c p IH]; norm_append; [done|]. intros [= H]. by apply IH.
Qed.

(** X25.  Nothing of a template that holds no surrogate pair is lost in
    the jsonl output: two lists of such templates that give the same
    output are the same list. *)
Theorem write_output_injective system_prompt templates templates' :
  Forall (fun template => round_trips template = true) templates →
  Forall (fun template => round_trips template = true) templates' →
  write_output_jsonl system_prompt templates =
    write_output_jsonl system_prompt templates' →
  templates = templates'.
Proof.
  intros Hts. revert templates'.
  induction Hts as [|template rest Ht _ IH]; intros [|template' rest'] Hts';
    cbn [write_output_jsonl].
  - done.
  - unfold prompt_pair. norm_append. done.
  - unfold prompt_pair. norm_append. done.
  - apply Forall_cons in Hts' as [Ht' Hts'].
    destruct (prompt_pair_content system_prompt template
                (String newline (write_output_jsonl system_prompt rest)))
      as (prefix & -> & Hother).
    rewrite Hother. intros Heq%append_inv_l.
    pose proof (scanstring_escape 0 template
      (String 125%N (String 93%N (String newline (write_output_jsonl system_prompt rest))))
      Ht) as Hscan.
    rewrite Heq, scanstring_escape in Hscan by done. injection Hscan as -> Hrest.
    f_equal. by apply IH.
Qed.

Lemma write_output_injective_witness :
  write_output_jsonl "You write fables." (fable_prompts (one_prompt [])) =
    write_output_jsonl "You write fables." ["A fox."] ∧
  fable_prompts (one_prompt []) = ["A fox."].
Proof.
  split; [reflexivity|].
  apply (write_output_injective "You write fables." (fable_prompts (one_prompt []))
           ["A fox."]); [by repeat constructor.. |].
  reflexivity.
Defined.

(** Without the condition two templates can be written alike: a high
    surrogate followed by a low one, and the character they encode. *)
Lemma write_output_merges_surrogates :
  write_output_jsonl "You write fables." [of_codes [55357; 56832]%N] =
  write_output_jsonl "You write fables." [of_codes [128512]%N].
Proof. vm_compute. reflexivity. Qed.

(** ** Reading the output of [write_output] *)

Lemma json_loads_prompt_pair system_prompt template rest :
  round_trips system_prompt = true → round_trips template = true →
  skip_whitespace rest = EmptyString →
  json_loads (prompt_pair system_prompt template +:+ rest) =
    Ok (JArray [JObject [("prompt_type", JString "system_prompt");
                         ("content", JString system_prompt)];
                JObject [("prompt_type", JString "generator_prompt");
                         ("content", JString template)]]).
Proof.
  intros Hsp Ht Hrest. unfold json_loads, prompt_pair. norm_append.
  cbv iota. skip_ws.
  change (2 + 2 * ?n) with (S (S (2 * n))).
  remember (2 * len _) as depth eqn:Hdepth.
  assert (6 ≤ depth) as Hd.
  { subst depth. cbn [len]. rewrite len_append. cbn [len]. lia. }
  clear Hdepth.
  do 6 (destruct depth as [|depth]; [lia|]). clear Hd.
  rewrite json_dumps_cons, scan_once_array by done.
  rewrite <- json_dumps_cons, parse_items_S, scan_once_dumps;
    [|cbn [length]; lia | by repeat constructor].
  rewrite json_dumps_cons. skip_ws. cbv iota.
  rewrite <- json_dumps_cons, parse_items_S, scan_once_dumps;
    [|cbn [length]; lia | by repeat constructor].
  skip_ws. cbv iota. by rewrite Hrest.
Qed.

(** * The [--generate-fables] branch of [main] *)

(** ** The validation of the models *)

Lemma lookup_model_key (available_models : AvailableModels) model_name :
  model_name ∈ available_models.*1 →
  is_Some (lookup_model available_models model_name).
Proof.
  induction available_models as [|[key cfg] rest IH]; simpl.
  - by intros ?%not_elem_of_nil.
  - intros Hin. destruct (decide (key = model_name)); [by eexists|].
    apply IH. apply elem_of_cons in Hin as [?|?]; [congruence | done].
Qed.

Lemma lookup_model_Some (available_models : AvailableModels) model_name cfg :
  lookup_model available_models model_name = Some cfg →
  (model_name, cfg) ∈ available_models.
Proof.
  induction available_models as [|[key c] rest IH]; simpl; [done|].
  destruct (decide (key = model_name)) as [->|].
  - intros [= ->]. by left.
  - intros H. right. by apply IH.
Qed.

Lemma elem_of_invalid_models available_models models m :
  m ∈ invalid_models available_models models ↔
  m ∈ models ∧ lookup_model available_models m = None.
Proof. unfold invalid_models. rewrite list_elem_of_filter. tauto. Qed.

Lemma invalid_models_nil available_models models :
  invalid_models available_models models = [] ↔
  ∀ m, m ∈ models → is_Some (lookup_model available_models m).
Proof.
  split.
  - intros Hnil m Hm.
    destruct (lookup_model available_models m) eqn:Hl; [by eexists|].
    assert (m ∈ invalid_models available_models models) as Hin
      by by apply elem_of_invalid_models.
    rewrite Hnil in Hin. by apply not_elem_of_nil in Hin.
  - intros Hall. apply elem_of_nil_inv. intros m Hm.
    apply elem_of_invalid_models in Hm as [Hm Hnone].
    destruct (Hall m Hm) as [cfg Hcfg]. congruence.
Qed.

(** X2.  Without [--models] every configured model is used, in the order
    of the configuration, and the validation of the model names cannot
    fail. *)
Theorem all_models_by_default available_models args :
  args_models args = None →
  select_models available_models args = available_models.*1 ∧
  invalid_models available_models (select_models available_models args) = [].
Proof.
  intros Hnone. unfold select_models. rewrite Hnone. split; [done|].
  apply invalid_models_nil. intros m. apply lookup_model_key.
Qed.

Lemma all_models_by_default_witness :
  select_models two_models run_args = ["llama"; "mistral"] ∧
  invalid_models two_models (select_models two_models run_args) = [].
Proof. apply (all_models_by_default two_models run_args). reflexivity. Defined.

Lemma lookup_model_None (available_models : AvailableModels) model_name :
  lookup_model available_models model_name = None ↔
  model_name ∉ available_models.*1.
Proof.
  split.
  - intros Hnone Hin. apply lookup_model_key in Hin as [cfg Hcfg]. congruence.
  - intros Hnot. destruct (lookup_model available_models model_name) as [cfg|] eqn:Hl;
      [|done].
    destruct Hnot. apply lookup_model_Some in Hl.
    apply list_elem_of_fmap. by exists (model_name, cfg).
Qed.

(** X3.  A request for a model that is not configured is rejected with a
    [ConfigError] that lists exactly the requested names that are no key of
    the configuration, in the order of the request, and this happens before
    the prompt file is opened: the outcome is the same for every file
    system. *)
Theorem unknown_models_rejected files available_models args requested unknown :
  available_models ≠ [] →
  args_models args = Some requested →
  unknown ∈ requested →
  unknown ∉ available_models.*1 →
  prepare files available_models args =
    ([], Raise (Exn ConfigError
                  ("Invalid models: " +:+
                   comma_join (filter (fun m => m ∉ available_models.*1) requested)))).
Proof.
  intros Hmodels Hargs Hin Hunknown.
  assert (invalid_models available_models requested
          = filter (fun m => m ∉ available_models.*1) requested) as Hfilter.
  { unfold invalid_models. apply list_filter_iff. intros m.
    apply lookup_model_None. }
  assert (unknown ∈ invalid_models available_models requested) as Hinv.
  { apply elem_of_invalid_models. split; [done|]. by apply lookup_model_None. }
  unfold prepare. destruct available_models as [|kv rest]; [done|].
  assert (select_models (kv :: rest) args = requested) as ->.
  { unfold select_models. rewrite Hargs. destruct requested; [|done].
    by apply not_elem_of_nil in Hin. }
  rewrite <- Hfilter.
  destruct (invalid_models (kv :: rest) requested); [|done].
  by apply not_elem_of_nil in Hinv.
Qed.

Lemma unknown_models_rejected_witness :
  prepare story_files two_models
    {| args_generate_fables := "prompts.jsonl";
       args_models := Some ["llama"; "phi"; "mistral"; "gemma"] |} =
    ([], Raise (Exn ConfigError "Invalid models: phi, gemma")).
Proof.
  apply (unknown_models_rejected story_files two_models
           {| args_generate_fables := "prompts.jsonl";
              args_models := Some ["llama"; "phi"; "mistral"; "gemma"] |}
           ["llama"; "phi"; "mistral"; "gemma"] "phi").
  - done.
  - done.
  - apply (bool_decide_unpack _). by vm_compute.
  - apply (bool_decide_unpack _). by vm_compute.
Defined.

(** ** The prompts *)

Lemma Py_bind_Ok {A B} (m : Py A) (k : A → Py B) records (b : B) :
  m ≫= k = (records, Ok b) →
  ∃ l1 a l2, m = (l1, Ok a) ∧ k a = (l2, Ok b) ∧ records = l1 ++ l2.
Proof.
  destruct m as [l1 [a|e]]; simpl; [|done].
  destruct (k a) as [l2 r] eqn:Hk. intros [= <- ->]. by exists l1, a, l2.
Qed.

Lemma first_system_prompt_none prompts :
  Forall prompt_record prompts →
  (∀ p, p ∈ prompts → ¬ system_record p) →
  first_system_prompt prompts = Ok None.
Proof.
  induction 1 as [|p prompts (members & t & -> & Ht & _) _ IH]; intros Hno; [done|].
  cbn [first_system_prompt subscript]. rewrite Ht. cbn [mbind exc_bind].
  destruct (equals_str t "system_prompt") eqn:He.
  - destruct (Hno (JObject members)); [by left|].
    exists t. split; [|done]. cbn [subscript]. by rewrite Ht.
  - apply IH. intros p' Hp'. apply Hno. by right.
Qed.

Lemma generator_prompts_total prompts :
  Forall prompt_record prompts →
  ∃ fable_prompts, generator_prompts prompts = Ok fable_prompts.
Proof.
  induction 1 as [|p prompts (members & t & -> & Ht & Hc) _ (more & IH)];
    [by eexists|].
  cbn [generator_prompts subscript]. rewrite Ht. cbn [mbind exc_bind].
  destruct (equals_str t "generator_prompt"); [|by eexists].
  destruct Hc as [c Hc]; [done|]. rewrite Hc, IH. by eexists.
Qed.

(** C10 (amended).  When the models are valid and the prompt file is read
    as records that are objects with a [prompt_type] (and with a [content]
    when the type is "generator_prompt"), none of them with [prompt_type]
    equal to "system_prompt", the branch raises
    [ConfigError("No system prompt found in prompt file.")]; [main] logs it
    and leaves with exit code 1 before it creates the result list or
    starts any thread. *)
Theorem no_system_prompt_exits files available_models args records prompts :
  available_models ≠ [] →
  invalid_models available_models (select_models available_models args) = [] →
  read_prompts files (args_generate_fables args) = (records, Ok prompts) →
  Forall prompt_record prompts →
  (∀ p, p ∈ prompts → ¬ system_record p) →
  prepare files available_models args =
    (records, Raise (Exn ConfigError "No system prompt found in prompt file.")) ∧
  main_prologue files available_models args =
    (records ++ [(ERROR, "Configuration error: No system prompt found in prompt file.")],
     inl 1%Z).
Proof.
  intros Hmodels Hvalid Hread Hrec Hno.
  assert (prepare files available_models args =
            (records, Raise (Exn ConfigError "No system prompt found in prompt file.")))
    as Hprep.
  { unfold prepare. destruct available_models as [|m ms]; [done|].
    rewrite Hvalid, Hread. cbn [mbind Py_bind lift].
    rewrite (first_system_prompt_none prompts Hrec Hno).
    destruct (generator_prompts_total prompts Hrec) as (fable_prompts & ->).
    cbn. by rewrite !app_nil_r. }
  split; [done|]. unfold main_prologue. by rewrite Hprep.
Qed.

Lemma read_prompt_file :
  read_prompts prompt_files "prompts.jsonl" =
    ([], Ok [JObject [("prompt_type", JString "generator_prompt");
                      ("content", JString "Write a fable.")]]).
Proof. vm_compute. reflexivity. Defined.

Lemma no_system_prompt_exits_witness :
  prepare prompt_files two_models run_args =
    ([], Raise (Exn ConfigError "No system prompt found in prompt file.")) ∧
  main_prologue prompt_files two_models run_args =
    ([(ERROR, "Configuration error: No system prompt found in prompt file.")],
     inl 1%Z).
Proof.
  apply (no_system_prompt_exits prompt_files two_models run_args []
           [JObject [("prompt_type", JString "generator_prompt");
                     ("content", JString "Write a fable.")]]).
  - done.
  - vm_compute. reflexivity.
  - apply read_prompt_file.
  - constructor; [|constructor]. eexists _, _. split_and!; [done | done |].
    intros _. by eexists.
  - intros p Hp. apply list_elem_of_singleton in Hp as ->.
    intros (t & [= <-] & Ht). by vm_compute in Ht.
Defined.

(** C10 as stated fails for a file of fable records: no record has a
    [prompt_type] equal to "system_prompt", and the branch ends with the
    [KeyError] of [p['prompt_type']], which [main] reports as an
    unexpected error, not with the [ConfigError]. *)
Lemma fable_file_raises_key_error :
  invalid_models two_models (select_models two_models run_args) = [] ∧
  (∃ prompts,
     read_prompts fables_as_prompts "prompts.jsonl" = ([], Ok prompts) ∧
     ∀ p, p ∈ prompts → ¬ system_record p) ∧
  prepare fables_as_prompts two_models run_args =
    ([], Raise (Exn KeyError "'prompt_type'")) ∧
  main_prologue fables_as_prompts two_models run_args =
    ([(ERROR, "Unexpected error: 'prompt_type'")], inl 1%Z).
Proof.
  split_and!; [by vm_compute | | by vm_compute | by vm_compute].
  eexists. split; [by vm_compute|].
  intros p Hp. apply list_elem_of_singleton in Hp as ->.
  intros (t & Ht & _). by vm_compute in Ht.
Qed.

Lemma first_system_prompt_Some prompts content :
  first_system_prompt prompts = Ok (Some content) →
  ∃ p, first_system_record prompts p ∧ subscript p "content" = Ok content.
Proof.
  induction prompts as [|q prompts IH]; [done|].
  cbn [first_system_prompt].
  destruct (subscript q "prompt_type") as [t|] eqn:Ht; [|done]. cbn [mbind exc_bind].
  destruct (equals_str t "system_prompt") eqn:He.
  - destruct (subscript q "content") as [c|] eqn:Hc; [|done]. cbn [mbind exc_bind].
    intros [= ->].
    exists q. split; [|done]. exists [], prompts. split_and!; [done | by exists t |].
    apply Forall_nil. done.
  - intros (p & (before & after & -> & Hp & Hbefore) & Hc)%IH.
    exists p. split; [|done]. exists (q :: before), after. split_and!; [done | done |].
    apply Forall_cons. split; [by exists t | done].
Qed.

Lemma first_system_prompt_found prompts p content :
  first_system_record prompts p →
  subscript p "content" = Ok content →
  first_system_prompt prompts = Ok (Some content).
Proof.
  intros (before & after & -> & (t & Ht & He) & Hbefore) Hc.
  induction Hbefore as [|q before (t' & Ht' & He') _ IH]; cbn [app first_system_prompt].
  - rewrite Ht. cbn [mbind exc_bind]. rewrite He, Hc. done.
  - rewrite Ht'. cbn [mbind exc_bind]. by rewrite He'.
Qed.

Lemma generator_contents_cons p prompts :
  generator_contents (p :: prompts) =
    match subscript p "prompt_type", subscript p "content" with
    | Ok prompt_type, Ok content =>
        if equals_str prompt_type "generator_prompt"
        then content :: generator_contents prompts
        else generator_contents prompts
    | _, _ => generator_contents prompts
    end.
Proof.
  unfold generator_contents. cbn [omap list_omap].
  destruct (subscript p "prompt_type"), (subscript p "content"); try done.
  by destruct (equals_str _ _).
Qed.

Lemma generator_prompts_Ok prompts contents :
  generator_prompts prompts = Ok contents →
  contents = generator_contents prompts.
Proof.
  revert contents. induction prompts as [|p prompts IH]; intros contents.
  - by intros [= <-].
  - cbn [generator_prompts]. rewrite generator_contents_cons.
    destruct (subscript p "prompt_type") as [t|] eqn:Ht; [|done].
    cbn [mbind exc_bind].
    destruct (equals_str t "generator_prompt") eqn:He.
    + destruct (subscript p "content") as [c|] eqn:Hc; [|done]. cbn [mbind exc_bind].
      destruct (generator_prompts prompts) as [more|e] eqn:Hmore; [|done].
      cbn [mbind exc_bind]. intros [= <-]. f_equal. by apply IH.
    + intros Hrest. destruct (subscript p "content"); by apply IH.
Qed.

(** X4.  When the validation succeeds, the dispatcher is handed the
    selected models, all of them configured; as system prompt the content,
    which is not empty, of the first record of type "system_prompt" (later
    ones are ignored); and as fable prompts the contents of the records of
    type "generator_prompt", in file order. *)
Theorem prepare_hands_over files available_models args records d :
  prepare files available_models args = (records, Ok d) →
  ∃ prompts p,
    read_prompts files (args_generate_fables args) = (records, Ok prompts) ∧
    prepared_models d = select_models available_models args ∧
    (∀ m, m ∈ prepared_models d → is_Some (lookup_model available_models m)) ∧
    first_system_record prompts p ∧
    subscript p "content" = Ok (prepared_system_prompt d) ∧
    truthy (prepared_system_prompt d) = true ∧
    prepared_system_prompt d ≠ JString EmptyString ∧
    prepared_prompts d = generator_contents prompts.
Proof.
  unfold prepare. destruct available_models as [|kv rest]; [done|].
  destruct (invalid_models (kv :: rest) (select_models (kv :: rest) args))
    eqn:Hvalid; [|done].
  intros (l1 & prompts & l2 & Hread & Hrest & ->)%Py_bind_Ok.
  apply Py_bind_Ok in Hrest as (l3 & sp & l4 & Hsp & Hrest & ->).
  apply Py_bind_Ok in Hrest as (l5 & fps & l6 & Hfps & Hrest & ->).
  unfold lift in Hsp, Hfps. injection Hsp as <- Hsp. injection Hfps as <- Hfps.
  destruct sp as [content|]; [|done].
  destruct (truthy content) eqn:Htruthy; [|done].
  injection Hrest as <- <-.
  cbn [prepared_system_prompt prepared_models prepared_prompts].
  rewrite !app_nil_r.
  apply first_system_prompt_Some in Hsp as (p & Hp & Hc).
  exists prompts, p. split_and!; try done.
  - exact (proj1 (invalid_models_nil (kv :: rest) _) Hvalid).
  - by intros ->.
  - by apply generator_prompts_Ok.
Qed.

Lemma prepare_story :
  prepare story_files two_models run_args =
    ([], Ok {| prepared_system_prompt := JString "You write fables.";
               prepared_models := ["llama"; "mistral"];
               prepared_prompts := [JString "A fox."; JString "A hare."] |}).
Proof. vm_compute. reflexivity. Defined.

Lemma prepare_hands_over_witness :
  ∃ prompts p,
    read_prompts story_files "prompts.jsonl" = ([], Ok prompts) ∧
    ["llama"; "mistral"] = select_models two_models run_args ∧
    (∀ m, m ∈ ["llama"; "mistral"] → is_Some (lookup_model two_models m)) ∧
    first_system_record prompts p ∧
    subscript p "content" = Ok (JString "You write fables.") ∧
    truthy (JString "You write fables.") = true ∧
    JString "You write fables." ≠ JString EmptyString ∧
    [JString "A fox."; JString "A hare."] = generator_contents prompts.
Proof. apply (prepare_hands_over story_files two_models run_args [] _ prepare_story). Defined.

(** The dispatch of the threads for the prompts of the example. *)
Lemma dispatch_story :
  dispatch_of {| prepared_system_prompt := JString "You write fables.";
                 prepared_models := ["llama"; "mistral"];
                 prepared_prompts := [JString "A fox."; JString "A hare."] |} =
    Some {| system_prompt := "You write fables.";
            models_to_use := ["llama"; "mistral"];
            fable_prompts := ["A fox."; "A hare."] |}.
Proof. reflexivity. Qed.

(** X5.  An empty system prompt counts as none: when the first record of
    type "system_prompt" has the content "" (or another value that is
    false: [null], [0], [[]]), the run ends with the configuration error
    and exit status 1, whatever system prompts follow it in the file. *)
Theorem empty_system_prompt_exits files available_models args records prompts p
    content :
  available_models ≠ [] →
  invalid_models available_models (select_models available_models args) = [] →
  read_prompts files (args_generate_fables args) = (records, Ok prompts) →
  Forall prompt_record prompts →
  first_system_record prompts p →
  subscript p "content" = Ok content →
  truthy content = false →
  prepare files available_models args =
    (records, Raise (Exn ConfigError "No system prompt found in prompt file.")) ∧
  main_prologue files available_models args =
    (records ++ [(ERROR, "Configuration error: No system prompt found in prompt file.")],
     inl 1%Z).
Proof.
  intros Hne Hvalid Hread Hrec Hp Hc Hfalse.
  assert (prepare files available_models args =
    (records, Raise (Exn ConfigError "No system prompt found in prompt file.")))
    as Hprepare.
  { unfold prepare. destruct available_models as [|kv rest]; [done|].
    rewrite Hvalid, Hread. cbn [mbind Py_bind lift].
    rewrite (first_system_prompt_found prompts p content Hp Hc).
    destruct (generator_prompts_total prompts Hrec) as [fps ->].
    cbn. rewrite Hfalse. cbn. by rewrite !app_nil_r. }
  split; [done|]. unfold main_prologue. by rewrite Hprepare.
Qed.

Lemma empty_system_prompt_exits_witness :
  prepare story_files two_models (args_for "empty_system.jsonl") =
    ([], Raise (Exn ConfigError "No system prompt found in prompt file.")) ∧
  main_prologue story_files two_models (args_for "empty_system.jsonl") =
    ([] ++ [(ERROR, "Configuration error: No system prompt found in prompt file.")],
     inl 1%Z).
Proof.
  apply (empty_system_prompt_exits story_files two_models
           (args_for "empty_system.jsonl") []
           [JObject [("prompt_type", JString "system_prompt");
                     ("content", JString EmptyString)];
            JObject [("prompt_type", JString "system_prompt");
                     ("content", JString "Too late.")];
            JObject [("prompt_type", JString "generator_prompt");
                     ("content", JString "A hare.")]]
           (JObject [("prompt_type", JString "system_prompt");
                     ("content", JString EmptyString)])
           (JString EmptyString)).
  - done.
  - vm_compute. reflexivity.
  - vm_compute. reflexivity.
  - repeat (constructor;
            [eexists _, _; split_and!; [done | done | intros _; by eexists]|]).
    constructor.
  - eexists [], _. split_and!; [reflexivity | by eexists | by apply Forall_nil].
  - done.
  - done.
Defined.

Lemma first_system_prompt_untyped prompts :
  Forall (fun p => is_object p = true) prompts →
  (∃ content, first_system_prompt prompts = Ok content) ∨
  (∃ key, key ∈ ["prompt_type"; "content"] ∧
     first_system_prompt prompts = Raise (Exn KeyError ("'" +:+ key +:+ "'"))).
Proof.
  induction 1 as [|q prompts Hq _ IH]; [left; by eexists|].
  destruct q as [| | | | |?|members]; try done.
  cbn [first_system_prompt subscript].
  destruct (dict_get members "prompt_type") as [t|].
  - cbn [mbind exc_bind]. destruct (equals_str t "system_prompt"); [|done].
    destruct (dict_get members "content"); cbn [mbind exc_bind].
    + left. by eexists.
    + right. exists "content". split; [|done]. apply elem_of_cons. right. by left.
  - right. exists "prompt_type". split; [by left | done].
Qed.

Lemma generator_prompts_untyped prompts members :
  Forall (fun p => is_object p = true) prompts →
  JObject members ∈ prompts → dict_get members "prompt_type" = None →
  ∃ key, key ∈ ["prompt_type"; "content"] ∧
    generator_prompts prompts = Raise (Exn KeyError ("'" +:+ key +:+ "'")).
Proof.
  intros Hobj Hin Hp.
  induction Hobj as [|q prompts Hq _ IH]; [by apply not_elem_of_nil in Hin|].
  destruct q as [| | | | |?|members']; try done.
  cbn [generator_prompts subscript].
  destruct (dict_get members' "prompt_type") as [t|] eqn:Ht.
  - assert (JObject members ∈ prompts) as Hin'.
    { apply elem_of_cons in Hin as [[= ->]|Hin]; [congruence | done]. }
    destruct (IH Hin') as (key & Hkey & ->). cbn [mbind exc_bind].
    destruct (equals_str t "generator_prompt"); [|by exists key].
    destruct (dict_get members' "content"); cbn [mbind exc_bind].
    + by exists key.
    + exists "content". split; [|done]. apply elem_of_cons. right. by left.
  - exists "prompt_type". split; [by left | done].
Qed.

(** X6.  A record of the prompt file without a "prompt_type" key, at any
    position among records that are objects, ends the run: the lookup
    raises KeyError (for that key, or for the "content" of an earlier
    record), which [main] reports as an unexpected error, and the exit
    status is 1. *)
Theorem untyped_record_exits files available_models args records prompts members :
  available_models ≠ [] →
  invalid_models available_models (select_models available_models args) = [] →
  read_prompts files (args_generate_fables args) = (records, Ok prompts) →
  Forall (fun p => is_object p = true) prompts →
  JObject members ∈ prompts →
  dict_get members "prompt_type" = None →
  ∃ key, key ∈ ["prompt_type"; "content"] ∧
    prepare files available_models args =
      (records, Raise (Exn KeyError ("'" +:+ key +:+ "'"))) ∧
    main_prologue files available_models args =
      (records ++ [(ERROR, "Unexpected error: '" +:+ key +:+ "'")], inl 1%Z).
Proof.
  intros Hne Hvalid Hread Hobj Hin Hp.
  assert (∃ key, key ∈ ["prompt_type"; "content"] ∧
            prepare files available_models args =
              (records, Raise (Exn KeyError ("'" +:+ key +:+ "'"))))
    as (key & Hkey & Hprepare).
  { unfold prepare. destruct available_models as [|kv rest]; [done|].
    rewrite Hvalid, Hread. cbn [mbind Py_bind lift].
    destruct (first_system_prompt_untyped prompts Hobj)
      as [[content ->]|(key & Hkey & ->)].
    - destruct (generator_prompts_untyped prompts members Hobj Hin Hp)
        as (key & Hkey & ->).
      exists key. split; [done|]. cbn. by rewrite !app_nil_r.
    - exists key. split; [done|]. cbn. by rewrite !app_nil_r. }
  exists key. split_and!; [done | done |].
  unfold main_prologue. rewrite Hprepare. unfold exit_record. cbn [exn_cls exn_str].
  by norm_append.
Qed.

Lemma untyped_record_exits_witness :
  ∃ key, key ∈ ["prompt_type"; "content"] ∧
    prepare story_files two_models (args_for "untyped.jsonl") =
      ([], Raise (Exn KeyError ("'" +:+ key +:+ "'"))) ∧
    main_prologue story_files two_models (args_for "untyped.jsonl") =
      ([] ++ [(ERROR, "Unexpected error: '" +:+ key +:+ "'")], inl 1%Z).
Proof.
  apply (untyped_record_exits story_files two_models (args_for "untyped.jsonl") []
           [JObject [("prompt_type", JString "system_prompt");
                     ("content", JString "You write fables.")];
            JObject [("content", JString "A hare.")]]
           [("content", JString "A hare.")]).
  - done.
  - vm_compute. reflexivity.
  - vm_compute. reflexivity.
  - by repeat constructor.
  - apply elem_of_cons. right. by left.
  - by vm_compute.
Defined.

(** * The dispatcher *)

Lemma lookup_middle_ne {A} (before after : list A) (x y : A) (i : nat) :
  i ≠ length before →
  (before ++ x :: after) !! i = (before ++ y :: after) !! i.
Proof.
  intros Hi. destruct (decide (i < length before)).
  - by rewrite !lookup_app_l.
  - rewrite !lookup_app_r by lia.
    destruct (i - length before) as [|m] eqn:Hm; [lia | done].
Qed.

Lemma worker_step_not_finished i j sh pc2 sh' :
  ¬ worker_step i j Finished sh pc2 sh'.
Proof. inversion 1. Qed.

Lemma collected_jobs_app (l1 l2 : list Worker) :
  collected_jobs (l1 ++ l2) = collected_jobs l1 ++ collected_jobs l2.
Proof.
  induction l1 as [|wk l1 IH]; [done|]. simpl.
  destruct (appended (pc wk) && has_base_url (job wk)); simpl; by rewrite IH.
Qed.

Lemma collected_jobs_finished (workers : list Worker) :
  (∀ wk, wk ∈ workers → pc wk = Finished) →
  collected_jobs workers = filter (fun j => has_base_url j) (job <$> workers).
Proof.
  induction workers as [|wk workers IH]; intros Hall; [done|].
  cbn [collected_jobs fmap list_fmap]. rewrite filter_cons.
  rewrite (Hall wk) by (by left). cbn [appended andb].
  rewrite IH by (intros wk' Hwk'; apply Hall; by right).
  by destruct (has_base_url (job wk)).
Qed.

Lemma unfinished_worker (workers : list Worker) :
  (∀ wk, wk ∈ workers → pc wk = Finished) ∨
  (∃ i wk, workers !! i = Some wk ∧ pc wk ≠ Finished).
Proof.
  induction workers as [|wk workers [IH|(i & wk' & Hi & Hwk')]].
  - left. by intros wk ?%not_elem_of_nil.
  - destruct (pc wk) eqn:Hpc.
    7: { left. intros wk' [->|Hwk']%elem_of_cons; [done | by apply IH]. }
    all: right; exists 0, wk; split; [done | by rewrite Hpc].
  - right. by exists (S i), wk'.
Qed.

Lemma filter_cons_bool {A} (f : A → bool) (x : A) (l : list A) :
  filter (fun y => f y) (x :: l) =
    if f x then x :: filter (fun y => f y) l else filter (fun y => f y) l.
Proof. rewrite filter_cons. by destruct (f x). Qed.

Section DispatcherProofs.
Variable available_models : AvailableModels.
Variable d : Dispatch.

Local Abbreviation step := (step available_models d).
Local Abbreviation sound := (sound available_models d).
Local Abbreviation jobs_for := (jobs_for available_models d).
Local Abbreviation configured := (configured available_models).

Lemma logged_nil sh : logged [] sh = sh.
Proof. destruct sh. unfold logged. simpl. by rewrite app_nil_r. Qed.

(** Every step decreases the measure. *)
Lemma worker_step_measure i j pc1 sh pc2 sh' :
  worker_step i j pc1 sh pc2 sh' → worker_measure pc2 < worker_measure pc1.
Proof. destruct 1; simpl; lia. Qed.

Lemma measure_step s s' :
  step s s' → measure d s' < measure d s.
Proof.
  destruct 1 as
    [s m ms cfg name Hpc Hcfg Hname | s m ms Hpc Hcfg | s m ms cfg e0 Hpc Hcfg Hname
    | s m cfg p ps ms Hpc | s m cfg ms Hpc | s Hpc | s k wk Hpc Hk Hfin
    | s k Hpc Hk | s before j pc1 pc2 after sh Hthreads Hw];
    unfold measure; simpl; rewrite ?Hpc; simpl.
  - lia.
  - lia.
  - lia.
  - rewrite sum_list_with_app, length_app. simpl. lia.
  - lia.
  - lia.
  - apply lookup_lt_Some in Hk. lia.
  - apply lookup_ge_None in Hk. lia.
  - rewrite Hthreads, !sum_list_with_app, !length_app. simpl.
    apply worker_step_measure in Hw. lia.
Qed.

(** A worker that is not finished moves, unless it waits for the lock. *)
Lemma worker_progress i j pc1 sh :
  pc1 ≠ Finished →
  (∀ fable, pc1 = Acquire fable → lock sh = None) →
  ∃ pc2 sh', worker_step i j pc1 sh pc2 sh'.
Proof.
  intros Hfin Hlock. destruct pc1 as [|fable|fable| | |e|].
  - destruct (config_item (job_model_config j) "base_url") as [base_url|e] eqn:Hurl.
    + destruct (generate_fable_total offline (job_system_prompt j)
                  (job_prompt j) base_url) as (records & text & Hgen).
      eexists _, _. by eapply step_generate.
    + eexists _, _. by apply step_no_base_url.
  - eexists _, _. apply step_acquire. by eapply Hlock.
  - destruct (config_item (job_model_config j) "name") as [name|e] eqn:Hname.
    + eexists _, _. by eapply step_append.
    + eexists _, _. by apply step_no_name.
  - eexists _, _. apply step_release.
  - eexists _, _. apply step_log_info.
  - eexists _, _. apply step_handle.
  - done.
Qed.

Lemma worker_at s i wk :
  threads s !! i = Some wk →
  pc wk ≠ Finished →
  (∀ fable, pc wk = Acquire fable → lock (shared s) = None) →
  ∃ s', step s s'.
Proof.
  intros Hi Hfin Hlock.
  apply list_elem_of_split_length in Hi as (before & after & Hthreads & ->).
  destruct wk as [j pc1]. simpl in *.
  destruct (worker_progress (length before) j pc1 (shared s) Hfin Hlock)
    as (pc2 & sh' & Hw).
  eexists. by eapply worker_moves.
Qed.

(** The lock is a mutual exclusion: at most one worker is inside the
    [with lock:] block. *)
Lemma mutex_step s s' : mutex s → step s s' → mutex s'.
Proof.
  intros Hmx Hstep.
  destruct Hstep as
    [s m ms cfg name Hpc Hcfg Hname | s m ms Hpc Hcfg | s m ms cfg e0 Hpc Hcfg Hname
    | s m cfg p ps ms Hpc | s m cfg ms Hpc | s Hpc | s k wk Hpc Hk Hfin
    | s k Hpc Hk | s before j pc1 pc2 after sh Hthreads Hw];
    try exact Hmx.
  - (* a thread starts *)
    intros i wk Hi Hholds. simpl in *.
    apply lookup_app_Some in Hi as [Hi|[_ Hi]]; [by apply (Hmx i wk)|].
    apply list_lookup_singleton_Some in Hi as [_ <-]. done.
  - (* a worker moves *)
    unfold mutex in *. rewrite Hthreads in Hmx. simpl.
    pose proof (Hmx (length before) {| job := j; pc := pc1 |}
                  (list_lookup_middle _ _ _ _ eq_refl)) as Hself. simpl in Hself.
    intros i wk Hi Hholds. destruct (decide (i = length before)) as [->|Hne].
    + rewrite list_lookup_middle in Hi by done. injection Hi as <-. simpl in Hholds.
      inversion Hw; subst; simpl in *; try done. by apply Hself.
    + rewrite (lookup_middle_ne _ _ _ {| job := j; pc := pc1 |}) in Hi by done.
      specialize (Hmx i wk Hi Hholds).
      inversion Hw; subst; simpl in *; try done; try congruence.
      * specialize (Hself I). congruence.
      * specialize (Hself I). congruence.
Qed.

Lemma sound_initial : sound (initial d).
Proof. split; simpl; done. Qed.

Lemma sound_main_step s m' records :
  sound s →
  ((∀ e, m' ≠ Crashed e) →
   (∀ e, main_pc s ≠ Crashed e) ∧
   pending available_models d m' = pending available_models d (main_pc s)) →
  main_sound available_models d m' (threads s) →
  sound {| main_pc := m'; threads := threads s;
           shared := logged records (shared s) |}.
Proof.
  intros [Hj Hm Hw Hf Hr Hl] Hj' Hm'. split; simpl; [|done..].
  intros Hnc. destruct (Hj' Hnc) as [Hnc' ->]. by apply Hj.
Qed.

Lemma sound_step s s' : sound s → step s s' → sound s'.
Proof.
  intros Hinv Hstep.
  destruct Hstep as
    [s m ms cfg name Hpc Hcfg Hname | s m ms Hpc Hcfg | s m ms cfg e0 Hpc Hcfg Hname
    | s m cfg p ps ms Hpc | s m cfg ms Hpc | s Hpc | s k wk Hpc Hk Hfin
    | s k Hpc Hk | s before j pc1 pc2 after sh Hthreads Hw].
  - (* the next model *)
    pose proof (sound_main _ _ _ Hinv) as Hm. rewrite Hpc in Hm. simpl in Hm.
    apply sound_main_step; [done | |].
    + intros _. rewrite Hpc. split; [done|]. simpl. by rewrite Hcfg.
    + simpl. split; [by eexists | by eapply suffix_cons_l].
  - (* a model without configuration *)
    pose proof (sound_main _ _ _ Hinv) as Hm. rewrite Hpc in Hm. simpl in Hm.
    rewrite <- (logged_nil (shared s)).
    apply sound_main_step; [done | |].
    + intros Hnc. by destruct (Hnc (Exn KeyError ("'" +:+ m +:+ "'"))).
    + exists m. split; [|by left].
      destruct Hm as [l ->]. apply elem_of_app. right. by left.
  - (* a configuration without name *)
    pose proof (sound_main _ _ _ Hinv) as Hm. rewrite Hpc in Hm. simpl in Hm.
    rewrite <- (logged_nil (shared s)).
    apply sound_main_step; [done | |].
    + intros Hnc. by destruct (Hnc e0).
    + exists m. split; [|right; by exists cfg].
      destruct Hm as [l ->]. apply elem_of_app. right. by left.
  - (* a thread starts *)
    destruct Hinv as [Hj Hm Hws Hf Hr Hl]. rewrite Hpc in Hj, Hm. simpl in Hj, Hm.
    split; simpl.
    + intros _. rewrite fmap_app, <- app_assoc. by apply Hj.
    + done.
    + apply Forall_app. split; [done|]. apply Forall_singleton.
      split; [by destruct Hm|]. simpl.
      destruct (config_item cfg "base_url"); [done | by left].
    + by rewrite collected_jobs_app, app_nil_r.
    + done.
    + intros i Hi. destruct (Hl i Hi) as (wk & Hwk & Hholds).
      exists wk. split; [|done]. by apply lookup_app_l_Some.
  - (* the prompts of a model are exhausted *)
    rewrite <- (logged_nil (shared s)).
    pose proof (sound_main _ _ _ Hinv) as Hm. rewrite Hpc in Hm. simpl in Hm.
    apply sound_main_step; [done | | by destruct Hm].
    intros _. by rewrite Hpc.
  - (* all threads are started *)
    rewrite <- (logged_nil (shared s)).
    apply sound_main_step; [done | |].
    + intros _. by rewrite Hpc.
    + simpl. intros; lia.
  - (* one more thread is joined *)
    rewrite <- (logged_nil (shared s)).
    pose proof (sound_main _ _ _ Hinv) as Hm. rewrite Hpc in Hm. simpl in Hm.
    apply sound_main_step; [done | |].
    + intros _. by rewrite Hpc.
    + simpl. intros i wk' Hi Hwk'. destruct (decide (i = k)) as [->|].
      * congruence.
      * apply (Hm i); [lia | done].
  - (* all threads are joined *)
    rewrite <- (logged_nil (shared s)).
    pose proof (sound_main _ _ _ Hinv) as Hm. rewrite Hpc in Hm. simpl in Hm.
    apply sound_main_step; [done | |].
    + intros _. by rewrite Hpc.
    + simpl. intros wk [i Hi]%list_elem_of_lookup. apply (Hm i); [|done].
      apply lookup_lt_Some in Hi. apply lookup_ge_None in Hk. lia.
  - (* a worker moves *)
    destruct Hinv as [Hj Hm Hws Hf Hr Hl]. rewrite Hthreads in *.
    apply Forall_app in Hws as [Hbefore Hws].
    apply Forall_cons in Hws as [[Hname Hurl] Hafter]. simpl in Hname, Hurl.
    split; simpl.
    + by rewrite fmap_app, fmap_cons in *.
    + destruct (main_pc s) as [| | k | |] eqn:Hpc; simpl in *; try done.
      * intros i wk Hi Hwk. destruct (decide (i = length before)) as [->|Hne].
        -- specialize (Hm _ _ Hi (list_lookup_middle _ _ _ _ eq_refl)).
           simpl in Hm. subst pc1. by apply worker_step_not_finished in Hw.
        -- rewrite (lookup_middle_ne _ _ _ {| job := j; pc := pc1 |}) in Hwk by done.
           by apply (Hm i).
      * specialize (Hm {| job := j; pc := pc1 |}). simpl in Hm.
        rewrite Hm in Hw by (apply elem_of_app; right; by left).
        by apply worker_step_not_finished in Hw.
    + apply Forall_app. split; [done|]. apply Forall_cons. split; [|done].
      split; [done|]. simpl.
      destruct (config_item (job_model_config j) "base_url") as [url|e'] eqn:Hu.
      * intros e ->. inversion Hw; subst.
        -- destruct (generate_fable_total w (job_system_prompt j) (job_prompt j)
                       base_url) as (r & t & Ht). congruence.
        -- congruence.
        -- destruct Hname as [n Hn]. congruence.
      * destruct Hurl as [-> | [-> | ->]]; inversion Hw; subst;
          (congruence || (right; left; f_equal; congruence) || (right; by right)).
    + rewrite collected_jobs_app in *. cbn [collected_jobs pc job] in *.
      unfold has_base_url in *.
      destruct (config_item (job_model_config j) "base_url") as [url|e'] eqn:Hu.
      * rewrite !andb_true_r in *.
        inversion Hw; subst; simpl in *; try done;
          try (exfalso; by eapply Hurl).
        rewrite fmap_app, !fmap_app, fmap_cons in *. simpl.
        rewrite Hf. unfold record_key, job_key, config_get, fable_record. simpl.
        rewrite lookup_insert_eq, lookup_insert_ne, lookup_insert_eq by done.
        match goal with H : config_item _ "name" = Ok _ |- _ => rewrite H end.
        etrans; [symmetry; apply Permutation_cons_append | apply Permutation_middle].
      * rewrite !andb_false_r in *.
        destruct Hurl as [-> | [-> | ->]]; inversion Hw; subst; simpl; congruence.
    + inversion Hw; subst; simpl in *; try done.
      apply Forall_app. split; [done|]. apply Forall_singleton.
      unfold fable_record, fields. rewrite !dom_insert_L, dom_empty_L. set_solver.
    + intros i Hi.
      destruct (decide (i = length before)) as [->|Hne].
      * exists {| job := j; pc := pc2 |}.
        split; [by apply list_lookup_middle|]. simpl.
        inversion Hw; subst; simpl in *; try done;
          destruct (Hl _ Hi) as (wk & Hwk & Hholds);
          rewrite list_lookup_middle in Hwk by done; by simplify_eq.
      * rewrite (lookup_middle_ne _ _ _ {| job := j; pc := pc1 |}) by done.
        apply Hl. inversion Hw; subst; simpl in *; try done.
        by simplify_eq.
Qed.

Lemma sound_reachable s : reachable available_models d s → sound s.
Proof.
  intros Hr.
  apply (rtc_ind_r (R := step) (fun s => sound s) (initial d)); [| | exact Hr].
  - apply sound_initial.
  - intros s1 s2 _ Hstep IH. by eapply sound_step.
Qed.

Lemma mutex_reachable s : reachable available_models d s → mutex s.
Proof.
  intros Hr.
  apply (rtc_ind_r (R := step) (fun s => mutex s) (initial d)); [| | exact Hr].
  - intros k wk0 Hk. done.
  - intros s1 s2 _ Hstep IH. by eapply mutex_step.
Qed.

Lemma unfinished_worker_moves s i wk :
  sound s → threads s !! i = Some wk → pc wk ≠ Finished → ∃ s', step s s'.
Proof.
  intros Hinv Hi Hfin.
  destruct (lock (shared s)) as [h|] eqn:Hlock.
  - destruct (sound_lock _ _ _ Hinv h Hlock) as (wk' & Hh & Hholds).
    eapply worker_at; [exact Hh | |];
      destruct (pc wk'); simpl in Hholds; done.
  - eapply worker_at; [exact Hi | done | done].
Qed.

(** The process moves until it has come to rest. *)
Lemma sound_progress s : sound s → final s ∨ ∃ s', step s s'.
Proof.
  intros Hinv. unfold final.
  destruct (main_pc s) as [[|m ms]|m cfg [|p ps] ms|k| |e] eqn:Hpc.
  - right. eexists. by apply main_all_started.
  - right. destruct (lookup_model available_models m) as [cfg|] eqn:Hcfg.
    + destruct (config_item cfg "name") as [name|e] eqn:Hname.
      * eexists. by eapply main_next_model.
      * eexists. by eapply main_no_name.
    + eexists. by eapply main_no_model.
  - right. eexists. by eapply main_model_done.
  - right. eexists. by eapply main_start_thread.
  - right. destruct (threads s !! k) as [wk|] eqn:Hk.
    + destruct (pc wk) as [|fable|fable| | |e|] eqn:Hwk.
      7: { eexists. by eapply main_join. }
      all: eapply unfinished_worker_moves; [done | exact Hk | by rewrite Hwk].
    + eexists. by eapply main_joined.
  - left. pose proof (sound_main _ _ _ Hinv) as Hm. by rewrite Hpc in Hm.
  - destruct (unfinished_worker (threads s)) as [Hall|(i & wk & Hi & Hwk)].
    + by left.
    + right. by eapply unfinished_worker_moves.
Qed.

Lemma final_stuck s s' : final s → ¬ step s s'.
Proof.
  unfold final. intros Hfinal Hstep.
  destruct Hstep as
    [s m ms cfg name Hpc Hcfg Hname | s m ms Hpc Hcfg | s m ms cfg e0 Hpc Hcfg Hname
    | s m cfg p ps ms Hpc | s m cfg ms Hpc | s Hpc | s k wk Hpc Hk Hfin
    | s k Hpc Hk | s before j pc1 pc2 after sh Hthreads Hw];
    try (by rewrite Hpc in Hfinal).
  assert (pc1 = Finished) as ->.
  { destruct (main_pc s); try done;
      apply (Hfinal {| job := j; pc := pc1 |});
      rewrite Hthreads; apply elem_of_app; right; by left. }
  by apply worker_step_not_finished in Hw.
Qed.

Lemma final_lock_free s : sound s → final s → lock (shared s) = None.
Proof.
  intros Hinv Hfinal. destruct (lock (shared s)) as [h|] eqn:Hlock; [|done].
  destruct (sound_lock _ _ _ Hinv h Hlock) as (wk & Hh & Hholds).
  apply list_elem_of_lookup_2 in Hh. unfold final in Hfinal.
  destruct (main_pc s); try done; rewrite (Hfinal wk Hh) in Hholds; done.
Qed.

Lemma sound_completes (n : nat) :
  ∀ s, measure d s < n → sound s → ∃ s', rtc step s s' ∧ sound s' ∧ final s'.
Proof.
  induction n as [|n IH]; intros s Hn Hinv; [lia|].
  destruct (sound_progress s Hinv) as [Hfinal|(s1 & Hstep)]; [by exists s|].
  destruct (IH s1) as (s' & Hrun & Hs' & Hfinal).
  { pose proof (measure_step _ _ Hstep). lia. }
  { by eapply sound_step. }
  exists s'. split; [by eapply rtc_l | done].
Qed.

Lemma nsteps_measure n s s' :
  nsteps step n s s' → n + measure d s' ≤ measure d s.
Proof.
  induction 1 as [|n s1 s2 s3 Hstep _ IH]; [lia|].
  pose proof (measure_step _ _ Hstep). lia.
Qed.

Lemma step_grows s s' :
  step s s' →
  all_fables (shared s) `prefix_of` all_fables (shared s') ∧
  log (shared s) `prefix_of` log (shared s') ∧
  (job <$> threads s) `prefix_of` (job <$> threads s').
Proof.
  destruct 1 as
    [s m ms cfg name Hpc Hcfg Hname | s m ms Hpc Hcfg | s m ms cfg e0 Hpc Hcfg Hname
    | s m cfg p ps ms Hpc | s m cfg ms Hpc | s Hpc | s k wk Hpc Hk Hfin
    | s k Hpc Hk | s before j pc1 pc2 after sh Hthreads Hw]; simpl;
    try (split_and!; (done || by eexists)).
  - split_and!; [done | done |]. rewrite fmap_app. by eexists.
  - rewrite Hthreads, !fmap_app, !fmap_cons. simpl.
    split_and!; [| | done]; inversion Hw; subst; simpl; (done || by eexists).
Qed.

Lemma joined_collects s :
  reachable available_models d s →
  main_pc s = Joined →
  record_key <$> all_fables (shared s)
    ≡ₚ job_key <$> filter (fun j => has_base_url j) (jobs_for (models_to_use d)) ∧
  Forall (fun record => dom record = list_to_set fields) (all_fables (shared s)).
Proof.
  intros Hr Hpc. destruct (sound_reachable s Hr) as [Hj Hm Hws Hf Hrec Hl].
  rewrite Hpc in Hj, Hm. simpl in Hj, Hm.
  rewrite app_nil_r in Hj. rewrite <- Hj by done.
  by rewrite <- collected_jobs_finished.
Qed.

Lemma filter_new_jobs model_name model_config prompts :
  filter (fun j => has_base_url j) (new_job d model_name model_config <$> prompts) =
    match config_item model_config "base_url" with
    | Ok _ => new_job d model_name model_config <$> prompts
    | Raise _ => []
    end.
Proof.
  induction prompts as [|p prompts IH].
  - by destruct (config_item model_config "base_url").
  - cbn [fmap list_fmap]. rewrite (filter_cons_bool has_base_url), IH.
    unfold has_base_url, new_job. cbn [job_model_config].
    by destruct (config_item model_config "base_url").
Qed.

Lemma length_served_jobs models :
  length (filter (fun j => has_base_url j) (jobs_for models)) =
    length (filter (fun m => served available_models m) models) * length (fable_prompts d).
Proof.
  induction models as [|m models IH]; [done|].
  rewrite (filter_cons_bool (served available_models)). unfold served at 1.
  change (jobs_for (m :: models)) with
    (match lookup_model available_models m with
     | Some model_config =>
         (new_job d m model_config <$> fable_prompts d) ++ jobs_for models
     | None => jobs_for models
     end).
  destruct (lookup_model available_models m) as [cfg|]; [|done].
  rewrite filter_app, length_app, IH, filter_new_jobs.
  destruct (config_item cfg "base_url"); [|done].
  cbn [length]. rewrite length_fmap. lia.
Qed.

Lemma configured_served models :
  configured models → filter (fun m => served available_models m) models = models.
Proof.
  induction models as [|m models IH]; intros Hc; [done|].
  rewrite (filter_cons_bool (served available_models)).
  destruct (Hc m) as (cfg & Hcfg & _ & [url Hurl]); [by left|].
  unfold served at 1. rewrite Hcfg, Hurl.
  f_equal. apply IH. intros m' Hm'. apply Hc. by right.
Qed.

Lemma configured_no_crash e :
  configured (models_to_use d) → ¬ crash_cause available_models d e.
Proof.
  intros Hc (m & Hm & Hcause).
  destruct (Hc m Hm) as (cfg & Hcfg & [name Hname] & _).
  destruct Hcause as [[Hnone _]|(cfg' & Hcfg' & Hraise)]; congruence.
Qed.

(** X12.  The lock guards the append: in every state the process can
    reach, under any configuration, a worker is inside the [with lock:]
    block exactly when it is the holder of the lock; so no two workers
    are inside at once, and a worker that leaves the block, normally or by
    an exception, has released the lock. *)
Theorem lock_held_inside_block s i wk :
  reachable available_models d s →
  threads s !! i = Some wk →
  (holds (pc wk) ↔ lock (shared s) = Some i).
Proof.
  intros Hr Hi. split.
  - by apply (mutex_reachable s Hr).
  - intros Hlock.
    destruct (sound_lock _ _ _ (sound_reachable s Hr) i Hlock) as (wk' & Hi' & Hholds).
    congruence.
Qed.

(** X13.  The dispatcher never deadlocks, whatever the configuration:
    from every reachable state the process runs on to a state of rest,
    where the main thread is past the join or has raised, every started
    worker has finished and the lock is free; and from a state of rest
    no step is possible. *)
Theorem dispatch_never_deadlocks s :
  reachable available_models d s →
  ∃ s', rtc step s s' ∧ final s' ∧ lock (shared s') = None ∧
        ∀ s'', ¬ step s' s''.
Proof.
  intros Hr.
  destruct (sound_completes (S (measure d s)) s) as (s' & Hrun & Hs' & Hfinal);
    [lia | by apply sound_reachable |].
  exists s'. split_and!; [done | done | by apply final_lock_free |].
  intros s''. by apply final_stuck.
Qed.

(** X14.  Every run is short: a run of [n] steps from the start has
    [n ≤ |models| * (2 + 7 * |prompts|) + 2], under any configuration and
    any interleaving. *)
Theorem run_length_bounded n s :
  nsteps step n (initial d) s →
  n ≤ length (models_to_use d) * (2 + 7 * length (fable_prompts d)) + 2.
Proof.
  intros Hrun. apply nsteps_measure in Hrun.
  unfold measure in Hrun at 2. simpl in Hrun. lia.
Qed.

(** X15.  A worker whose model configuration has no base URL raises
    KeyError inside its own [try], and the others do not notice: once the
    main thread is past the join, the shared list holds one record for
    each (model, prompt) pair whose model has a base URL and none for the
    other pairs. *)
Theorem joined_collects_served s :
  reachable available_models d s →
  main_pc s = Joined →
  record_key <$> all_fables (shared s)
    ≡ₚ job_key <$> filter (fun j => has_base_url j) (jobs_for (models_to_use d)) ∧
  Forall (fun record => dom record = list_to_set fields) (all_fables (shared s)).
Proof. apply joined_collects. Qed.

(** X16.  The main thread raises inside the loop over the models only
    for a model to use that has no configuration, or for which
    [model_config['name']] raises; the exception is the one of that
    lookup: a [KeyError] when the configuration is a mapping without the
    key, a [TypeError] when it is no mapping. *)
Theorem main_crash_cause s e :
  reachable available_models d s →
  main_pc s = Crashed e →
  crash_cause available_models d e ∧
  (exn_cls e = KeyError ∨ exn_cls e = TypeError).
Proof.
  intros Hr Hpc. pose proof (sound_main _ _ _ (sound_reachable s Hr)) as Hm.
  rewrite Hpc in Hm. split; [done|].
  destruct Hm as (m & _ & [[_ ->]|(cfg & _ & Hraise)]); [by left|].
  destruct cfg as [entries|type_error]; cbn [config_item] in Hraise.
  - unfold dict_item in Hraise. destruct (entries !! "name"); [done|].
    injection Hraise as <-. by left.
  - injection Hraise as <-. by right.
Qed.

(** X17.  Nothing is taken back: along every run the shared list of
    fables, the log and the list of started threads only grow at their
    end. *)
Theorem shared_state_grows s s' :
  rtc step s s' →
  all_fables (shared s) `prefix_of` all_fables (shared s') ∧
  log (shared s) `prefix_of` log (shared s') ∧
  (job <$> threads s) `prefix_of` (job <$> threads s').
Proof.
  induction 1 as [s|s1 s2 s3 Hstep _ (IH1 & IH2 & IH3)]; [done|].
  destruct (step_grows _ _ Hstep) as (H1 & H2 & H3).
  split_and!; by etrans.
Qed.
(** C1 (amended).  After the dispatcher has joined all the threads it
    launched, the shared list holds exactly one record, with the keys
    model, prompt and fable, for each (model, prompt) pair whose model
    configuration has a base URL, and none for the other pairs: as many
    records as there are such models times the prompts, whatever the order
    in which the workers complete.  When every model to use is configured
    with a name and a base URL these are all the models, and every run
    comes to the join. *)
Theorem dispatcher_collects :
  (∀ s, reachable available_models d s → main_pc s = Joined →
     record_key <$> all_fables (shared s)
       ≡ₚ job_key <$> filter (fun j => has_base_url j) (jobs_for (models_to_use d)) ∧
     Forall (fun record => dom record = list_to_set fields)
            (all_fables (shared s)) ∧
     length (all_fables (shared s)) =
       length (filter (fun m => served available_models m) (models_to_use d))
       * length (fable_prompts d)) ∧
  (configured (models_to_use d) →
     filter (fun m => served available_models m) (models_to_use d) = models_to_use d ∧
     ∀ s, reachable available_models d s →
          ∃ s', rtc step s s' ∧ main_pc s' = Joined).
Proof.
  split.
  - intros s Hr Hpc. destruct (joined_collects s Hr Hpc) as [Hperm Hdom].
    split_and!; [done | done |].
    apply Permutation_length in Hperm. rewrite !length_fmap in Hperm.
    by rewrite Hperm, length_served_jobs.
  - intros Hc. split; [by apply configured_served|]. intros s Hr.
    destruct (sound_completes (S (measure d s)) s) as (s' & Hrun & Hs' & Hfinal);
      [lia | by apply sound_reachable |].
    exists s'. split; [done|]. unfold final in Hfinal.
    pose proof (sound_main _ _ _ Hs') as Hm.
    destruct (main_pc s') as [| | | |e]; try done.
    by destruct (configured_no_crash e Hc).
Qed.
End DispatcherProofs.
(** *** A run with a model that has no base URL *)

Ltac main_moves lem :=
  eapply nsteps_l; [eapply lem; reflexivity|]; cbn [main_pc threads shared].

Ltac worker_moves before lem :=
  eapply nsteps_l;
  [eapply (worker_moves _ _ _ before); [reflexivity | eapply lem; reflexivity]|];
  cbn [main_pc threads shared].

Ltac worker_generates before world :=
  eapply nsteps_l;
  [eapply (worker_moves _ _ _ before);
   [reflexivity | eapply (step_generate _ _ world); reflexivity]|];
  cbn [main_pc threads shared].

Lemma run_to_block :
  nsteps (step mixed_models (one_prompt ["llama"; "broken"])) 4
         (initial (one_prompt ["llama"; "broken"])) in_block.
Proof.
  main_moves main_next_model.
  main_moves main_start_thread.
  worker_generates (@nil Worker) storyteller.
  worker_moves (@nil Worker) step_acquire.
  apply nsteps_O.
Defined.

Lemma run_to_rest :
  nsteps (step mixed_models (one_prompt ["llama"; "broken"])) 13 in_block at_rest.
Proof.
  worker_moves (@nil Worker) step_append.
  worker_moves (@nil Worker) step_release.
  worker_moves (@nil Worker) step_log_info.
  main_moves main_model_done.
  main_moves main_next_model.
  main_moves main_start_thread.
  main_moves main_model_done.
  main_moves main_all_started.
  worker_moves [llama_worker Finished] step_no_base_url.
  worker_moves [llama_worker Finished] step_handle.
  main_moves main_join.
  main_moves main_join.
  main_moves main_joined.
  apply nsteps_O.
Defined.

Lemma reachable_in_block :
  reachable mixed_models (one_prompt ["llama"; "broken"]) in_block.
Proof. exact (rtc_nsteps_2 _ _ _ run_to_block). Defined.

Lemma reachable_at_rest :
  reachable mixed_models (one_prompt ["llama"; "broken"]) at_rest.
Proof.
  exact (rtc_nsteps_2 _ _ _ (nsteps_trans _ _ _ _ _ run_to_block run_to_rest)).
Defined.

Lemma lock_held_inside_block_witness :
  holds (Append "Once upon a time") ↔ lock (shared in_block) = Some 0.
Proof.
  apply (lock_held_inside_block mixed_models (one_prompt ["llama"; "broken"])
           in_block 0 (llama_worker (Append "Once upon a time"))).
  - apply reachable_in_block.
  - reflexivity.
Defined.

Lemma dispatch_never_deadlocks_witness :
  ∃ s', rtc (step mixed_models (one_prompt ["llama"; "broken"])) in_block s' ∧
        final s' ∧ lock (shared s') = None ∧
        ∀ s'', ¬ step mixed_models (one_prompt ["llama"; "broken"]) s' s''.
Proof.
  apply (dispatch_never_deadlocks mixed_models (one_prompt ["llama"; "broken"])
           in_block).
  apply reachable_in_block.
Defined.

Lemma run_length_bounded_witness :
  nsteps (step mixed_models (one_prompt ["llama"; "broken"])) 17
         (initial (one_prompt ["llama"; "broken"])) at_rest ∧
  17 ≤ length (models_to_use (one_prompt ["llama"; "broken"]))
       * (2 + 7 * length (fable_prompts (one_prompt ["llama"; "broken"]))) + 2.
Proof.
  split; [exact (nsteps_trans _ _ _ _ _ run_to_block run_to_rest)|].
  apply (run_length_bounded mixed_models (one_prompt ["llama"; "broken"]) 17 at_rest).
  exact (nsteps_trans _ _ _ _ _ run_to_block run_to_rest).
Defined.

Lemma joined_collects_served_witness :
  record_key <$> all_fables (shared at_rest)
    ≡ₚ job_key <$> [job (llama_worker Finished)] ∧
  Forall (fun record => dom record = list_to_set fields)
         (all_fables (shared at_rest)).
Proof.
  apply (joined_collects_served mixed_models (one_prompt ["llama"; "broken"])
           at_rest).
  - apply reachable_at_rest.
  - reflexivity.
Defined.

Lemma main_crash_cause_witness :
  crash_cause mixed_models (one_prompt ["llama"; "null"])
              (Exn TypeError "'NoneType' object is not subscriptable") ∧
  (TypeError = KeyError ∨ TypeError = TypeError).
Proof.
  apply (main_crash_cause mixed_models (one_prompt ["llama"; "null"])
           {| main_pc := Crashed (Exn TypeError "'NoneType' object is not subscriptable");
              threads := [llama_worker Generate];
              shared := {| all_fables := []; lock := None;
                           log := [(INFO, "Generating fables using model: Llama")] |} |}).
  - eapply rtc_nsteps_2.
    main_moves main_next_model.
    main_moves main_start_thread.
    main_moves main_model_done.
    main_moves main_no_name.
    apply nsteps_O.
  - reflexivity.
Defined.

(** A configuration without a name ends the loop in the same way, with
    the [KeyError] of the key. *)
Lemma nameless_model_crashes :
  reachable mixed_models (one_prompt ["llama"; "nameless"])
    {| main_pc := Crashed (Exn KeyError "'name'");
       threads := [llama_worker Generate];
       shared := {| all_fables := []; lock := None;
                    log := [(INFO, "Generating fables using model: Llama")] |} |}.
Proof.
  eapply rtc_nsteps_2.
  main_moves main_next_model.
  main_moves main_start_thread.
  main_moves main_model_done.
  main_moves main_no_name.
  apply nsteps_O.
Qed.

Lemma shared_state_grows_witness :
  all_fables (shared in_block) `prefix_of` all_fables (shared at_rest) ∧
  log (shared in_block) `prefix_of` log (shared at_rest) ∧
  (job <$> threads in_block) `prefix_of` (job <$> threads at_rest).
Proof.
  apply (shared_state_grows mixed_models (one_prompt ["llama"; "broken"])).
  exact (rtc_nsteps_2 _ _ _ run_to_rest).
Defined.


(** *** Two models and two prompts *)

Lemma configured_two_by_two : configured two_models (models_to_use two_by_two).
Proof.
  intros m Hm. simpl in Hm.
  apply elem_of_cons in Hm as [->|Hm];
    [|apply list_elem_of_singleton in Hm as ->];
    (eexists; split; [reflexivity | split; by eexists]).
Defined.

Lemma dispatcher_collects_witness :
  (∀ s, reachable two_models two_by_two s → main_pc s = Joined →
     record_key <$> all_fables (shared s)
       ≡ₚ job_key <$> filter (fun j => has_base_url j)
                        (jobs_for two_models two_by_two (models_to_use two_by_two)) ∧
     Forall (fun record => dom record = list_to_set fields)
            (all_fables (shared s)) ∧
     length (all_fables (shared s)) =
       length (filter (fun m => served two_models m) (models_to_use two_by_two)) * 2) ∧
  filter (fun m => served two_models m) (models_to_use two_by_two)
    = ["llama"; "mistral"] ∧
  (∀ s, reachable two_models two_by_two s →
     ∃ s', rtc (step two_models two_by_two) s s' ∧ main_pc s' = Joined).
Proof.
  destruct (dispatcher_collects two_models two_by_two) as [Hcollect Hall].
  split; [exact Hcollect | exact (Hall configured_two_by_two)].
Defined.

(** C1 as stated fails for a model whose configuration has no base URL:
    the validation in [main] accepts the models "llama" and "broken", the
    worker of "broken" raises [KeyError] inside its [try], and after the
    join the shared list holds one record for the two (model, prompt)
    pairs. *)
Lemma dispatcher_misses_a_pair :
  invalid_models mixed_models (models_to_use (one_prompt ["llama"; "broken"])) = [] ∧
  reachable mixed_models (one_prompt ["llama"; "broken"]) at_rest ∧
  main_pc at_rest = Joined ∧
  length (all_fables (shared at_rest)) = 1 ∧
  length (models_to_use (one_prompt ["llama"; "broken"]))
  * length (fable_prompts (one_prompt ["llama"; "broken"])) = 2.
Proof. split_and!; [by vm_compute | apply reachable_at_rest | done..]. Qed.

(** * More properties *)

(** ** [evaluate_fable] *)

Lemma evaluate_fable_body_failure w fable e :
  evaluation_failure w fable e → evaluate_fable_body w fable = Raise e.
Proof.
  unfold evaluate_fable_body.
  destruct 1 as [e He | k e Hk He | k Hk Hc | k c rest Hk Hc Hn].
  - by rewrite He.
  - rewrite Hk. simpl. by rewrite He.
  - rewrite Hk. simpl. by rewrite Hc.
  - rewrite Hk. simpl. rewrite Hc. unfold evaluation_text. simpl. by rewrite Hn.
Qed.

(** X1.  [evaluate_fable] never raises: it always returns a str; and
    when a failure [e] is raised inside the evaluation call (no credential,
    a failing request, a completion without choices or without content) it
    logs the failure and returns "Error evaluating fable: " followed by
    [str(e)]. *)
Theorem evaluate_fable_never_raises w fable :
  (∃ records text, evaluate_fable w fable = (records, Ok text)) ∧
  ∀ e, evaluation_failure w fable e →
       evaluate_fable w fable =
         ([(ERROR, "OpenAI API error during evaluation: " +:+ exn_str e)],
          Ok ("Error evaluating fable: " +:+ exn_str e)).
Proof.
  split.
  - unfold evaluate_fable.
    destruct (evaluate_fable_body w fable) as [text|e]; simpl; eauto.
  - intros e He. unfold evaluate_fable.
    by rewrite (evaluate_fable_body_failure _ _ _ He).
Qed.

Lemma evaluate_fable_never_raises_witness :
  evaluate_fable offline "A fable." =
    ([(ERROR, "OpenAI API error during evaluation: Connection error.")],
     Ok "Error evaluating fable: Connection error.").
Proof.
  apply (proj2 (evaluate_fable_never_raises offline "A fable.")
           (Exn APIError "Connection error.")).
  by apply judge_create_failure with "hf_token".
Defined.

Lemma evaluate_fable_total w fable :
  ∃ records text, evaluate_fable w fable = (records, Ok text).
Proof.
  unfold evaluate_fable.
  destruct (evaluate_fable_body w fable) as [text|e]; simpl; eauto.
Qed.

(** ** [generate_prompts] *)

Lemma picks_round_robin_functional fs i c c' :
  picks_round_robin fs i c → picks_round_robin fs i c' → c = c'.
Proof.
  destruct c as [[[[[a1 a2] a3] a4] a5] a6], c' as [[[[[b1 b2] b3] b4] b5] b6].
  intros (?&?&?&?&?&?) (?&?&?&?&?&?). congruence.
Qed.

Lemma mod_add_period (i L n : nat) : (n | L) → (i + L) mod n = i mod n.
Proof. intros [k ->]. apply Nat.Div0.mod_add. Qed.

Lemma picks_round_robin_period fs i L c :
  Forall (fun n => (n | L)) (feature_lengths fs) →
  picks_round_robin fs i c → picks_round_robin fs (i + L) c.
Proof.
  unfold feature_lengths. intros Hdiv.
  apply Forall_cons in Hdiv as [H1 Hdiv]. apply Forall_cons in Hdiv as [H2 Hdiv].
  apply Forall_cons in Hdiv as [H3 Hdiv]. apply Forall_cons in Hdiv as [H4 Hdiv].
  apply Forall_cons in Hdiv as [H5 Hdiv]. apply Forall_cons in Hdiv as [H6 _].
  destruct c as [[[[[a1 a2] a3] a4] a5] a6]. unfold picks_round_robin.
  by rewrite !mod_add_period.
Qed.

(** Sequential mode, with the prompt at every index determined. *)
Lemma generate_prompts_sequential compile random fuel config sp render (N : nat) :
  accepts compile config sp render →
  nonempty_features (features (generator config)) →
  N < fuel →
  ∃ prompts,
    generate_prompts compile random fuel config (Z.of_nat N) false =
      Returned (sp, prompts) ∧
    length prompts = N ∧
    ∀ i c, i < N → picks_round_robin (features (generator config)) i c →
           prompts !! i = Some (render (context_of c)).
Proof.
  intros Hacc Hne Hfuel.
  destruct (generate_prompts_accepts compile config sp render Hacc)
    as (gt & Hrender & ->).
  destruct (while_loop_sequential random _ gt render N Hne Hrender N fuel
              {| prompts := []; used_combinations := ∅; draws := 0 |})
    as (new & -> & Hlen & Hnth); [done | done |].
  exists new. cbn [prompts app]. split_and!; [done | done |].
  intros i c Hi Hc. destruct (Hnth i Hi) as (c' & Hc' & ->).
  cbn [prompts length Nat.add] in Hc'.
  by rewrite (picks_round_robin_functional _ _ _ _ Hc Hc').
Qed.

(** X7.  Sequential mode is incremental: the prompts for a count [N] are
    the first [N] of the prompts for any larger count [M]. *)
Theorem sequential_prompts_prefix compile random fuel config sp render (N M : nat) :
  accepts compile config sp render →
  nonempty_features (features (generator config)) →
  N ≤ M → M < fuel →
  ∃ shorter longer,
    generate_prompts compile random fuel config (Z.of_nat N) false =
      Returned (sp, shorter) ∧
    generate_prompts compile random fuel config (Z.of_nat M) false =
      Returned (sp, longer) ∧
    shorter = take N longer.
Proof.
  intros Hacc Hne HNM Hfuel.
  destruct (generate_prompts_sequential compile random fuel config sp render N
              Hacc Hne) as (shorter & Hshort & Hlen & Hnth); [lia|].
  destruct (generate_prompts_sequential compile random fuel config sp render M
              Hacc Hne) as (longer & Hlong & Hlen' & Hnth'); [lia|].
  exists shorter, longer. split_and!; [done | done |].
  apply list_eq. intros i. destruct (decide (i < N)) as [Hi|Hi].
  - rewrite lookup_take_lt by done.
    destruct (sequential_combination_nonempty _ i Hne) as (c & _ & Hc).
    rewrite (Hnth i c Hi Hc), (Hnth' i c) by (done || lia). done.
  - rewrite lookup_take_ge by lia. apply lookup_ge_None. lia.
Qed.

Lemma sequential_prompts_prefix_witness :
  ∃ shorter longer,
    generate_prompts names_character sweep 6 (example_config two_three)
      (Z.of_nat 2) false = Returned ("You write fables.", shorter) ∧
    generate_prompts names_character sweep 6 (example_config two_three)
      (Z.of_nat 5) false = Returned ("You write fables.", longer) ∧
    shorter = take 2 longer.
Proof.
  apply (sequential_prompts_prefix names_character sweep 6 (example_config two_three)
           "You write fables."
           (fun ctx => "Write a fable:" +:+ default EmptyString (ctx !! "character"))
           2 5).
  - by eexists _, _.
  - by split_and!.
  - lia.
  - lia.
Defined.

(** X8.  Sequential mode repeats itself: when [L] is a multiple of the
    length of every feature list, the prompt at index [i + L] is the prompt
    at index [i].  So a count above the least common multiple of the six
    lengths yields duplicate prompts, however large the feature space. *)
Theorem sequential_prompts_periodic compile random fuel config sp render (N L : nat) :
  accepts compile config sp render →
  nonempty_features (features (generator config)) →
  N < fuel →
  Forall (fun n => (n | L)) (feature_lengths (features (generator config))) →
  ∃ prompts,
    generate_prompts compile random fuel config (Z.of_nat N) false =
      Returned (sp, prompts) ∧
    ∀ i, i + L < N → prompts !! (i + L) = prompts !! i.
Proof.
  intros Hacc Hne Hfuel Hdiv.
  destruct (generate_prompts_sequential compile random fuel config sp render N
              Hacc Hne Hfuel) as (prompts & Hrun & Hlen & Hnth).
  exists prompts. split; [done|]. intros i Hi.
  destruct (sequential_combination_nonempty _ i Hne) as (c & _ & Hc).
  rewrite (Hnth i c) by (done || lia).
  apply Hnth; [done|]. by apply picks_round_robin_period.
Qed.

Lemma sequential_prompts_periodic_witness :
  ∃ prompts,
    generate_prompts names_character sweep 9 (example_config two_three)
      (Z.of_nat 8) false = Returned ("You write fables.", prompts) ∧
    ∀ i, i + 6 < 8 → prompts !! (i + 6) = prompts !! i.
Proof.
  apply (sequential_prompts_periodic names_character sweep 9
           (example_config two_three) "You write fables."
           (fun ctx => "Write a fable:" +:+ default EmptyString (ctx !! "character"))
           8 6).
  - by eexists _, _.
  - by split_and!.
  - lia.
  - unfold feature_lengths. cbn [example_config two_three features generator
      characters traits settings conflicts resolutions morals length].
    repeat (apply Forall_cons; split); [| | | | | | apply Forall_nil; exact I].
    + by exists 3.
    + by exists 2.
    + by exists 6.
    + by exists 6.
    + by exists 6.
    + by exists 6.
Defined.

(** X9.  With a count of zero or less the loop body never runs: both modes
    return the system prompt and no prompt, also when a feature list is
    empty. *)
Theorem no_prompts_requested compile random fuel config sp render count randomize :
  accepts compile config sp render →
  (count ≤ 0)%Z →
  generate_prompts compile random (S fuel) config count randomize =
    Returned (sp, []).
Proof.
  intros Hacc Hcount.
  destruct (generate_prompts_accepts compile config sp render Hacc)
    as (gt & _ & ->).
  rewrite while_loop_S. cbn [prompts length].
  by destruct (Z.ltb_spec (Z.of_nat 0) count); [lia|].
Qed.

Lemma no_prompts_requested_witness :
  generate_prompts plain_text sweep 1 (example_config no_characters) (-3) true =
    Returned ("You write fables.", []).
Proof.
  apply (no_prompts_requested plain_text sweep 0 (example_config no_characters)
           "You write fables." (fun _ => "Write a fable:") (-3)%Z true).
  - apply accepts_plain_text.
  - lia.
Defined.

(** X10.  The templates are compiled and the system prompt is rendered
    before the loop: when one of these raises, the call raises the same
    exception for every count (zero included), mode and feature set, and
    no prompt is produced. *)
Theorem setup_failure_raised compile random fuel config count randomize e :
  setup_failure compile config e →
  generate_prompts compile random fuel config count randomize = Raised e.
Proof.
  unfold generate_prompts.
  intros [e' H1 | st e' H1 H2 | st gt e' H1 H2 H3];
    rewrite ?H1; cbn [of_exc]; rewrite ?H2; cbn [of_exc]; rewrite ?H3; done.
Qed.

Lemma setup_failure_raised_witness :
  generate_prompts rejects_all sweep 0 (example_config no_characters) 0 false =
    Raised (Exn PybarsError "invalid template").
Proof.
  apply (setup_failure_raised rejects_all sweep 0 (example_config no_characters)
           0%Z false).
  by apply system_template_invalid.
Defined.

(** X11.  There is no handler around the rendering of a prompt: when the
    fable template raises on every context, a call for at least one
    prompt over non-empty feature lists raises that exception in both
    modes, at the first pass through the loop. *)
Theorem render_failure_raised compile random fuel config
    (system_template generator_template : Template) sp e (N : nat) randomize :
  compile (system (prompt (generator config))) = Ok system_template →
  compile (fable (prompt (generator config))) = Ok generator_template →
  system_template ∅ = Ok sp →
  (∀ ctx, generator_template ctx = Raise e) →
  nonempty_features (features (generator config)) →
  0 < N →
  generate_prompts compile random (S fuel) config (Z.of_nat N) randomize = Raised e.
Proof.
  intros Hst Hgt Hsp Hraise Hne HN.
  unfold generate_prompts. rewrite Hst, Hgt. cbn [of_exc]. rewrite Hsp.
  cbn [of_exc]. rewrite while_loop_S. cbn [prompts length].
  destruct (Z.ltb_spec (Z.of_nat 0) (Z.of_nat N)); [|lia].
  unfold loop_body. destruct randomize.
  - destruct (random_combination_nonempty random _ 0 Hne) as (c & Hc).
    cbn [draws]. rewrite Hc. simpl. by rewrite Hraise.
  - destruct (sequential_combination_nonempty _ 0 Hne) as (c & Hc & _).
    cbn [prompts length]. rewrite Hc. simpl. by rewrite Hraise.
Qed.

Lemma render_failure_raised_witness :
  generate_prompts renders_system_only sweep 1 (example_config fox_and_rabbit)
    (Z.of_nat 2) true = Raised (Exn PybarsError "cannot render") ∧
  generate_prompts renders_system_only sweep 1 (example_config fox_and_rabbit)
    (Z.of_nat 2) false = Raised (Exn PybarsError "cannot render").
Proof.
  split;
    apply (render_failure_raised renders_system_only sweep 0
             (example_config fox_and_rabbit)
             (fun _ => Ok "You write fables.")
             (fun _ => Raise (Exn PybarsError "cannot render"))
             "You write fables.");
    (reflexivity || by split_and! || lia).
Defined.

(** ** [FableGenerator.generate_fable_combinations] *)

Lemma exchange_permutes {A} (x : list A) (i j : nat) :
  i < length x → j < length x →
  ∃ x', exchange x i j = Ok x' ∧ x' ≡ₚ x.
Proof.
  intros Hi Hj. unfold exchange, py_item.
  destruct (lookup_lt_is_Some_2 x i Hi) as [xi Hxi].
  destruct (lookup_lt_is_Some_2 x j Hj) as [xj Hxj].
  rewrite Hxi, Hxj. simpl. eexists. split; [done|].
  by apply Permutation_insert_swap.
Qed.

Lemma shuffle_from_permutes {A} (random : nat → nat) (i pos : nat) (x : list A) :
  i < length x →
  ∃ x', shuffle_from random i pos x = Ok x' ∧ x' ≡ₚ x.
Proof.
  revert pos x. induction i as [|i IH]; intros pos x Hi; [by exists x|].
  cbn [shuffle_from].
  destruct (exchange_permutes x (S i) (random pos mod (S i + 1))) as (x1 & -> & H1).
  { done. }
  { pose proof (Nat.mod_upper_bound (random pos) (S i + 1)). lia. }
  destruct (IH (pos + 1) x1) as (x2 & H2 & Hperm).
  { rewrite (Permutation_length H1). lia. }
  exists x2. split; [done | by etrans].
Qed.

Lemma shuffle_permutes {A} (random : nat → nat) (x : list A) :
  ∃ x', shuffle random x = Ok x' ∧ x' ≡ₚ x.
Proof.
  unfold shuffle. destruct x as [|a x]; [by exists []|].
  apply shuffle_from_permutes. simpl. lia.
Qed.

Lemma length_slice_to {A} (l : list A) (n : Z) :
  length (slice_to l n) =
    if (0 <=? n)%Z then Z.to_nat n `min` length l
    else length l - Z.to_nat (- n).
Proof.
  unfold slice_to. destruct (0 <=? n)%Z; rewrite length_take; lia.
Qed.

(** X26.  [generate_fable_combinations] always returns: the shuffle never
    leaves the list.  What it returns is a selection from the product of
    the six lists, each combination at most as often as the product has
    it: [num_fables] of them, all of them when the product is smaller, and
    for a negative [num_fables] all but the last [-num_fables]. *)
Theorem combinations_selected random config num_fables :
  ∃ selected rest,
    generate_fable_combinations random config num_fables = Ok selected ∧
    selected ++ rest ≡ₚ all_combinations config ∧
    length selected =
      if (0 <=? num_fables)%Z
      then Z.to_nat num_fables `min` length (all_combinations config)
      else length (all_combinations config) - Z.to_nat (- num_fables).
Proof.
  unfold generate_fable_combinations.
  destruct (shuffle_permutes random (all_combinations config)) as (x & -> & Hperm).
  simpl. exists (slice_to x num_fables).
  exists (drop (length (slice_to x num_fables)) x). split_and!; [done | |].
  - rewrite <- Hperm. unfold slice_to.
    destruct (0 <=? num_fables)%Z; rewrite length_take.
    + destruct (Nat.min_spec (Z.to_nat num_fables) (length x)) as [[? ->]|[? ->]].
      * by rewrite take_drop.
      * by rewrite take_ge, drop_all, app_nil_r by lia.
    + rewrite Nat.min_l by lia. by rewrite take_drop.
  - by rewrite length_slice_to, (Permutation_length Hperm).
Qed.

Lemma NoDup_bind_tag {A B} (l : list A) (f : A → list B) (tag : B → A) :
  (∀ x y, y ∈ f x → tag y = x) →
  (∀ x, x ∈ l → NoDup (f x)) →
  NoDup l → NoDup (l ≫= f).
Proof.
  intros Htag Hf Hl. apply NoDup_bind; [|done..].
  intros x1 x2 y _ _ H1 H2. by rewrite <- (Htag x1 y H1), <- (Htag x2 y H2).
Qed.

Ltac tagged :=
  let Hy := fresh "Hy" in
  intros ? ? Hy;
  repeat (apply list_elem_of_bind in Hy as (? & Hy & ?));
  apply list_elem_of_singleton in Hy; by subst.

Lemma NoDup_all_combinations config :
  no_duplicates config → NoDup (all_combinations config).
Proof.
  intros (H1 & H2 & H3 & H4 & H5 & H6). unfold all_combinations.
  apply (NoDup_bind_tag _ _ (fun c => c.1.1.1.1.1)); [tagged | intros a _ | done].
  apply (NoDup_bind_tag _ _ (fun c => c.1.1.1.1.2)); [tagged | intros b _ | done].
  apply (NoDup_bind_tag _ _ (fun c => c.1.1.1.2)); [tagged | intros c _ | done].
  apply (NoDup_bind_tag _ _ (fun c => c.1.1.2)); [tagged | intros d _ | done].
  apply (NoDup_bind_tag _ _ (fun c => c.1.2)); [tagged | intros e _ | done].
  apply (NoDup_bind_tag _ _ (fun c => c.2)); [tagged | intros f _ | done].
  apply NoDup_singleton.
Qed.

(** X27.  When no feature list names a value twice, no combination is
    selected twice. *)
Theorem combinations_distinct random config num_fables :
  no_duplicates config →
  ∃ selected,
    generate_fable_combinations random config num_fables = Ok selected ∧
    NoDup selected ∧
    ∀ c, c ∈ selected → c ∈ feature_space config.
Proof.
  intros Hnd. unfold generate_fable_combinations.
  destruct (shuffle_permutes random (all_combinations config)) as (x & -> & Hperm).
  simpl. exists (slice_to x num_fables).
  assert (slice_to x num_fables `sublist_of` x) as Hsub.
  { unfold slice_to. destruct (0 <=? num_fables)%Z; apply sublist_take. }
  split_and!; [done | |].
  - eapply sublist_NoDup; [|exact Hsub]. rewrite Hperm.
    by apply NoDup_all_combinations.
  - intros c Hc. apply elem_of_list_to_set. rewrite <- Hperm.
    by eapply elem_of_sublist.
Qed.

Lemma combinations_distinct_witness :
  ∃ selected,
    generate_fable_combinations sweep two_three 4 = Ok selected ∧
    NoDup selected ∧
    ∀ c, c ∈ selected → c ∈ feature_space two_three.
Proof.
  apply (combinations_distinct sweep two_three 4).
  unfold no_duplicates, two_three. simpl.
  split_and!; apply (bool_decide_unpack _); by vm_compute.
Defined.

(** ** [compile_template] and the [--generate-prompts] branch of [main] *)

(** X28.  A template that does not compile is reported as an unexpected
    error: [generate_prompts] calls the template engine itself, so the
    engine's exception reaches the last handler of [main], for every count
    and mode; [compile_template], which would turn the same failure into a
    [ConfigError] after logging it, is not on that path. *)
Theorem template_error_is_unexpected compile random fuel config count randomize e :
  compile (fable (prompt (generator config))) = Raise e →
  (∃ system_template,
     compile (system (prompt (generator config))) = Ok system_template) →
  exn_cls e ≠ ConfigError →
  main_generate_prompts compile random fuel config count randomize =
    Returned ([(ERROR, "Unexpected error: " +:+ exn_str e)], EmptyString, Some 1%Z) ∧
  compile_template compile (fable (prompt (generator config))) =
    ([(ERROR, "Failed to compile template: " +:+ exn_str e)],
     Raise (Exn ConfigError ("Template compilation failed: " +:+ exn_str e))).
Proof.
  intros Hfable [system_template Hsystem] Hcls. split.
  - unfold main_generate_prompts, generate_prompts.
    rewrite Hsystem, Hfable. cbn [of_exc]. unfold exit_record.
    by destruct (exn_cls e).
  - unfold compile_template. by rewrite Hfable.
Qed.

Lemma template_error_is_unexpected_witness :
  main_generate_prompts fable_template_invalid_engine sweep 0
    (example_config fox_and_rabbit) 3 true =
    Returned ([(ERROR, "Unexpected error: " +:+ "invalid template")],
              EmptyString, Some 1%Z) ∧
  compile_template fable_template_invalid_engine "Write a fable:" =
    ([(ERROR, "Failed to compile template: " +:+ "invalid template")],
     Raise (Exn ConfigError ("Template compilation failed: " +:+ "invalid template"))).
Proof.
  apply (template_error_is_unexpected fable_template_invalid_engine sweep 0
           (example_config fox_and_rabbit) 3%Z true
           (Exn PybarsError "invalid template")).
  - reflexivity.
  - by eexists.
  - done.
Defined.

(** X29.  The branch prints what [generate_prompts] returned: in
    sequential mode over non-empty feature lists, [N] lines, the [i]-th
    being the pair of the system prompt and the [i]-th round-robin prompt;
    nothing is logged and the branch returns normally. *)
Theorem generated_prompts_written compile random fuel config sp render (N : nat) :
  accepts compile config sp render →
  nonempty_features (features (generator config)) →
  N < fuel →
  ∃ prompts,
    main_generate_prompts compile random fuel config (Z.of_nat N) false =
      Returned ([], write_output_jsonl sp prompts, None) ∧
    readlines (translate_newlines (write_output_jsonl sp prompts)) =
      (fun template => line (prompt_pair sp template)) <$> prompts ∧
    length prompts = N ∧
    ∀ i c, i < N → picks_round_robin (features (generator config)) i c →
           prompts !! i = Some (render (context_of c)).
Proof.
  intros Hacc Hne Hfuel.
  destruct (generate_prompts_sequential compile random fuel config sp render N
              Hacc Hne Hfuel) as (prompts & Hrun & Hlen & Hnth).
  exists prompts. unfold main_generate_prompts. rewrite Hrun.
  split_and!; [done | | done | done].
  induction prompts as [|template rest IH] in |- *; [done|].
  cbn [write_output_jsonl fmap list_fmap].
  rewrite translate_newlines_printable by apply printable_prompt_pair.
  rewrite readlines_printable by apply printable_prompt_pair.
  by rewrite IH.
Qed.

Lemma generated_prompts_written_witness :
  ∃ prompts,
    main_generate_prompts names_character sweep 4 (example_config two_three)
      (Z.of_nat 3) false =
      Returned ([], write_output_jsonl "You write fables." prompts, None) ∧
    readlines (translate_newlines (write_output_jsonl "You write fables." prompts)) =
      (fun template => line (prompt_pair "You write fables." template)) <$> prompts ∧
    length prompts = 3 ∧
    ∀ i c, i < 3 → picks_round_robin two_three i c →
           prompts !! i =
             Some ("Write a fable:" +:+ default EmptyString (context_of c !! "character")).
Proof.
  apply (generated_prompts_written names_character sweep 4 (example_config two_three)
           "You write fables."
           (fun ctx => "Write a fable:" +:+ default EmptyString (ctx !! "character")) 3).
  - by eexists _, _.
  - by split_and!.
  - lia.
Defined.

(** ** The [--evaluate] branch of [main] *)

Lemma evaluate_fable_records w fable records r :
  evaluate_fable w fable = (records, r) →
  filter (fun record => is_warning record) records = [].
Proof.
  unfold evaluate_fable.
  destruct (evaluate_fable_body w fable) as [text|e]; simpl; by intros [= <- <-].
Qed.

Lemma evaluate_entries_returns w repr entries :
  Forall (fun entry => is_object entry = true) entries →
  ∃ records evaluations,
    evaluate_entries w repr entries =
      (records,
       join (zip_with evaluation_block (format_value repr <$> fable_values entries)
                      evaluations),
       Ok tt) ∧
    Forall2 (evaluates w) (format_value repr <$> fable_values entries) evaluations ∧
    filter (fun record => is_warning record) records =
      (fun fable_data =>
         (WARNING, "Skipping entry due to missing 'fable' key: "
                     +:+ format_value repr fable_data))
      <$> filter (fun fable_data => fable_of fable_data = None) entries.
Proof.
  induction 1 as [|fable_data rest Hobj _ (records & evaluations & Hrun & Hev & Hwarn)].
  - by exists [], [].
  - destruct fable_data as [| | | | |?|members]; try done.
    cbn [evaluate_entries contains subscript]. unfold fable_values.
    cbn [omap list_omap fable_of]. rewrite filter_cons. fold (fable_values rest).
    cbn [fable_of].
    destruct (dict_get members "fable") as [fable_text|] eqn:Hfable.
    + rewrite bool_decide_true by (by eexists).
      destruct (evaluate_fable_total w (format_value repr fable_text))
        as (recs & evaluation & Heval).
      rewrite Heval, Hrun, decide_False by done.
      exists (recs ++ (INFO, "Fable Evaluation:" +:+ nl +:+ evaluation) :: records),
             (evaluation :: evaluations).
      split_and!; [done | constructor; [by exists recs | done] |].
      rewrite filter_app, (evaluate_fable_records _ _ _ _ Heval), filter_cons.
      by rewrite decide_False by (by intros []).
    + rewrite bool_decide_false by (by intros [? ?]).
      rewrite Hrun, decide_True by done.
      eexists _, evaluations. split_and!; [done | done |].
      rewrite filter_cons, decide_True by done. by rewrite Hwarn.
Qed.


Lemma read_fable_records :
  read_prompts story_files "prompts.jsonl" =
    ([], Ok [JObject [("prompt_type", JString "generator_prompt");
                      ("content", JString "A fox.")];
             JObject [("prompt_type", JString "system_prompt");
                      ("content", JString "You write fables.")];
             JObject [("prompt_type", JString "generator_prompt");
                      ("content", JString "A hare.")];
             JObject [("prompt_type", JString "system_prompt");
                      ("content", JString "Ignored.")]]).
Proof. vm_compute. reflexivity. Qed.

Lemma read_fables_as_prompts :
  read_prompts fables_as_prompts "prompts.jsonl" =
    ([], Ok [JObject [("model", JString "Llama"); ("prompt", JString "A fox.");
                      ("fable", JString "Once upon a time")]]).
Proof. vm_compute. reflexivity. Defined.


(** An entry that is a list or a string is searched: the list [[1, 2]]
    does not hold "fable" and is skipped, the string "a fable" holds it
    and its subscript raises [TypeError]; an entry that is a number raises
    at the test. *)
Lemma evaluation_of_other_entries :
  main_evaluate fable_files judge braces "fables.jsonl" =
    ([(INFO, "Fable Evaluation:" +:+ nl +:+ "7");
      (WARNING, "Skipping entry due to missing 'fable' key: {...}");
      (WARNING, "Skipping entry due to missing 'fable' key: [...]");
      (ERROR, "Unexpected error: string indices must be integers, not 'str'")],
     evaluation_block "Once upon a time" "7", Some 1%Z) ∧
  main_evaluate number_file judge braces "fables.jsonl" =
    ([(INFO, "Fable Evaluation:" +:+ nl +:+ "7");
      (ERROR, "Unexpected error: argument of type 'int' is not iterable")],
     evaluation_block "Once upon a time" "7", Some 1%Z).
Proof. split; vm_compute; reflexivity. Qed.

Lemma evaluate_entries_failing w repr entries e :
  Forall (fun entry => is_object entry = true) entries →
  (∀ t, t ∈ format_value repr <$> fable_values entries → evaluation_failure w t e) →
  ∃ records,
    evaluate_entries w repr entries =
      (records,
       join ((fun t => evaluation_block t ("Error evaluating fable: " +:+ exn_str e))
               <$> (format_value repr <$> fable_values entries)),
       Ok tt) ∧
    length (filter (fun record => is_error record) records)
      = length (fable_values entries).
Proof.
  induction 1 as [|fable_data rest Hobj _ IH]; intros Hfail.
  - by exists [].
  - destruct fable_data as [| | | | |?|members]; try done.
    cbn [evaluate_entries contains subscript]. unfold fable_values in *.
    cbn [omap list_omap fable_of] in *.
    destruct (dict_get members "fable") as [fable_text|] eqn:Hfable.
    + rewrite bool_decide_true by (by eexists).
      destruct IH as (records & -> & Hlen).
      { intros t Ht. apply Hfail. cbn [fmap list_fmap]. by right. }
      unfold evaluate_fable.
      rewrite (evaluate_fable_body_failure w (format_value repr fable_text) e)
        by (apply Hfail; by left).
      simpl. eexists. split; [done|].
      rewrite !filter_cons. simpl. by rewrite Hlen.
    + rewrite bool_decide_false by (by intros [? ?]).
      destruct IH as (records & -> & Hlen); [done|].
      eexists. split; [done|]. by rewrite filter_cons.
Qed.



Lemma read_prompts_raises files filename records e :
  read_prompts files filename = (records, Raise e) →
  exn_cls e = ConfigError ∨ records = [].
Proof.
  assert (∀ e0, read_prompts_except (A := list json) filename e0 = (records, Raise e) →
                exn_cls e = ConfigError ∨ records = []) as Hexcept.
  { intros e0. unfold read_prompts_except.
    destruct (exn_cls e0); cbn; intros [= <- <-]; (by left) || (by right). }
  unfold read_prompts. destruct (files filename) as [f|e0]; [|apply Hexcept].
  destruct (file_lines f) as [lines failure].
  destruct (load_lines lines failure) as [data|e0]; [done | apply Hexcept].
Qed.



(** A line that is not JSON, after a line that is: nothing is evaluated,
    and the message gives the position of the error in the line. *)
Lemma broken_line_evaluates_nothing :
  main_evaluate story_files judge braces "broken.jsonl" =
    ([(ERROR, "Error parsing JSONL file: Expecting property name enclosed in double quotes: line 1 column 2 (char 1)");
      (ERROR, "Configuration error: Invalid JSONL format: Expecting property name enclosed in double quotes: line 1 column 2 (char 1)")],
     EmptyString, Some 1%Z).
Proof. vm_compute. reflexivity. Qed.

Lemma fable_values_fable_object repr fables :
  Forall has_fields fables →
  format_value repr <$> fable_values (fable_object <$> fables) = fable_texts fables.
Proof.
  induction 1 as [|fable fables Hf _ IH]; [done|].
  destruct (Hf "model") as [a Ha]; [set_solver|].
  destruct (Hf "prompt") as [b Hb]; [set_solver|].
  destruct (Hf "fable") as [c Hc]; [set_solver|].
  unfold fable_values, fable_texts in *. cbn [fmap list_fmap omap list_omap].
  unfold fable_object at 1, fields. cbn [omap list_omap fable_of].
  rewrite Ha, Hb, Hc. cbn [fmap option_fmap option_map].
  change (dict_get [("model", JString a); ("prompt", JString b); ("fable", JString c)]
                   "fable") with (Some (JString c)).
  cbn [fmap list_fmap format_value]. by rewrite <- IH.
Qed.

Lemma length_fable_texts fables :
  Forall has_fields fables → length (fable_texts fables) = length fables.
Proof.
  induction 1 as [|fable fables Hf _ IH]; [done|].
  unfold fable_texts in *. cbn [omap list_omap].
  destruct (Hf "fable") as [t ->].
  { unfold fields. apply elem_of_cons. right. apply elem_of_cons. right. by left. }
  simpl. by rewrite IH.
Qed.



(** ** The output of [--generate-prompts] as input of [--generate-fables] *)

Lemma strip_prompt_pair system_prompt template rest :
  ∃ c s, strip (prompt_pair system_prompt template +:+ rest) = String c s.
Proof. unfold prompt_pair. norm_append. by apply strip_nonempty. Qed.

Lemma load_prompt_pairs system_prompt templates :
  round_trips system_prompt = true →
  Forall (fun template => round_trips template = true) templates →
  load_lines (readlines (translate_newlines
                (write_output_jsonl system_prompt templates))) None =
    Ok ((fun template =>
           JArray [JObject [("prompt_type", JString "system_prompt");
                            ("content", JString system_prompt)];
                   JObject [("prompt_type", JString "generator_prompt");
                            ("content", JString template)]]) <$> templates).
Proof.
  intros Hsp. induction 1 as [|template templates Ht _ IH]; [done|].
  cbn [write_output_jsonl].
  rewrite translate_newlines_printable by apply printable_prompt_pair.
  rewrite readlines_printable by apply printable_prompt_pair.
  cbn [load_lines].
  destruct (strip_prompt_pair system_prompt template (String newline EmptyString))
    as (c & s & ->).
  rewrite json_loads_prompt_pair by done. cbn [mbind exc_bind]. by rewrite IH.
Qed.

(** X30.  The jsonl output of [--generate-prompts] is no prompt file for
    [--generate-fables]: each of its lines is a JSON array, so that
    [p['prompt_type']] raises [TypeError], and the run ends with an
    unexpected error and exit status 1. *)
Theorem generated_prompts_rejected (files : FileSystem) available_models args
    system_prompt templates :
  available_models ≠ [] →
  invalid_models available_models (select_models available_models args) = [] →
  round_trips system_prompt = true →
  Forall (fun template => round_trips template = true) templates →
  templates ≠ [] →
  files (args_generate_fables args) =
    Ok (Text (write_output_jsonl system_prompt templates)) →
  main_prologue files available_models args =
    ([(ERROR, "Unexpected error: list indices must be integers or slices, not str")],
     inl 1%Z).
Proof.
  intros Hne Hvalid Hsp Hts Htemplates Hfile.
  unfold main_prologue, prepare. destruct available_models as [|kv rest]; [done|].
  rewrite Hvalid. unfold read_prompts. rewrite Hfile. cbn [file_lines].
  rewrite (load_prompt_pairs system_prompt templates Hsp Hts).
  destruct templates as [|template templates]; [done|]. reflexivity.
Qed.

Lemma generated_prompts_rejected_witness :
  main_prologue generated_prompts two_models run_args =
    ([(ERROR, "Unexpected error: list indices must be integers or slices, not str")],
     inl 1%Z).
Proof.
  apply (generated_prompts_rejected generated_prompts two_models run_args
           "You write fables." ["A fox."]).
  - done.
  - by vm_compute.
  - done.
  - by repeat constructor.
  - done.
  - reflexivity.
Defined.
